(** * Kenshi-Online reverse-engineering scanner: the [PEParser] class of
    [tools/re_scanner.py], embedded as functions over an immutable image.

    The Python object is a record; a method is a function of the record.
    A bytes object is a [list byte]; indexing it yields an integer in
    [0, 256), here a [Z]. Python integers are unbounded, hence [Z] with no
    wrap-around. Exceptions are values of [exn] carried by [result]. *)

From Stdlib Require Import ZArith Lia Sorting.Sorted.
From Stdlib Require Import Strings.Byte Strings.Ascii.
From stdpp Require Import base list gmap strings.

Local Open Scope Z_scope.

(** ** Python substrate *)

Module Py.

Inductive exn : Type :=
| ValueError (msg : string)
| StructError
| IndexError
| KeyError.

Inductive result (A : Type) : Type :=
| Ok (a : A)
| Raise (e : exn).
Arguments Ok {A} a.
Arguments Raise {A} e.

#[global] Instance result_ret : MRet result := fun A a => Ok a.
#[global] Instance result_bind : MBind result := fun A B f m =>
  match m with
  | Ok a => f a
  | Raise e => Raise e
  end.

(** [for x in xs: acc = body(acc, x)], stopping at the first exception. *)
Fixpoint for_each {A B : Type} (body : B -> A -> result B) (xs : list A) (acc : B)
  : result B :=
  match xs with
  | [] => Ok acc
  | x :: xs' => acc' ← body acc x; for_each body xs' acc'
  end.

(** [range(n)] and [range(start, stop, step)] for a positive step. *)
Definition range (n : Z) : list Z :=
  map Z.of_nat (seq 0 (Z.to_nat n)).

Definition range_step (start stop step : Z) : list Z :=
  map (fun k => start + step * Z.of_nat k)
      (seq 0 (Z.to_nat ((stop - start + step - 1) / step))).

(** [range(hi, lo, -1)]: hi, hi-1, ..., lo+1. *)
Definition range_down (hi lo : Z) : list Z :=
  map (fun k => hi - Z.of_nat k) (seq 0 (Z.to_nat (hi - lo))).

#[global] Instance byte_eq_dec : EqDecision byte.
Proof.
  intros x y. destruct (Byte.eqb x y) eqn:E.
  - left. apply Byte.byte_dec_bl, E.
  - right. intros ->. rewrite (Byte.byte_dec_lb eq_refl) in E. discriminate.
Defined.

Definition byteZ (b : byte) : Z := Z.of_N (Byte.to_N b).

Definition byte_of_Z (z : Z) : byte :=
  match Byte.of_N (Z.to_N (z mod 256)) with
  | Some b => b
  | None => x00
  end.

Definition len {A : Type} (d : list A) : Z := Z.of_nat (length d).

(** [d[i]]: a negative index counts from the end; out of range raises. *)
Definition getitem (d : list byte) (i : Z) : result Z :=
  let j := if i <? 0 then i + len d else i in
  if (0 <=? j) && (j <? len d)
  then match d !! Z.to_nat j with
       | Some b => Ok (byteZ b)
       | None => Raise IndexError
       end
  else Raise IndexError.

(** Bound of a slice: negative counts from the end, then clamp to [0, len]. *)
Definition clamp (n i : Z) : Z :=
  if i <? 0 then Z.max (i + n) 0 else Z.min i n.

(** [d[a:b]] *)
Definition slice {A : Type} (d : list A) (a b : Z) : list A :=
  let a' := clamp (len d) a in
  let b' := clamp (len d) b in
  take (Z.to_nat (b' - a')) (drop (Z.to_nat a') d).

(** [d[:b]] *)
Definition slice_to {A : Type} (d : list A) (b : Z) : list A := slice d 0 b.

(** Little-endian value of a byte string. *)
Fixpoint le_to_Z (bs : list byte) : Z :=
  match bs with
  | [] => 0
  | b :: bs' => byteZ b + 256 * le_to_Z bs'
  end.

(** The [size] bytes [struct.unpack_from] reads at [off]; struct.error when
    the buffer is too short (a negative offset counts from the end). *)
Definition unpack_bytes (size : Z) (d : list byte) (off : Z) : result (list byte) :=
  if off <? 0 then
    if (0 <? off + size) || (off + len d <? 0) then Raise StructError
    else Ok (take (Z.to_nat size) (drop (Z.to_nat (off + len d)) d))
  else
    if len d - off <? size then Raise StructError
    else Ok (take (Z.to_nat size) (drop (Z.to_nat off) d)).

(** [struct.unpack_from('<H' | '<I' | '<Q', d, off)[0]] *)
Definition unpack_H (d : list byte) (off : Z) : result Z :=
  bs ← unpack_bytes 2 d off; mret (le_to_Z bs).
Definition unpack_I (d : list byte) (off : Z) : result Z :=
  bs ← unpack_bytes 4 d off; mret (le_to_Z bs).
Definition unpack_Q (d : list byte) (off : Z) : result Z :=
  bs ← unpack_bytes 8 d off; mret (le_to_Z bs).

(** [struct.unpack_from('<i', d, off)[0]]: two's complement. *)
Definition unpack_i (d : list byte) (off : Z) : result Z :=
  bs ← unpack_bytes 4 d off;
  let u := le_to_Z bs in
  mret (if u <? 2 ^ 31 then u else u - 2 ^ 32).

(** [n] little-endian bytes of [v]. *)
Fixpoint le_bytes (n : nat) (v : Z) : list byte :=
  match n with
  | O => []
  | S n' => byte_of_Z v :: le_bytes n' (v / 256)
  end.

(** [struct.pack('<Q', v)]: struct.error outside [0, 2^64). *)
Definition pack_Q (v : Z) : result (list byte) :=
  if (0 <=? v) && (v <? 2 ^ 64) then Ok (le_bytes 8 v) else Raise StructError.

Definition bytes_eqb (a b : list byte) : bool :=
  bool_decide (a = b).

(** [d.find(sub, start, stop)] for a non-empty [sub]: the lowest index
    [p] with [d[p:p+len(sub)] == sub] inside [d[start:stop]], or -1. *)
Fixpoint find_in (d sub : list byte) (cands : list Z) : Z :=
  match cands with
  | [] => -1
  | p :: cands' =>
      if bytes_eqb (take (length sub) (drop (Z.to_nat p) d)) sub
      then p else find_in d sub cands'
  end.

Definition find (d sub : list byte) (start stop : Z) : Z :=
  let a := clamp (len d) start in
  let b := clamp (len d) stop in
  find_in d sub (map (fun k => a + Z.of_nat k)
                     (seq 0 (Z.to_nat (b - len sub - a + 1)))).

(** [bs.rstrip(b'\x00')] *)
Fixpoint lstrip_nul (bs : list byte) : list byte :=
  match bs with
  | x00 :: bs' => lstrip_nul bs'
  | _ => bs
  end.

Definition rstrip_nul (bs : list byte) : list byte :=
  rev (lstrip_nul (rev bs)).

(** [bs.decode('ascii', errors='ignore')]: bytes above 0x7F are dropped. *)
Definition decode_ascii_ignore (bs : list byte) : string :=
  String.string_of_list_byte (filter (fun b => byteZ b < 128) bs).

(** [b in (x, y, ...)] *)
Definition is_in (b : Z) (xs : list Z) : bool := existsb (Z.eqb b) xs.

End Py.
Import Py.

(** ** The image object *)

(** One entry of [self.sections] (a dict with these five keys). *)
Record section : Type := mk_section {
  name : string;
  vsize : Z;
  rva : Z;
  raw_size : Z;
  raw_offset : Z;
}.

Record PEParser : Type := mk_PEParser {
  data : list byte;
  base : Z;
  sections : list section;
  text_start : Z;
  text_size : Z;
  text_rva : Z;
  rdata_start : Z;
  rdata_size : Z;
  rdata_rva : Z;
  data_start : Z;
  data_size : Z;
  data_rva : Z;
}.

(** The object as [__init__] leaves it before calling [_parse_pe]. *)
Definition init (d : list byte) : PEParser :=
  mk_PEParser d 0x140000000 [] 0 0 0 0 0 0 0 0 0.

Definition set_base (pe : PEParser) (b : Z) : PEParser :=
  mk_PEParser (data pe) b (sections pe)
    (text_start pe) (text_size pe) (text_rva pe)
    (rdata_start pe) (rdata_size pe) (rdata_rva pe)
    (data_start pe) (data_size pe) (data_rva pe).

Definition append_section (pe : PEParser) (s : section) : PEParser :=
  mk_PEParser (data pe) (base pe) (sections pe ++ [s])
    (text_start pe) (text_size pe) (text_rva pe)
    (rdata_start pe) (rdata_size pe) (rdata_rva pe)
    (data_start pe) (data_size pe) (data_rva pe).

Definition set_text (pe : PEParser) (start size r : Z) : PEParser :=
  mk_PEParser (data pe) (base pe) (sections pe)
    start size r
    (rdata_start pe) (rdata_size pe) (rdata_rva pe)
    (data_start pe) (data_size pe) (data_rva pe).

Definition set_rdata (pe : PEParser) (start size r : Z) : PEParser :=
  mk_PEParser (data pe) (base pe) (sections pe)
    (text_start pe) (text_size pe) (text_rva pe)
    start size r
    (data_start pe) (data_size pe) (data_rva pe).

Definition set_data (pe : PEParser) (start size r : Z) : PEParser :=
  mk_PEParser (data pe) (base pe) (sections pe)
    (text_start pe) (text_size pe) (text_rva pe)
    (rdata_start pe) (rdata_size pe) (rdata_rva pe)
    start size r.

(** ** Container parsing *)

Definition MZ : list byte := [x4d; x5a].
Definition PE00 : list byte := [x50; x45; x00; x00].

(** Body of the section loop of [_parse_pe] for index [i]. *)
Definition parse_section (section_offset : Z) (pe : PEParser) (i : Z) : result PEParser :=
  let d := data pe in
  let off := section_offset + i * 40 in
  let nm := decode_ascii_ignore (rstrip_nul (slice d off (off + 8))) in
  vsz ← unpack_I d (off + 8);
  r ← unpack_I d (off + 12);
  rsz ← unpack_I d (off + 16);
  roff ← unpack_I d (off + 20);
  let pe := append_section pe (mk_section nm vsz r rsz roff) in
  mret (if String.eqb nm ".text" then set_text pe roff rsz r
        else if String.eqb nm ".rdata" then set_rdata pe roff rsz r
        else if String.eqb nm ".data" then set_data pe roff rsz r
        else pe).

Definition _parse_pe (pe : PEParser) : result PEParser :=
  let d := data pe in
  if negb (bytes_eqb (slice_to d 2) MZ) then Raise (ValueError "Not a valid PE file") else
  e_lfanew ← unpack_I d 0x3C;
  if negb (bytes_eqb (slice d e_lfanew (e_lfanew + 4)) PE00)
  then Raise (ValueError "Invalid PE signature") else
  let coff_offset := e_lfanew + 4 in
  num_sections ← unpack_H d (coff_offset + 2);
  optional_header_size ← unpack_H d (coff_offset + 16);
  let opt_offset := coff_offset + 20 in
  magic ← unpack_H d opt_offset;
  pe ← (if magic =? 0x20b
        then b ← unpack_Q d (opt_offset + 24); mret (set_base pe b)
        else mret pe);
  let section_offset := opt_offset + optional_header_size in
  for_each (parse_section section_offset) (range num_sections) pe.

(** [PEParser(filepath)] on a file whose content is [d]. *)
Definition parse (d : list byte) : result PEParser := _parse_pe (init d).

(** ** Address translation *)

Fixpoint rva_to_offset_in (ss : list section) (r : Z) : option Z :=
  match ss with
  | [] => None
  | s :: ss' =>
      if (rva s <=? r) && (r <? rva s + raw_size s)
      then Some (r - rva s + raw_offset s)
      else rva_to_offset_in ss' r
  end.

Definition rva_to_offset (pe : PEParser) (r : Z) : option Z :=
  rva_to_offset_in (sections pe) r.

Fixpoint offset_to_rva_in (ss : list section) (offset : Z) : option Z :=
  match ss with
  | [] => None
  | s :: ss' =>
      if (raw_offset s <=? offset) && (offset <? raw_offset s + raw_size s)
      then Some (offset - raw_offset s + rva s)
      else offset_to_rva_in ss' offset
  end.

Definition offset_to_rva (pe : PEParser) (offset : Z) : option Z :=
  offset_to_rva_in (sections pe) offset.

(** ** Reference scanning *)

(** The test the five blocks of [find_string_xrefs] share: the ModRM byte
    has mod = 0 and rm = 5 and the target computed from the displacement read
    at [disp_at] is [string_va]; then [xrefs.append(self.text_start + i)]. *)
Definition rip_block (pe : PEParser) (text_data : list byte) (string_va i : Z)
    (modrm disp_at ilen : Z) (xrefs : list Z) : result (list Z) :=
  let md := Z.land (Z.shiftr modrm 6) 3 in
  let rm := Z.land modrm 7 in
  if (md =? 0) && (rm =? 5) then
    disp32 ← unpack_i text_data disp_at;
    let target_va := (base pe + text_rva pe + i) + ilen + disp32 in
    if target_va =? string_va then mret (xrefs ++ [text_start pe + i]) else mret xrefs
  else mret xrefs.

(** Body of the scan loop for position [i]. *)
Definition xref_body (pe : PEParser) (text_data : list byte) (text_end string_va : Z)
    (xrefs : list Z) (i : Z) : result (list Z) :=
  b0 ← getitem text_data i;
  b1 ← (if i + 1 <? text_end then getitem text_data (i + 1) else mret 0);
  (* REX.W / REX.WR LEA: 48|4C 8D xx disp32 (7 bytes) *)
  xrefs ← (if is_in b0 [0x48; 0x4C] && (b1 =? 0x8D) && (i + 6 <? text_end)
           then modrm ← getitem text_data (i + 2);
                rip_block pe text_data string_va i modrm (i + 3) 7 xrefs
           else mret xrefs);
  (* Non-REX LEA: 8D xx disp32 (6 bytes) *)
  xrefs ← (if (b0 =? 0x8D) && (i + 5 <? text_end)
           then rip_block pe text_data string_va i b1 (i + 2) 6 xrefs
           else mret xrefs);
  (* MOV reg, [RIP+disp32]: 48|4C 8B xx (7 bytes) *)
  xrefs ← (if is_in b0 [0x48; 0x4C] && (b1 =? 0x8B) && (i + 6 <? text_end)
           then modrm ← getitem text_data (i + 2);
                rip_block pe text_data string_va i modrm (i + 3) 7 xrefs
           else mret xrefs);
  (* MOV [RIP+disp32], reg: 48|4C 89 xx (7 bytes) *)
  xrefs ← (if is_in b0 [0x48; 0x4C] && (b1 =? 0x89) && (i + 6 <? text_end)
           then modrm ← getitem text_data (i + 2);
                rip_block pe text_data string_va i modrm (i + 3) 7 xrefs
           else mret xrefs);
  (* CMP [RIP+disp32]: 48 39|3B xx (7 bytes) *)
  (if (b0 =? 0x48) && is_in b1 [0x39; 0x3B] && (i + 6 <? text_end)
   then modrm ← getitem text_data (i + 2);
        rip_block pe text_data string_va i modrm (i + 3) 7 xrefs
   else mret xrefs).

Definition find_string_xrefs (pe : PEParser) (string_offset : Z) : result (list Z) :=
  match offset_to_rva pe string_offset with
  | None => mret []
  | Some string_rva =>
      let string_va := base pe + string_rva in
      let text_data := slice (data pe) (text_start pe) (text_start pe + text_size pe) in
      let text_end := len text_data - 7 in
      for_each (xref_body pe text_data text_end string_va) (range text_end) []
  end.

(** ** Function boundary recovery *)

Definition _is_prologue (pe : PEParser) (offset : Z) : result bool :=
  let d := data pe in
  if len d <? offset + 5 then mret false else
  d0 ← getitem d offset;
  d1 ← getitem d (offset + 1);
  d2 ← getitem d (offset + 2);
  d3 ← getitem d (offset + 3);
  mret (
    (* mov [rsp+xx], rbx / rsi / rcx / rdx / rbp *)
    (d0 =? 0x48) && (d1 =? 0x89) && (d2 =? 0x5C) && (d3 =? 0x24)
    || (d0 =? 0x48) && (d1 =? 0x89) && (d2 =? 0x74) && (d3 =? 0x24)
    || (d0 =? 0x48) && (d1 =? 0x89) && (d2 =? 0x4C) && (d3 =? 0x24)
    || (d0 =? 0x48) && (d1 =? 0x89) && (d2 =? 0x54) && (d3 =? 0x24)
    || (d0 =? 0x48) && (d1 =? 0x89) && (d2 =? 0x6C) && (d3 =? 0x24)
    (* mov [rsp+xx], r8 / r9 *)
    || (d0 =? 0x4C) && (d1 =? 0x89) && (d2 =? 0x44) && (d3 =? 0x24)
    || (d0 =? 0x4C) && (d1 =? 0x89) && (d2 =? 0x4C) && (d3 =? 0x24)
    (* REX push rbx / rbp / rsi / rdi *)
    || (d0 =? 0x40) && (d1 =? 0x53)
    || (d0 =? 0x40) && (d1 =? 0x55)
    || (d0 =? 0x40) && (d1 =? 0x56)
    || (d0 =? 0x40) && (d1 =? 0x57)
    (* sub rsp, imm8 / sub rsp, imm32 / mov rbp, rsp *)
    || (d0 =? 0x48) && (d1 =? 0x83) && (d2 =? 0xEC)
    || (d0 =? 0x48) && (d1 =? 0x81) && (d2 =? 0xEC)
    || (d0 =? 0x48) && (d1 =? 0x8B) && (d2 =? 0xEC)
    (* push rbp / rbx / rsi / rdi followed by a REX byte *)
    || (d0 =? 0x55) && is_in d1 [0x48; 0x8B]
    || (d0 =? 0x53) && (d1 =? 0x48)
    || (d0 =? 0x56) && (d1 =? 0x48)
    || (d0 =? 0x57) && (d1 =? 0x48)
    (* push r12 / r13 / r14 / r15 *)
    || (d0 =? 0x41) && is_in d1 [0x54; 0x55; 0x56; 0x57]).

(** A [for] loop whose body may [return]: the first position at which the
    body returns decides; [None] when the loop runs to its end. *)
Fixpoint first_return (body : Z -> result (option Z)) (xs : list Z)
  : result (option Z) :=
  match xs with
  | [] => mret None
  | i :: xs' =>
      r ← body i;
      match r with
      | Some v => Ok (Some v)
      | None => first_return body xs'
      end
  end.

(** [while candidate < offset and d[candidate] == 0xCC: candidate += 1],
    by recursion on [n = offset - candidate]. *)
Fixpoint skip_trap (d : list byte) (n : nat) (candidate : Z) : result Z :=
  match n with
  | O => mret candidate
  | S n' =>
      b ← getitem d candidate;
      if b =? 0xCC then skip_trap d n' (candidate + 1) else mret candidate
  end.

(** Strategy 1: find CC/C3 padding, then the next prologue. *)
Definition strategy1_body (pe : PEParser) (offset i : Z) : result (option Z) :=
  let d := data pe in
  b ← getitem d i;
  if is_in b [0xCC; 0xC3] then
    candidate ← skip_trap d (Z.to_nat (offset - (i + 1))) (i + 1);
    if candidate <? offset then
      p ← _is_prologue pe candidate;
      mret (if p : bool then Some candidate else None)
    else mret None
  else mret None.

(** Strategy 2: prologue with alignment verification. *)
Definition strategy2_body (pe : PEParser) (offset i : Z) : result (option Z) :=
  let d := data pe in
  p ← _is_prologue pe i;
  if (p : bool) && (offset - i <? 512) then
    if 0 <? i then
      b ← getitem d (i - 1);
      mret (if is_in b [0xCC; 0xC3; 0xCB] then Some i else None)
    else mret None
  else mret None.

(** Strategy 3: nearest prologue. *)
Definition strategy3_body (pe : PEParser) (offset i : Z) : result (option Z) :=
  p ← _is_prologue pe i;
  mret (if (p : bool) && (offset - i <? 256) then Some i else None).

Definition strategy (body : PEParser -> Z -> Z -> result (option Z))
    (pe : PEParser) (offset max_search : Z) : result (option Z) :=
  let search_start := Z.max (text_start pe) (offset - max_search) in
  first_return (body pe offset) (range_down (offset - 1) search_start).

Definition find_function_start_max (pe : PEParser) (offset max_search : Z)
  : result (option Z) :=
  r1 ← strategy strategy1_body pe offset max_search;
  match r1 with
  | Some c => Ok (Some c)
  | None =>
      r2 ← strategy strategy2_body pe offset max_search;
      match r2 with
      | Some c => Ok (Some c)
      | None => strategy strategy3_body pe offset max_search
      end
  end.

(** [find_function_start(offset)] with the default [max_search=2048]. *)
Definition find_function_start (pe : PEParser) (offset : Z) : result (option Z) :=
  find_function_start_max pe offset 2048.

(** ** Text formatting *)

(** The digits Python prints for [X]: 0-9 and uppercase A-F. *)
Definition digit_alphabet : string := "0123456789ABCDEF".

Definition digit_char (n : Z) : ascii :=
  match String.get (Z.to_nat n) digit_alphabet with
  | Some c => c
  | None => "?"%char
  end.

(** Digits of a positive [n] in [radix], most significant first. *)
Fixpoint digits_go (fuel : nat) (radix n : Z) (acc : string) : string :=
  match fuel with
  | O => acc
  | S fuel' =>
      if n <=? 0 then acc
      else digits_go fuel' radix (n / radix) (String (digit_char (n mod radix)) acc)
  end.

Definition format_radix (radix n : Z) : string :=
  if n =? 0 then "0"
  else if n <? 0 then String "-" (digits_go (Z.to_nat (- n)) radix (- n) "")
  else digits_go (Z.to_nat n) radix n "".

(** [f'{n}'], [f'{n:X}'] and [f'{n:02X}'] *)
Definition format_d (n : Z) : string := format_radix 10 n.
Definition format_X (n : Z) : string := format_radix 16 n.
Definition format_02X (n : Z) : string :=
  let s := format_X n in
  if (String.length s <? 2)%nat then String "0" s else s.

(** [' '.join(parts)] *)
Fixpoint join_space (parts : list string) : string :=
  match parts with
  | [] => ""
  | [p] => p
  | p :: ps => p +:+ " " +:+ join_space ps
  end.

(** ** Signature generation *)

(** [c and k]: [k] is evaluated only when [c] holds. *)
Definition and_then (c : bool) (k : result bool) : result bool :=
  if c then k else Ok false.

(** [mod == 0 and rm == 5] of a ModRM byte. *)
Definition rip_relative (modrm : Z) : bool :=
  (Z.land (Z.shiftr modrm 6) 3 =? 0) && (Z.land modrm 7 =? 5).

(** The blocks of the loop body of [make_smart_pattern] at index [i], in
    source order. The first three only add wildcards. *)

(** [mov [rsp+disp8], reg]: wildcard the disp8. *)
Definition mark_spill (data : list byte) (i : Z) (wildcards : gset Z)
  : result (gset Z) :=
  b0 ← getitem data i;
  c ← and_then ((i + 4 <? len data) && is_in b0 [0x48; 0x4C])
         (b1 ← getitem data (i + 1); mret (b1 =? 0x89));
  if c : bool then
    modrm ← getitem data (i + 2);
    let md := Z.land (Z.shiftr modrm 6) 3 in
    let rm := Z.land modrm 7 in
    mret (if md =? 1
          then if rm =? 4 then {[i + 4]} ∪ wildcards else {[i + 3]} ∪ wildcards
          else wildcards)
  else mret wildcards.

(** [sub rsp, imm8] *)
Definition mark_sub_imm8 (data : list byte) (i : Z) (wildcards : gset Z)
  : result (gset Z) :=
  b0 ← getitem data i;
  c ← and_then ((i + 3 <? len data) && (b0 =? 0x48))
         (b1 ← getitem data (i + 1);
          and_then (b1 =? 0x83) (b2 ← getitem data (i + 2); mret (b2 =? 0xEC)));
  mret (if c : bool then {[i + 3]} ∪ wildcards else wildcards).

(** [sub rsp, imm32] *)
Definition mark_sub_imm32 (data : list byte) (i : Z) (wildcards : gset Z)
  : result (gset Z) :=
  b0 ← getitem data i;
  c ← and_then ((i + 6 <? len data) && (b0 =? 0x48))
         (b1 ← getitem data (i + 1);
          and_then (b1 =? 0x81) (b2 ← getitem data (i + 2); mret (b2 =? 0xEC)));
  mret (if c : bool then {[i + 3; i + 4; i + 5; i + 6]} ∪ wildcards else wildcards).

(** CALL rel32 ([opcode] 0xE8) and JMP rel32 (0xE9): wildcard the operand
    and [continue] after the instruction; [None] when the block falls
    through. *)
Definition skip_rel32 (opcode : Z) (data : list byte) (i : Z) (wildcards : gset Z)
  : result (option (Z * gset Z)) :=
  b0 ← getitem data i;
  mret (if (b0 =? opcode) && (i + 4 <? len data)
        then Some (i + 5, {[i + 1; i + 2; i + 3; i + 4]} ∪ wildcards)
        else None).

(** LEA ([opcodes] 0x8D) and MOV (0x8B, 0x89) with RIP-relative operand. *)
Definition skip_rip (opcodes : list Z) (data : list byte) (i : Z) (wildcards : gset Z)
  : result (option (Z * gset Z)) :=
  b0 ← getitem data i;
  c ← and_then ((i + 6 <? len data) && is_in b0 [0x48; 0x4C])
         (b1 ← getitem data (i + 1);
          and_then (is_in b1 opcodes)
                   (modrm ← getitem data (i + 2); mret (rip_relative modrm)));
  mret (if c : bool then Some (i + 7, {[i + 3; i + 4; i + 5; i + 6]} ∪ wildcards)
        else None).

(** One iteration of the [while] loop: the next index and the enlarged
    wildcard set. *)
Definition pattern_step (data : list byte) (i : Z) (wildcards : gset Z)
  : result (Z * gset Z) :=
  wildcards ← mark_spill data i wildcards;
  wildcards ← mark_sub_imm8 data i wildcards;
  wildcards ← mark_sub_imm32 data i wildcards;
  r ← skip_rel32 0xE8 data i wildcards;
  match r with Some st => mret st | None =>
  r ← skip_rel32 0xE9 data i wildcards;
  match r with Some st => mret st | None =>
  r ← skip_rip [0x8D] data i wildcards;
  match r with Some st => mret st | None =>
  r ← skip_rip [0x8B; 0x89] data i wildcards;
  match r with Some st => mret st | None =>
  mret (i + 1, wildcards) end end end end.

(** [while i < len(data): ...]; [None] when [fuel] iterations do not reach
    the end of the window. *)
Fixpoint pattern_loop (fuel : nat) (data : list byte) (i : Z) (wildcards : gset Z)
  : result (option (gset Z)) :=
  if len data <=? i then mret (Some wildcards) else
  match fuel with
  | O => mret None
  | S fuel' =>
      st ← pattern_step data i wildcards;
      pattern_loop fuel' data st.1 st.2
  end.

(** The token list [parts]. *)
Definition pattern_parts (data : list byte) (wildcards : gset Z) : list string :=
  imap (fun j b => if bool_decide (Z.of_nat j ∈ wildcards) then "?"
                   else format_02X (byteZ b)) data.

(** The window [data] that [make_smart_pattern] scans. *)
Definition pattern_window (pe : PEParser) (func_offset length : Z) : list byte :=
  let length := if len (data pe) <? func_offset + length
                then len (data pe) - func_offset else length in
  slice (data pe) func_offset (func_offset + length).

Definition make_smart_pattern_len (pe : PEParser) (func_offset length : Z)
  : result (option string) :=
  let data := pattern_window pe func_offset length in
  w ← pattern_loop (List.length data) data 0 ∅;
  mret (parts ← w; Some (join_space (pattern_parts data parts))).

(** [make_smart_pattern(func_offset)] with the default [length=32]. *)
Definition make_smart_pattern (pe : PEParser) (func_offset : Z) : result (option string) :=
  make_smart_pattern_len pe func_offset 32.

(** ** Global pointer discovery *)

(** [while idx < end: pos = self.data.find(target_bytes, idx, end); ...];
    [None] when [fuel] iterations do not finish the loop. *)
Fixpoint global_pointer_loop (fuel : nat) (d target_bytes : list byte)
    (idx stop : Z) (results : list Z) : option (list Z) :=
  if stop <=? idx then Some results else
  match fuel with
  | O => None
  | S fuel' =>
      let pos := find d target_bytes idx stop in
      if pos =? -1 then Some results
      else global_pointer_loop fuel' d target_bytes (pos + 8) stop (results ++ [pos])
  end.

Definition find_global_pointer_to_rva (pe : PEParser) (target_rva : Z)
  : result (option (list Z)) :=
  let target_va := base pe + target_rva in
  target_bytes ← pack_Q target_va;
  let idx := data_start pe in
  let stop := data_start pe + data_size pe in
  mret (global_pointer_loop (Z.to_nat (stop - idx)) (data pe) target_bytes idx stop []).

(** ** Structure offset discovery *)

(** Which displacement form recorded a key (not part of the returned dict). *)
Inductive disp_form : Type := Disp32 | Disp8.

(** One assignment [offsets_found[disp] = tag]. *)
Record write : Type := mk_write {
  w_disp : Z;
  w_form : disp_form;
  w_tag : string;
}.

(** What one iteration of the scan loop does: [break], or continue at
    [i'] after at most one assignment. *)
Inductive outcome : Type :=
| Break
| Next (i' : Z) (w : option write).

(** [{0x8B: 'MOV', 0x89: 'MOV_STORE', 0x8D: 'LEA'}[b]] *)
Definition opname (b : Z) : result string :=
  if b =? 0x8B then Ok "MOV"
  else if b =? 0x89 then Ok "MOV_STORE"
  else if b =? 0x8D then Ok "LEA"
  else Raise KeyError.

Definition mov_tag (op : string) (reg rm disp : Z) : string :=
  op +:+ " r" +:+ format_d reg +:+ ", [r" +:+ format_d rm +:+ "+0x"
     +:+ format_X disp +:+ "]".
Definition movss_tag (rm disp : Z) : string :=
  "MOVSS xmm, [r" +:+ format_d rm +:+ "+0x" +:+ format_X disp +:+ "]".
Definition movss_store_tag (rm disp : Z) : string :=
  "MOVSS_STORE [r" +:+ format_d rm +:+ "+0x" +:+ format_X disp +:+ "], xmm".

(** The three instruction blocks of the loop body, in source order; each
    yields [None] when it falls through to the next one. *)

(** MOV / MOV_STORE / LEA: 48|4C 8B|89|8D modrm *)
Definition mov_block (d : list byte) (stop i : Z) : result (option outcome) :=
  b0 ← getitem d i;
  c ← and_then ((i + 6 <? stop) && is_in b0 [0x48; 0x4C])
         (b1 ← getitem d (i + 1); mret (is_in b1 [0x8B; 0x89; 0x8D]));
  if c : bool then
    modrm ← getitem d (i + 2);
    let md := Z.land (Z.shiftr modrm 6) 3 in
    let rm := Z.land modrm 7 in
    let reg := Z.land (Z.shiftr modrm 3) 7 in
    if (md =? 2) && negb (rm =? 4) then
      disp ← unpack_i d (i + 3);
      if (0 <? disp) && (disp <? 0x1000) then
        b1 ← getitem d (i + 1);
        op ← opname b1;
        mret (Some (Next (i + 7) (Some (mk_write disp Disp32 (mov_tag op reg rm disp)))))
      else mret (Some (Next (i + 7) None))
    else if (md =? 1) && negb (rm =? 4) then
      disp ← getitem d (i + 3);
      if (0 <? disp) && (disp <? 0xFF) then
        b1 ← getitem d (i + 1);
        op ← opname b1;
        mret (Some (Next (i + 4) (Some (mk_write disp Disp8 (mov_tag op reg rm disp)))))
      else mret (Some (Next (i + 4) None))
    else mret None
  else mret None.

(** MOVSS xmm, [reg+disp]: F3 0F 10 modrm *)
Definition movss_block (d : list byte) (stop i : Z) : result (option outcome) :=
  b0 ← getitem d i;
  c ← and_then ((i + 7 <? stop) && (b0 =? 0xF3))
         (b1 ← getitem d (i + 1);
          and_then (b1 =? 0x0F) (b2 ← getitem d (i + 2); mret (b2 =? 0x10)));
  if c : bool then
    modrm ← getitem d (i + 3);
    let md := Z.land (Z.shiftr modrm 6) 3 in
    let rm := Z.land modrm 7 in
    if (md =? 2) && negb (rm =? 4) then
      disp ← unpack_i d (i + 4);
      mret (Some (Next (i + 8)
              (if (0 <? disp) && (disp <? 0x1000)
               then Some (mk_write disp Disp32 (movss_tag rm disp)) else None)))
    else if (md =? 1) && negb (rm =? 4) then
      disp ← getitem d (i + 4);
      mret (Some (Next (i + 5)
              (if (0 <? disp) && (disp <? 0xFF)
               then Some (mk_write disp Disp8 (movss_tag rm disp)) else None)))
    else mret None
  else mret None.

(** MOVSS [reg+disp32], xmm: F3 0F 11 modrm *)
Definition movss_store_block (d : list byte) (stop i : Z) : result (option outcome) :=
  b0 ← getitem d i;
  c ← and_then ((i + 7 <? stop) && (b0 =? 0xF3))
         (b1 ← getitem d (i + 1);
          and_then (b1 =? 0x0F) (b2 ← getitem d (i + 2); mret (b2 =? 0x11)));
  if c : bool then
    modrm ← getitem d (i + 3);
    let md := Z.land (Z.shiftr modrm 6) 3 in
    let rm := Z.land modrm 7 in
    if (md =? 2) && negb (rm =? 4) then
      disp ← unpack_i d (i + 4);
      mret (Some (Next (i + 8)
              (if (0 <? disp) && (disp <? 0x1000)
               then Some (mk_write disp Disp32 (movss_store_tag rm disp)) else None)))
    else mret None
  else mret None.

(** Body of the scan loop at index [i]. *)
Definition offsets_step (d : list byte) (stop i : Z) : result outcome :=
  b0 ← getitem d i;
  (* Stop at RET *)
  if (b0 =? 0xC3) || (b0 =? 0xCB) then mret Break else
  r ← mov_block d stop i;
  match r with Some o => mret o | None =>
  r ← movss_block d stop i;
  match r with Some o => mret o | None =>
  r ← movss_store_block d stop i;
  match r with Some o => mret o | None =>
  mret (Next (i + 1) None) end end end.

(** [offsets_found[disp] = tag] *)
Definition record_write (offsets_found : gmap Z string) (w : option write)
  : gmap Z string :=
  match w with
  | Some w => <[w_disp w := w_tag w]> offsets_found
  | None => offsets_found
  end.

(** [while i < end: ...]; [None] when [fuel] iterations do not finish. *)
Fixpoint offsets_loop (fuel : nat) (d : list byte) (stop i : Z)
    (offsets_found : gmap Z string) : result (option (gmap Z string)) :=
  if stop <=? i then mret (Some offsets_found) else
  match fuel with
  | O => mret None
  | S fuel' =>
      o ← offsets_step d stop i;
      match o with
      | Break => mret (Some offsets_found)
      | Next i' w => offsets_loop fuel' d stop i' (record_write offsets_found w)
      end
  end.

Definition extract_struct_offsets_from_function_max (pe : PEParser)
    (func_offset max_scan : Z) : result (option (gmap Z string)) :=
  let stop := Z.min (func_offset + max_scan) (len (data pe) - 8) in
  offsets_loop (Z.to_nat (stop - func_offset)) (data pe) stop func_offset ∅.

(** [extract_struct_offsets_from_function(func_offset)], [max_scan=512]. *)
Definition extract_struct_offsets_from_function (pe : PEParser) (func_offset : Z)
  : result (option (gmap Z string)) :=
  extract_struct_offsets_from_function_max pe func_offset 512.



(** ** Vtable scanning *)

(** One entry of the list [scan_vtable_in_rdata] returns. *)
Record vtable_match : Type := mk_vtable_match {
  vtable_rva : Z;
  vtable_offset : Z;
  matched_at_index : Z;
  matched_rva : Z;
}.

(** [while i >= 8: ...] of [_find_vtable_start], by recursion on [i // 8]. *)
Fixpoint vtable_start_loop (pe : PEParser) (rdata : list byte) (n : nat) (i : Z)
  : result Z :=
  match n with
  | O => mret i
  | S n' =>
      val ← unpack_Q rdata (i - 8);
      let r := if base pe <? val then val - base pe else 0 in
      if (text_rva pe <=? r) && (r <? text_rva pe + text_size pe)
      then vtable_start_loop pe rdata n' (i - 8)
      else mret i
  end.

Definition _find_vtable_start (pe : PEParser) (rdata : list byte) (ptr_offset : Z)
  : result Z :=
  vtable_start_loop pe rdata (Z.to_nat (ptr_offset / 8)) ptr_offset.

Definition vtable_body (pe : PEParser) (rdata : list byte) (target_vas : gset Z)
    (results : list vtable_match) (i : Z) : result (list vtable_match) :=
  val ← unpack_Q rdata i;
  if bool_decide (val ∈ target_vas) then
    vtable_start ← _find_vtable_start pe rdata i;
    mret (results ++ [mk_vtable_match (rdata_rva pe + vtable_start)
                        (rdata_start pe + vtable_start)
                        ((i - vtable_start) / 8)
                        (val - base pe)])
  else mret results.

Definition scan_vtable_in_rdata (pe : PEParser) (known_func_rvas : list Z)
  : result (list vtable_match) :=
  match known_func_rvas with
  | [] => mret []
  | _ =>
      let rdata := slice (data pe) (rdata_start pe) (rdata_start pe + rdata_size pe) in
      let target_vas : gset Z := list_to_set (map (fun r => base pe + r) known_func_rvas) in
      for_each (vtable_body pe rdata target_vas) (range_step 0 (len rdata - 8) 8) []
  end.

(** ** String search *)

(** [d.find(sub, start)]: a negative [start] counts from the end; nothing is
    found when fewer than [len(sub)] bytes remain, so also when [start] lies
    past the end; otherwise the lowest index at which [sub] occurs. *)
Definition find_from (d sub : list byte) (start : Z) : Z :=
  let n := len d in
  let start := if start <? 0 then Z.max (start + n) 0 else start in
  if n - start <? len sub then -1
  else find_in d sub (map (fun k => start + Z.of_nat k)
                          (seq 0 (Z.to_nat (n - len sub - start + 1)))).

(** [while True: idx = d.find(target, start); if idx == -1: break;
    results.append(idx); start = idx + 1]; [None] when [fuel] iterations do
    not reach the [break]. *)
Fixpoint find_all_loop (fuel : nat) (d target : list byte) (start : Z)
    (results : list Z) : option (list Z) :=
  match fuel with
  | O => None
  | S fuel' =>
      let idx := find_from d target start in
      if idx =? -1 then Some results
      else find_all_loop fuel' d target (idx + 1) (results ++ [idx])
  end.

(** [find_string(target)] for a bytes [target]. *)
Definition find_string (pe : PEParser) (target : list byte) : option (list Z) :=
  find_all_loop (List.length (data pe) + 2) (data pe) target 0 [].

(** [b"".join(struct.pack('<Q', self.base + rva) for rva in rva_list)], built
    by the loop of [scan_for_vtable_pattern]. *)
Fixpoint pack_rvas (pe : PEParser) (rva_list : list Z) (target : list byte)
  : result (list byte) :=
  match rva_list with
  | [] => mret target
  | r :: rest => bs ← pack_Q (base pe + r); pack_rvas pe rest (target ++ bs)
  end.

Definition scan_for_vtable_pattern (pe : PEParser) (rva_list : list Z)
  : result (option (list Z)) :=
  if (len rva_list <? 2) then mret (Some []) else
  target ← pack_rvas pe rva_list [];
  mret (find_all_loop (List.length (data pe) + 2) (data pe) target 0 []).

(** ** Bounds-checked reads *)

Definition read_pointer (pe : PEParser) (offset : Z) : result (option Z) :=
  if offset + 8 <=? len (data pe)
  then v ← unpack_Q (data pe) offset; mret (Some v)
  else mret None.

Definition read_u32 (pe : PEParser) (offset : Z) : result (option Z) :=
  if offset + 4 <=? len (data pe)
  then v ← unpack_I (data pe) offset; mret (Some v)
  else mret None.

Definition read_i32 (pe : PEParser) (offset : Z) : result (option Z) :=
  if offset + 4 <=? len (data pe)
  then v ← unpack_i (data pe) offset; mret (Some v)
  else mret None.

(** ** Data globals near a code reference *)

(** One entry of the list [find_data_globals_near_xref] returns. *)
Record global_ref : Type := mk_global_ref {
  instr_offset : Z;
  instr_rva : Z;
  target_rva : Z;
  instr_type : string;
}.

(** [range(start, stop)] *)
Definition range_from (start stop : Z) : list Z :=
  map (fun k => start + Z.of_nat k) (seq 0 (Z.to_nat (stop - start))).

(** Body of the scan loop for file offset [i]. *)
Definition globals_body (pe : PEParser) (globals_found : list global_ref) (i : Z)
  : result (list global_ref) :=
  let d := data pe in
  b0 ← getitem d i;
  b1 ← getitem d (i + 1);
  if is_in b0 [0x48; 0x4C] && is_in b1 [0x8B; 0x8D] then
    modrm ← getitem d (i + 2);
    let md := Z.land (Z.shiftr modrm 6) 3 in
    let rm := Z.land modrm 7 in
    if (md =? 0) && (rm =? 5) then
      disp32 ← unpack_i d (i + 3);
      match offset_to_rva pe i with
      | None => mret globals_found
      | Some irva =>
          let trva := irva + 7 + disp32 in
          if (data_rva pe <=? trva) && (trva <? data_rva pe + data_size pe) then
            let ty := if b1 =? 0x8D then "LEA" else "MOV" in
            mret (globals_found ++ [mk_global_ref i irva trva ty])
          else mret globals_found
      end
    else mret globals_found
  else mret globals_found.

Definition find_data_globals_near_xref_range (pe : PEParser)
    (xref_offset search_range : Z) : result (list global_ref) :=
  let scan_start := Z.max (text_start pe) (xref_offset - search_range) in
  let scan_end := Z.min (text_start pe + text_size pe) (xref_offset + search_range) in
  for_each (globals_body pe) (range_from scan_start (scan_end - 6)) [].

(** [find_data_globals_near_xref(xref_offset)], [search_range=128]. *)
Definition find_data_globals_near_xref (pe : PEParser) (xref_offset : Z)
  : result (list global_ref) :=
  find_data_globals_near_xref_range pe xref_offset 128.

(** ** Functions that reference a string *)

(** One entry of the list [find_all_functions_referencing_string] returns. *)
Record function_ref : Type := mk_function_ref {
  func_offset : Z;
  func_rva : option Z;
  xref_offset : Z;
  string_offset : Z;
  distance : Z;
  pattern : string;
  raw : string;
}.

(** [' '.join(f'{b:02X}' for b in raw)] *)
Definition raw_hex (bs : list byte) : string :=
  join_space (map (fun b => format_02X (byteZ b)) bs).

(** Body of the inner loop: one reference [xref] to the string at
    [str_off]; the state is [results] and the set [seen_functions]. [None]
    when the pattern scan runs out of fuel. *)
Definition function_ref_body (pe : PEParser) (str_off : Z)
    (st : option (list function_ref * gset Z)) (xref : Z)
  : result (option (list function_ref * gset Z)) :=
  match st with
  | None => mret None
  | Some (results, seen_functions) =>
      func_start ← find_function_start pe xref;
      match func_start with
      | None => mret st
      | Some f =>
          if negb (f =? 0) && negb (bool_decide (f ∈ seen_functions)) then
            let func_rva := offset_to_rva pe f in
            pat ← make_smart_pattern_len pe f 32;
            let raw := slice (data pe) f (f + 32) in
            mret (p ← pat;
                  Some (results ++ [mk_function_ref f func_rva xref str_off (xref - f)
                                      p (raw_hex raw)],
                        {[f]} ∪ seen_functions))
          else mret st
      end
  end.

(** Body of the outer loop: one occurrence [str_off] of the string. *)
Definition string_ref_body (pe : PEParser)
    (st : option (list function_ref * gset Z)) (str_off : Z)
  : result (option (list function_ref * gset Z)) :=
  xrefs ← find_string_xrefs pe str_off;
  for_each (function_ref_body pe str_off) xrefs st.

Definition find_all_functions_referencing_string (pe : PEParser)
    (string_bytes : list byte) : result (option (list function_ref)) :=
  match find_string pe string_bytes with
  | None => Ok None
  | Some [] => Ok (Some [])
  | Some offsets =>
      st ← for_each (string_ref_body pe) offsets (Some ([], ∅));
      Ok (fst <$> (st : option (list function_ref * gset Z)))
  end.

(** ** Sample images

    Small well-formed images used to run the scanner: a DOS stub of 64
    bytes, the PE signature, a COFF header, a 32-byte optional header and
    one 40-byte header per section; section bodies start at file offset
    [120 + 40 * number of sections]. *)

Definition zeros (n : nat) : list byte := replicate n x00.

Definition ascii_bytes (s : string) : list byte := String.list_byte_of_string s.

Definition section_header (nm : string) (vsz r rsz roff : Z) : list byte :=
  ascii_bytes nm ++ zeros (8 - String.length nm)
    ++ le_bytes 4 vsz ++ le_bytes 4 r ++ le_bytes 4 rsz ++ le_bytes 4 roff ++ zeros 16.

Definition mk_image (magic image_base : Z) (headers : list (list byte))
    (body : list byte) : list byte :=
  MZ ++ zeros 58 ++ le_bytes 4 0x40 ++ PE00
     ++ zeros 2 ++ le_bytes 2 (len headers) ++ zeros 12 ++ le_bytes 2 32 ++ zeros 2
     ++ le_bytes 2 magic ++ zeros 22 ++ le_bytes 8 image_base
     ++ concat headers ++ body.



(** A 64-bit image with the same layout. *)
Definition image_pe64 : list byte :=
  mk_image 0x20b 0x140000000 [section_header ".text" 16 0x1000 16 160] (zeros 16).


(** The object a well-formed file parses to (the bare [__init__] state
    when [_parse_pe] raises). *)
Definition parsed (d : list byte) : PEParser :=
  match parse d with
  | Ok pe => pe
  | Raise _ => init d
  end.

(** ** Section tables without overlap *)




(** ** Position-relative references, in the words of the specification *)

(** The byte at index [i] of a region, 0 outside it. *)
Definition peek (td : list byte) (i : Z) : Z :=
  match getitem td i with
  | Ok v => if 0 <=? i then v else 0
  | Raise _ => 0
  end.

(** The signed 32-bit little-endian value at index [i]. *)
Definition disp32_at (td : list byte) (i : Z) : Z :=
  let u := peek td i + 256 * peek td (i + 1) + 65536 * peek td (i + 2)
           + 16777216 * peek td (i + 3) in
  if u <? 2 ^ 31 then u else u - 2 ^ 32.

(** A recognized position-relative instruction lies in full at index [i]
    of the region: its length (7 with a width-extension prefix, 6 for the
    bare LEA) and its displacement. The forms are LEA, MOV load, MOV store
    and CMP, each with a ModRM byte of mod = 0 and rm = 5. *)
Definition recognized_reference (td : list byte) (i : Z) : option (Z * Z) :=
  let b0 := peek td i in
  let b1 := peek td (i + 1) in
  let b2 := peek td (i + 2) in
  if (0 <=? i) && (i + 7 <=? len td)
     && (is_in b0 [0x48; 0x4C] && is_in b1 [0x8D; 0x8B; 0x89]
         || (b0 =? 0x48) && is_in b1 [0x39; 0x3B])
     && rip_relative b2
  then Some (7, disp32_at td (i + 3))
  else if (0 <=? i) && (i + 6 <=? len td) && (b0 =? 0x8D) && rip_relative b1
  then Some (6, disp32_at td (i + 2))
  else None.

(** Effective target = source address + instruction length + displacement. *)
Definition reference_target (pe : PEParser) (i ilen disp : Z) : Z :=
  (base pe + text_rva pe + i) + ilen + disp.

(** The code region [find_string_xrefs] scans. *)
Definition code_region (pe : PEParser) : list byte :=
  slice (data pe) (text_start pe) (text_start pe + text_size pe).

(** What the scan reports for index [i] of the region: the instruction
    start, when a recognized reference to [va] lies at [i] and its last byte
    passes the bound test of the loop ([i + 6 < text_end], [i + 5] for the
    bare LEA, with [text_end = len(text_data) - 7]). *)
Definition reported_at (pe : PEParser) (td : list byte) (va i : Z) : list Z :=
  match recognized_reference td i with
  | Some (ilen, disp) =>
      if (i + ilen - 1 <? len td - 7) && (reference_target pe i ilen disp =? va)
      then [text_start pe + i] else []
  | None => []
  end.

(** [lea rax, [rip+0xFF9]]: from RVA 0x1000 the target is RVA 0x2000. *)
Definition lea_to_string : list byte := [x48; x8d; x05; xf9; x0f; x00; x00].

(** A code section that consists of that one instruction, and a read-only
    section holding the string it refers to at file offset 207. *)
Definition image_tail_ref : list byte :=
  mk_image 0x20b 0x140000000
    [section_header ".text" 7 0x1000 7 200; section_header ".rdata" 8 0x2000 8 207]
    (lea_to_string ++ ascii_bytes "Kenshi" ++ zeros 2).

(** The same instruction followed by 13 bytes of padding. *)
Definition image_padded_ref : list byte :=
  mk_image 0x20b 0x140000000
    [section_header ".text" 20 0x1000 20 200; section_header ".rdata" 8 0x2000 8 220]
    (lea_to_string ++ replicate 13 xcc ++ ascii_bytes "Kenshi" ++ zeros 2).

(** ** Pattern text, in the words of the specification *)

(** The tokens of a pattern: the runs of characters between single
    spaces; the empty text has no token. *)
Fixpoint tokens_go (s cur : string) : list string :=
  match s with
  | EmptyString => [cur]
  | String c s' =>
      if Ascii.eqb c " " then cur :: tokens_go s' ""
      else tokens_go s' (cur +:+ String c "")
  end.

Definition tokens (s : string) : list string :=
  match s with
  | EmptyString => []
  | _ => tokens_go s ""
  end.

(** Position of the first [c] in [s]. *)
Fixpoint index_of (c : ascii) (s : string) : option Z :=
  match s with
  | EmptyString => None
  | String c' s' => if Ascii.eqb c c' then Some 0 else Z.succ <$> index_of c s'
  end.

(** Value of an uppercase hexadecimal digit: its place among
    0 1 2 3 4 5 6 7 8 9 A B C D E F. *)
Definition hex_digit_value (c : ascii) : option Z :=
  index_of c "0123456789ABCDEF".

(** The byte a literal token denotes: exactly two uppercase hex digits. *)
Definition literal_token (tok : string) : option Z :=
  match tok with
  | String hi (String lo EmptyString) =>
      h ← hex_digit_value hi; l ← hex_digit_value lo; Some (16 * h + l)
  | _ => None
  end.

(** The wildcard marker. *)
Definition wildcard_token : string := "?".

Fixpoint no_space (s : string) : bool :=
  match s with
  | EmptyString => true
  | String c s' => negb (Ascii.eqb c " ") && no_space s'
  end.

(** A mutable-data section (file offset 160, 16 bytes) that holds the
    virtual address 0x140001000 one byte after its start. *)
Definition image_unaligned_global : list byte :=
  mk_image 0x20b 0x140000000 [section_header ".data" 16 0x3000 16 160]
    (zeros 1 ++ le_bytes 8 0x140001000 ++ zeros 7).

(** ** Predicates used in the statements *)


(** What the section loop leaves untouched. *)
Record same_header (pe pe' : PEParser) : Prop := {
  same_data : data pe' = data pe;
  same_base : base pe' = base pe;
}.

(** What every parsed image satisfies: section fields come from unsigned
    32-bit reads, the base from an unsigned 64-bit read or the default. *)
Record well_formed (pe : PEParser) : Prop := {
  wf_base : 0 <= base pe < 2 ^ 64;
  wf_text_start : 0 <= text_start pe;
  wf_text_size : 0 <= text_size pe;
  wf_text_rva : 0 <= text_rva pe;
  wf_rdata_start : 0 <= rdata_start pe;
  wf_rdata_size : 0 <= rdata_size pe;
  wf_rdata_rva : 0 <= rdata_rva pe;
  wf_data_start : 0 <= data_start pe;
  wf_data_size : 0 <= data_size pe;
  wf_data_rva : 0 <= data_rva pe;
  wf_text_named :
    text_size pe = 0 \/ exists s, s ∈ sections pe /\ name s = ".text";
}.

(** The wildcard set only grows, and only by indices after [i]. *)
Definition grows (i : Z) (w w' : gset Z) : Prop :=
  w ⊆ w' /\ forall j, j ∈ w' -> j ∈ w \/ i < j.

(** Position [p] lies in [lo, hi) with its 8 bytes and holds [target_bytes]. *)
Definition pointer_at (d : list byte) (target_bytes : list byte) (lo hi p : Z) : Prop :=
  lo <= p /\ p + 8 <= hi /\ slice d p (p + 8) = target_bytes.




(** A function body with three recognized instructions, the first and the
    last of which use displacement 0x10:
    [mov rax, [rcx+0x10]], [mov [rdx+0x120], rbx], [lea rsi, [rdi+0x10]],
    [ret], followed by padding. *)
Definition body_collision : list byte :=
  [x48; x8b; x41; x10] ++ [x48; x89; x9a; x20; x01; x00; x00]
    ++ [x48; x8d; x77; x10] ++ [xc3] ++ replicate 16 xcc.

(** Code sections (file offset 160) laid out as one filler byte, RET, two
    padding bytes, the prologue [sub rsp, 0x28], then NOPs as the interior:
    with trap (0xCC) padding, and with NOP (0x90) padding. *)
Definition image_trap_padding : list byte :=
  mk_image 0x20b 0x140000000 [section_header ".text" 32 0x1000 32 160]
    ([x90; xc3; xcc; xcc; x48; x83; xec; x28] ++ replicate 24 x90).

Definition image_nop_padding : list byte :=
  mk_image 0x20b 0x140000000 [section_header ".text" 308 0x1000 308 160]
    ([x90; xc3; x90; x90; x48; x83; xec; x28] ++ replicate 300 x90).

(** The read-only-data region [scan_vtable_in_rdata] scans. *)
Definition rdata_region (pe : PEParser) : list byte :=
  slice (data pe) (rdata_start pe) (rdata_start pe + rdata_size pe).

(** The RVA lies inside the code section. *)
Definition in_text (pe : PEParser) (r : Z) : Prop :=
  text_rva pe <= r < text_rva pe + text_size pe.

(** The RVA [_find_vtable_start] derives from a 64-bit word. *)
Definition word_rva (pe : PEParser) (val : Z) : Z :=
  if base pe <? val then val - base pe else 0.

(** A code section of 64 bytes at RVA 0x1000 and a read-only section (file
    offset 264, RVA 0x2000) that is one dispatch table: a null word, then
    the addresses of the functions at RVA 0x1000, 0x1010 and 0x1020. *)
Definition image_vtable : list byte :=
  mk_image 0x20b 0x140000000
    [section_header ".text" 64 0x1000 64 200; section_header ".rdata" 32 0x2000 32 264]
    (replicate 64 xcc ++ le_bytes 8 0 ++ le_bytes 8 0x140001000
       ++ le_bytes 8 0x140001010 ++ le_bytes 8 0x140001020).

(** A code section (file offset 200, RVA 0x1000) that holds a RET, trap
    padding, the prologue [sub rsp, 0x28] at file offset 204 and, right after
    it, [lea rax, [rip+0xFF1]], which refers to the string "Kenshi" stored in
    the read-only section at file offset 264 (RVA 0x2000). *)
Definition image_end_to_end : list byte :=
  mk_image 0x20b 0x140000000
    [section_header ".text" 64 0x1000 64 200; section_header ".rdata" 8 0x2000 8 264]
    ([xc3; xcc; xcc; xcc; x48; x83; xec; x28; x48; x8d; x05; xf1; x0f; x00; x00]
       ++ replicate 49 x90 ++ ascii_bytes "Kenshi" ++ zeros 2).

(** [sub] occurs in [d] at index [p]: [d[p:p+len(sub)] == sub], with the
    whole occurrence inside [d]. *)
Definition occurs_at (d sub : list byte) (p : Z) : Prop :=
  0 <= p /\ p + len sub <= len d /\ slice d p (p + len sub) = sub.

(** What each strategy may return from position [i]: a prologue strictly
    between the positions before [i] and the queried offset. *)
Definition boundary_ok (pe : PEParser) (offset i : Z) (r : option Z) : Prop :=
  forall f, r = Some f -> i <= f < offset /\ _is_prologue pe f = Ok true.

(** The last entry of the section table with the given name. *)
Definition last_named (nm : string) (ss : list section) : option section :=
  last (filter (fun s => name s = nm) ss).

(** The three cached fields of a named section agree with the last table
    entry of that name, and are zero when there is none. *)
Definition tracks (nm : string) (ss : list section) (start size r : Z) : Prop :=
  match last_named nm ss with
  | Some s => start = raw_offset s /\ size = raw_size s /\ r = rva s
  | None => start = 0 /\ size = 0 /\ r = 0
  end.

(** Two sections named [.text]; the second one lies at file offset 216. *)
Definition image_two_text : list byte :=
  mk_image 0x20b 0x140000000
    [section_header ".text" 16 0x1000 16 200; section_header ".text" 8 0x2000 8 216]
    (zeros 24).

(** The cached fields of the three named sections follow the table. *)
Definition cached_fields (pe : PEParser) : Prop :=
  tracks ".text" (sections pe) (text_start pe) (text_size pe) (text_rva pe)
  /\ tracks ".rdata" (sections pe) (rdata_start pe) (rdata_size pe) (rdata_rva pe)
  /\ tracks ".data" (sections pe) (data_start pe) (data_size pe) (data_rva pe).

(** Entry [k] of the table is the first one whose range, starting at
    [lo s] and [raw_size s] long, holds [x]. *)
Definition first_cover (lo : section -> Z) (ss : list section) (x : Z)
    (k : nat) (s : section) : Prop :=
  ss !! k = Some s
  /\ lo s <= x < lo s + raw_size s
  /\ forall j t, (j < k)%nat -> ss !! j = Some t -> ~ (lo t <= x < lo t + raw_size t).

(** The first bytes that open a wildcarding block of [make_smart_pattern]:
    the two width-extension prefixes, CALL rel32 and JMP rel32. *)
Definition trigger_byte (b : Z) : bool := is_in b [0x48; 0x4C; 0xE8; 0xE9].

(** New wildcards lie among the six indices after [i]. *)
Definition near (i : Z) (w w' : gset Z) : Prop :=
  forall j, j ∈ w' -> j ∈ w \/ i < j <= i + 6.

(** Index [j] of the window has a trigger byte among the six before it. *)
Definition displaced (data : list byte) (j : Z) : Prop :=
  exists i b, 0 <= i /\ i < j <= i + 6
              /\ data !! Z.to_nat i = Some b /\ trigger_byte (byteZ b) = true.

(** What [scan_vtable_in_rdata] appends for the word at index [i]. *)
Definition vtable_reported (pe : PEParser) (rdata : list byte) (target_vas : gset Z)
    (i : Z) : list vtable_match :=
  match unpack_Q rdata i, _find_vtable_start pe rdata i with
  | Ok val, Ok vtable_start =>
      if bool_decide (val ∈ target_vas)
      then [mk_vtable_match (rdata_rva pe + vtable_start) (rdata_start pe + vtable_start)
              ((i - vtable_start) / 8) (val - base pe)]
      else []
  | _, _ => []
  end.

(** What [find_data_globals_near_xref] appends for file offset [i]. *)
Definition global_reported (pe : PEParser) (i : Z) : list global_ref :=
  let d := data pe in
  if is_in (peek d i) [0x48; 0x4C] && is_in (peek d (i + 1)) [0x8B; 0x8D]
     && rip_relative (peek d (i + 2))
  then match offset_to_rva pe i with
       | Some irva =>
           let trva := irva + 7 + disp32_at d (i + 3) in
           if (data_rva pe <=? trva) && (trva <? data_rva pe + data_size pe)
           then [mk_global_ref i irva trva
                   (if peek d (i + 1) =? 0x8D then "LEA" else "MOV")]
           else []
       | None => []
       end
  else [].

(** A code section (file offset 200, RVA 0x1000) that starts with
    [mov rax, [rip+0x1FF9]], a load from the first word of the mutable-data
    section (file offset 216, RVA 0x3000). *)
Definition image_global_ref : list byte :=
  mk_image 0x20b 0x140000000
    [section_header ".text" 16 0x1000 16 200; section_header ".data" 8 0x3000 8 216]
    ([x48; x8b; x05; xf9; x1f; x00; x00] ++ replicate 9 x90 ++ zeros 8).

(** An entry of [find_all_functions_referencing_string] is what the four
    scans give for one reference to one occurrence of the string. *)
Definition function_ref_ok (pe : PEParser) (offsets : list Z) (r : function_ref) : Prop :=
  string_offset r ∈ offsets
  /\ (exists xrefs, find_string_xrefs pe (string_offset r) = Ok xrefs
                    /\ xref_offset r ∈ xrefs)
  /\ find_function_start pe (xref_offset r) = Ok (Some (func_offset r))
  /\ distance r = xref_offset r - func_offset r
  /\ 0 < distance r < 2048
  /\ func_rva r = offset_to_rva pe (func_offset r)
  /\ make_smart_pattern pe (func_offset r) = Ok (Some (pattern r))
  /\ raw r = raw_hex (slice (data pe) (func_offset r) (func_offset r + 32)).

(** The loop state of [find_all_functions_referencing_string]: the set
    [seen_functions] holds the function offsets of [results], which are
    pairwise distinct. *)
Definition refs_state_ok (pe : PEParser) (offsets : list Z)
    (results : list function_ref) (seen : gset Z) : Prop :=
  (forall f, f ∈ seen <-> f ∈ map func_offset results)
  /\ NoDup (map func_offset results)
  /\ forall r, r ∈ results -> function_ref_ok pe offsets r.

(** * Properties *)

(** ** Facts about the substrate *)

Lemma byteZ_range (b : byte) : 0 <= byteZ b < 256.
Proof.
  unfold byteZ. pose proof (Byte.to_N_bounded b). lia.
Qed.

Lemma len_nonneg {A : Type} (d : list A) : 0 <= len d.
Proof. unfold len. lia. Qed.

Lemma getitem_inv (d : list byte) (i v : Z) :
  getitem d i = Ok v -> 0 <= v < 256.
Proof.
  unfold getitem. intros H.
  repeat case_match; try discriminate; injection H as <-; apply byteZ_range.
Qed.

Lemma getitem_Some (d : list byte) (i : Z) (b : byte) :
  0 <= i -> d !! Z.to_nat i = Some b -> getitem d i = Ok (byteZ b).
Proof.
  intros Hi Hb. unfold getitem.
  apply lookup_lt_Some in Hb as Hlt.
  assert ((i <? 0) = false) as -> by lia.
  assert ((0 <=? i) && (i <? len d) = true) as ->.
  { unfold len. apply andb_true_intro. split; lia. }
  by rewrite Hb.
Qed.

Lemma getitem_ok (d : list byte) (i : Z) :
  0 <= i < len d -> exists v, getitem d i = Ok v /\ 0 <= v < 256.
Proof.
  intros [Hi Hlt]. unfold len in Hlt.
  destruct (d !! Z.to_nat i) as [b|] eqn:Hb.
  - exists (byteZ b). split; [by apply getitem_Some | apply byteZ_range].
  - apply lookup_ge_None in Hb. lia.
Qed.

Lemma le_to_Z_range (bs : list byte) : 0 <= le_to_Z bs < 256 ^ len bs.
Proof.
  induction bs as [|b bs IH]; simpl; [unfold len; simpl; lia|].
  pose proof (byteZ_range b).
  replace (len (b :: bs)) with (Z.succ (len bs)) by (unfold len; simpl; lia).
  rewrite Z.pow_succ_r by apply len_nonneg. lia.
Qed.

Lemma unpack_bytes_ok (size : Z) (d : list byte) (off : Z) :
  0 <= size -> 0 <= off -> off + size <= len d ->
  exists bs, unpack_bytes size d off = Ok bs /\ len bs = size.
Proof.
  intros Hs Ho Hle. unfold unpack_bytes.
  assert ((off <? 0) = false) as -> by lia.
  assert ((len d - off <? size) = false) as -> by lia.
  eexists. split; [reflexivity|].
  unfold len in *. rewrite length_take, length_drop. lia.
Qed.

Lemma unpack_bytes_len (size : Z) (d : list byte) (off : Z) (bs : list byte) :
  0 <= size -> unpack_bytes size d off = Ok bs -> len bs = size.
Proof.
  intros Hs. unfold unpack_bytes, len.
  repeat case_match; try discriminate; intros [= <-];
    rewrite length_take, length_drop; lia.
Qed.

Lemma unpack_I_range (d : list byte) (off v : Z) :
  unpack_I d off = Ok v -> 0 <= v < 2 ^ 32.
Proof.
  unfold unpack_I. destruct (unpack_bytes 4 d off) as [bs|] eqn:E; [|discriminate].
  intros [= <-]. apply unpack_bytes_len in E; [|lia].
  pose proof (le_to_Z_range bs) as H. rewrite E in H. exact H.
Qed.

Lemma unpack_i_ok (d : list byte) (off : Z) :
  0 <= off -> off + 4 <= len d ->
  exists v, unpack_i d off = Ok v /\ - 2 ^ 31 <= v < 2 ^ 31.
Proof.
  intros Ho Hle. unfold unpack_i.
  destruct (unpack_bytes_ok 4 d off) as (bs & -> & Hbs); [lia..|].
  pose proof (le_to_Z_range bs) as H. rewrite Hbs in H.
  eexists. split; [reflexivity|]. simpl. case_match; lia.
Qed.

Lemma unpack_Q_ok (d : list byte) (off : Z) :
  0 <= off -> off + 8 <= len d ->
  exists v, unpack_Q d off = Ok v /\ 0 <= v < 2 ^ 64.
Proof.
  intros Ho Hle. unfold unpack_Q.
  destruct (unpack_bytes_ok 8 d off) as (bs & -> & Hbs); [lia..|].
  pose proof (le_to_Z_range bs) as H. rewrite Hbs in H.
  eexists. split; [reflexivity|]. exact H.
Qed.

(** A slice with non-negative bounds is no longer than the bounds say. *)
Lemma slice_len {A : Type} (d : list A) (a n : Z) :
  0 <= a -> 0 <= n -> len (slice d a (a + n)) = Z.max 0 (Z.min (a + n) (len d) - Z.min a (len d)).
Proof.
  intros Ha Hn. unfold slice, clamp, len.
  assert ((a <? 0) = false) as -> by lia.
  assert ((a + n <? 0) = false) as -> by lia.
  rewrite length_take, length_drop. lia.
Qed.

Lemma for_each_app {A B : Type} (body : B -> A -> result B) (xs ys : list A) (acc : B) :
  for_each body (xs ++ ys) acc = (acc' ← for_each body xs acc; for_each body ys acc').
Proof.
  revert acc. induction xs as [|x xs IH]; intros acc; simpl; [done|].
  destruct (body acc x); simpl; [apply IH | done].
Qed.

(** ** Address translation *)











(** ** Container parsing *)









Lemma parse_section_header (section_offset : Z) (pe pe' : PEParser) (i : Z) :
  parse_section section_offset pe i = Ok pe' -> same_header pe pe'.
Proof.
  unfold parse_section.
  destruct (unpack_I _ (_ + 8)); [simpl|discriminate].
  destruct (unpack_I _ (_ + 12)); [simpl|discriminate].
  destruct (unpack_I _ (_ + 16)); [simpl|discriminate].
  destruct (unpack_I _ (_ + 20)); [simpl|discriminate].
  intros [= <-]. repeat case_match; by split.
Qed.

Lemma for_each_invariant {A B : Type} (P : B -> Prop) (body : B -> A -> result B)
    (xs : list A) (acc acc' : B) :
  (forall b a b', P b -> body b a = Ok b' -> P b') ->
  P acc -> for_each body xs acc = Ok acc' -> P acc'.
Proof.
  intros Hb. revert acc. induction xs as [|x xs IH]; intros acc Hacc; simpl.
  - by intros [= <-].
  - destruct (body acc x) as [b|] eqn:E; [simpl|discriminate].
    apply IH. by eapply Hb.
Qed.

Lemma parse_sections_header (section_offset : Z) (xs : list Z) (pe pe' : PEParser) :
  for_each (parse_section section_offset) xs pe = Ok pe' -> same_header pe pe'.
Proof.
  apply (for_each_invariant (same_header pe)); [|by split].
  intros b a b' [Hd Hb] [Hd' Hb']%parse_section_header. split; congruence.
Qed.






Lemma parse_section_well_formed (section_offset : Z) (pe pe' : PEParser) (i : Z) :
  well_formed pe -> parse_section section_offset pe i = Ok pe' -> well_formed pe'.
Proof.
  intros [].
  unfold parse_section.
  destruct (unpack_I _ (_ + 8)) as [vsz|] eqn:E1; [simpl|discriminate].
  destruct (unpack_I _ (_ + 12)) as [r|] eqn:E2; [simpl|discriminate].
  destruct (unpack_I _ (_ + 16)) as [rsz|] eqn:E3; [simpl|discriminate].
  destruct (unpack_I _ (_ + 20)) as [roff|] eqn:E4; [simpl|discriminate].
  apply unpack_I_range in E2, E3, E4.
  assert (forall s, (exists t, t ∈ sections pe /\ name t = ".text") ->
                    exists t, t ∈ sections pe ++ [s] /\ name t = ".text") as Hmono.
  { intros s (t & Ht & Hn). exists t. split; [|done]. apply elem_of_app. by left. }
  intros [= <-].
  destruct (String.eqb _ ".text") eqn:Et;
    [|destruct (String.eqb _ ".rdata"); [|destruct (String.eqb _ ".data")]];
    split; simpl; try lia; try (destruct wf_text_named0; [by left | right; by apply Hmono]).
  right. eexists. split; [apply elem_of_app; right; left|]. simpl.
  by apply String.eqb_eq.
Qed.

Lemma parse_well_formed (d : list byte) (pe : PEParser) :
  parse d = Ok pe -> well_formed pe /\ data pe = d.
Proof.
  unfold parse, _parse_pe. simpl data.
  destruct (negb (bytes_eqb (slice_to d 2) MZ)); [discriminate|].
  destruct (unpack_I d 60) as [e|]; [simpl|discriminate].
  destruct (negb (bytes_eqb (slice d e (e + 4)) PE00)); [discriminate|].
  destruct (unpack_H d (e + 4 + 2)); [simpl|discriminate].
  destruct (unpack_H d (e + 4 + 16)); [simpl|discriminate].
  destruct (unpack_H d (e + 4 + 20)) as [m|]; [simpl|discriminate].
  assert (well_formed (init d)) as Hinit.
  { split; simpl; first [lia | by left]. }
  destruct (m =? 523).
  - destruct (unpack_Q d (e + 4 + 20 + 24)) as [b|] eqn:Eb; [simpl|discriminate].
    intros Hloop. split.
    + eapply (for_each_invariant well_formed); [|  |exact Hloop].
      * intros ? ? ? ?. by apply parse_section_well_formed.
      * destruct Hinit. split; simpl; try done.
        unfold unpack_Q in Eb.
        destruct (unpack_bytes 8 d _) as [bs|] eqn:Ebs; [|discriminate].
        injection Eb as <-. apply unpack_bytes_len in Ebs; [|lia].
        pose proof (le_to_Z_range bs) as Hr. rewrite Ebs in Hr. exact Hr.
    + by apply parse_sections_header in Hloop as [-> _].
  - simpl. intros Hloop. split.
    + eapply (for_each_invariant well_formed); [| exact Hinit |exact Hloop].
      intros ? ? ? ?. by apply parse_section_well_formed.
    + by apply parse_sections_header in Hloop as [-> _].
Qed.

(** ** Reference scanning *)

Lemma rip_block_cases (pe : PEParser) (td : list byte) (va i modrm disp_at ilen : Z)
    (xs : list Z) :
  0 <= disp_at -> disp_at + 4 <= len td ->
  exists hs, rip_block pe td va i modrm disp_at ilen xs = Ok (xs ++ hs)
             /\ (hs = [] \/ hs = [text_start pe + i]).
Proof.
  intros H0 H4. unfold rip_block.
  destruct (unpack_i_ok td disp_at) as (disp & -> & _); [done..|]. simpl.
  repeat case_match; simpl.
  - exists [text_start pe + i]. split; [done | by right].
  - exists []. rewrite app_nil_r. split; [done | by left].
  - exists []. rewrite app_nil_r. split; [done | by left].
Qed.

Lemma xref_body_ok (pe : PEParser) (td : list byte) (va i : Z) (xs : list Z) :
  0 <= i < len td - 7 ->
  exists hs, xref_body pe td (len td - 7) va xs i = Ok (xs ++ hs)
             /\ (hs = [] \/ hs = [text_start pe + i]).
Proof.
  intros Hi. unfold xref_body.
  destruct (getitem_ok td i) as (b0 & -> & Hb0); [lia|]. simpl.
  assert (exists b1, (if i + 1 <? len td - 7 then getitem td (i + 1) else mret 0) = Ok b1)
    as [b1 ->].
  { case_match; [|by eexists].
    destruct (getitem_ok td (i + 1)) as (? & -> & _); [lia|]. by eexists. }
  simpl. unfold is_in. simpl existsb.
  destruct (((b0 =? 72) || ((b0 =? 76) || false)) && (b1 =? 141) && (i + 6 <? len td - 7))
    eqn:C1;
  destruct ((b0 =? 141) && (i + 5 <? len td - 7)) eqn:C2;
  destruct (((b0 =? 72) || ((b0 =? 76) || false)) && (b1 =? 139) && (i + 6 <? len td - 7))
    eqn:C3;
  destruct (((b0 =? 72) || ((b0 =? 76) || false)) && (b1 =? 137) && (i + 6 <? len td - 7))
    eqn:C4;
  destruct ((b0 =? 72) && ((b1 =? 57) || ((b1 =? 59) || false)) && (i + 6 <? len td - 7))
    eqn:C5;
  try (exfalso; lia); simpl;
  try (destruct (getitem_ok td (i + 2)) as (modrm & -> & _); [lia|]; simpl);
  try (destruct (rip_block_cases pe td va i modrm (i + 3) 7 xs) as (hs & -> & Hhs);
       [lia..|]; simpl; by exists hs);
  try (destruct (rip_block_cases pe td va i b1 (i + 2) 6 xs) as (hs & -> & Hhs);
       [lia..|]; simpl; by exists hs).
  exists []. rewrite app_nil_r. split; [done | by left].
Qed.

Lemma xref_loop (pe : PEParser) (td : list byte) (va : Z) (n a : nat) (xs : list Z) :
  Z.of_nat a + Z.of_nat n <= len td - 7 ->
  exists hs,
    for_each (xref_body pe td (len td - 7) va) (map Z.of_nat (seq a n)) xs = Ok (xs ++ hs)
    /\ StronglySorted Z.lt hs
    /\ Forall (fun x => text_start pe + Z.of_nat a <= x
                        < text_start pe + Z.of_nat a + Z.of_nat n) hs.
Proof.
  revert a xs. induction n as [|n IH]; intros a xs Hle; simpl.
  - exists []. rewrite app_nil_r. repeat split; constructor.
  - destruct (xref_body_ok pe td va (Z.of_nat a) xs) as (h0 & -> & Hh0); [lia|]. simpl.
    destruct (IH (S a) (xs ++ h0)) as (hs & -> & Hsorted & Hrange); [lia|].
    exists (h0 ++ hs). rewrite app_assoc. split; [done|].
    assert (Forall (fun x => text_start pe + Z.of_nat a <= x
                             < text_start pe + Z.of_nat a + Z.of_nat (S n)) hs) as Hrange'.
    { eapply Forall_impl; [exact Hrange|]. simpl. intros; lia. }
    destruct Hh0 as [->| ->]; simpl; [done|]. split.
    + constructor; [done|]. eapply Forall_impl; [exact Hrange|]. simpl. intros; lia.
    + constructor; [lia | done].
Qed.

(** C10: for every parsed image and every string offset, [find_string_xrefs]
    returns (it raises nothing) a strictly increasing list of file offsets,
    each inside the file range of the code section; when the code section is
    empty or no section is named [.text] the list is empty. *)
Theorem find_string_xrefs_sorted_in_text (d : list byte) (pe : PEParser)
    (string_offset : Z) :
  parse d = Ok pe ->
  exists xrefs,
    find_string_xrefs pe string_offset = Ok xrefs
    /\ StronglySorted Z.lt xrefs
    /\ Forall (fun x => text_start pe <= x < text_start pe + text_size pe) xrefs
    /\ (text_size pe = 0 \/ (forall s, s ∈ sections pe -> name s <> ".text") ->
        xrefs = []).
Proof.
  intros [Hwf _]%parse_well_formed. destruct Hwf.
  unfold find_string_xrefs.
  destruct (offset_to_rva pe string_offset) as [string_rva|].
  2:{ exists []. repeat split; constructor. }
  set (td := slice (data pe) (text_start pe) (text_start pe + text_size pe)).
  assert (len td <= text_size pe) as Hlen.
  { unfold td. rewrite slice_len by done. lia. }
  unfold range. fold td.
  destruct (decide (0 <= len td - 7)) as [Hpos|Hneg].
  2:{ assert (Z.to_nat (len td - 7) = 0%nat) as -> by lia. simpl.
      exists []. repeat split; constructor. }
  destruct (xref_loop pe td (base pe + string_rva) (Z.to_nat (len td - 7)) 0 [])
    as (hs & Hloop & Hsorted & Hrange); [lia|].
  rewrite Hloop.
  exists hs. split; [done|]. split; [done|]. split.
  - eapply Forall_impl; [exact Hrange|]. simpl. intros; lia.
  - intros Hempty.
    assert (text_size pe = 0) as Hz.
    { destruct Hempty as [|Hno]; [done|].
      destruct wf_text_named0 as [|(s & Hs & Hn)]; [done|]. by apply Hno in Hs. }
    assert (Z.to_nat (len td - 7) = 0%nat) as Hn by lia.
    rewrite Hn in Hrange. destruct hs as [|h hs]; [done|].
    apply Forall_cons in Hrange as [? _]. lia.
Qed.

Lemma find_string_xrefs_sorted_in_text_witness :
  exists xrefs,
    find_string_xrefs (parsed image_padded_ref) 220 = Ok xrefs
    /\ StronglySorted Z.lt xrefs
    /\ Forall (fun x => text_start (parsed image_padded_ref) <= x
                 < text_start (parsed image_padded_ref)
                   + text_size (parsed image_padded_ref)) xrefs
    /\ (text_size (parsed image_padded_ref) = 0
        \/ (forall s, s ∈ sections (parsed image_padded_ref) -> name s <> ".text") ->
        xrefs = []).
Proof.
  apply (find_string_xrefs_sorted_in_text image_padded_ref). vm_compute. reflexivity.
Defined.

Lemma getitem_peek (td : list byte) (i : Z) :
  0 <= i < len td -> getitem td i = Ok (peek td i).
Proof.
  intros Hi. unfold peek.
  destruct (getitem_ok td i Hi) as (v & -> & _).
  by assert ((0 <=? i) = true) as -> by lia.
Qed.

Lemma unpack_i_disp32 (td : list byte) (i : Z) :
  0 <= i -> i + 4 <= len td -> unpack_i td i = Ok (disp32_at td i).
Proof.
  intros Hi Hlen. unfold unpack_i, unpack_bytes, disp32_at.
  assert ((i <? 0) = false) as -> by lia.
  assert ((len td - i <? 4) = false) as -> by lia.
  cbn [mbind result_bind mret result_ret].
  assert (forall k, 0 <= k < 4 ->
            exists x, td !! (Z.to_nat i + Z.to_nat k)%nat = Some x
                      /\ peek td (i + k) = byteZ x) as Hk.
  { intros k Hk.
    destruct (td !! (Z.to_nat i + Z.to_nat k)%nat) as [x|] eqn:Hx.
    - exists x. split; [done|]. unfold peek.
      rewrite (getitem_Some td (i + k) x); [|lia|].
      + by assert ((0 <=? i + k) = true) as -> by lia.
      + by replace (Z.to_nat (i + k)) with (Z.to_nat i + Z.to_nat k)%nat by lia.
    - apply lookup_ge_None in Hx. unfold len in Hlen. lia. }
  destruct (Hk 0) as (x0 & H0 & P0); [lia|].
  destruct (Hk 1) as (x1 & H1 & P1); [lia|].
  destruct (Hk 2) as (x2 & H2 & P2); [lia|].
  destruct (Hk 3) as (x3 & H3 & P3); [lia|].
  replace (i + 0) with i in P0 by lia.
  rewrite P0, P1, P2, P3.
  assert (take (Z.to_nat 4) (drop (Z.to_nat i) td) = [x0; x1; x2; x3]) as ->.
  { apply list_eq. intros n. rewrite lookup_take, lookup_drop.
    destruct n as [|[|[|[|n]]]]; simpl; done. }
  simpl le_to_Z. f_equal.
  replace (byteZ x0 + 256 * (byteZ x1 + 256 * (byteZ x2 + 256 * (byteZ x3 + 256 * 0))))
    with (byteZ x0 + 256 * byteZ x1 + 65536 * byteZ x2 + 16777216 * byteZ x3) by lia.
  reflexivity.
Qed.

Lemma rip_block_spec (pe : PEParser) (td : list byte) (va i modrm disp_at ilen : Z)
    (xs : list Z) :
  0 <= disp_at -> disp_at + 4 <= len td ->
  rip_block pe td va i modrm disp_at ilen xs
  = Ok (xs ++ if rip_relative modrm
                 && (reference_target pe i ilen (disp32_at td disp_at) =? va)
              then [text_start pe + i] else []).
Proof.
  intros H0 H4. unfold rip_block, rip_relative, reference_target.
  rewrite unpack_i_disp32 by done.
  destruct ((Z.land (modrm ≫ 6) 3 =? 0) && (Z.land modrm 7 =? 5)); simpl;
    [|by rewrite app_nil_r].
  destruct (_ =? va); simpl; [done | by rewrite app_nil_r].
Qed.

Lemma xref_body_spec (pe : PEParser) (td : list byte) (va i : Z) (xs : list Z) :
  0 <= i < len td - 7 ->
  xref_body pe td (len td - 7) va xs i = Ok (xs ++ reported_at pe td va i).
Proof.
  intros Hi. unfold xref_body, reported_at, recognized_reference, is_in.
  rewrite (getitem_peek td i) by lia. cbn [mbind result_bind existsb].
  set (b0 := peek td i). set (b1 := peek td (i + 1)). set (b2 := peek td (i + 2)).
  destruct (decide (i + 5 < len td - 7)) as [Hin|Hout].
  2:{ assert ((i + 6 <? len td - 7) = false) as -> by lia.
      assert ((i + 5 <? len td - 7) = false) as -> by lia.
      destruct (if i + 1 <? len td - 7 then getitem td (i + 1) else mret 0) as [v|] eqn:E.
      2:{ case_match; [|discriminate]. rewrite getitem_peek in E by lia. discriminate. }
      cbn [mbind result_bind]. rewrite !andb_false_r. cbn [mbind result_bind mret result_ret].
      repeat case_match; try (rewrite app_nil_r; reflexivity);
        exfalso; simplify_eq; lia. }
  assert ((i + 1 <? len td - 7) = true) as -> by lia.
  assert ((i + 5 <? len td - 7) = true) as -> by lia.
  rewrite (getitem_peek td (i + 1)) by lia. fold b1. cbn [mbind result_bind].
  rewrite (getitem_peek td (i + 2)) by lia. fold b2. cbn [mbind result_bind].
  assert ((0 <=? i) = true) as -> by lia.
  assert ((i + 7 <=? len td) = true) as -> by lia.
  assert ((i + 6 <=? len td) = true) as -> by lia.
  assert ((i + 6 - 1 <? len td - 7) = true) as G5 by lia.
  assert ((i + 7 - 1 <? len td - 7) = (i + 6 <? len td - 7)) as G7 by (f_equal; lia).
  destruct (i + 6 <? len td - 7) eqn:G6;
  destruct (b0 =? 72) eqn:A1; destruct (b0 =? 76) eqn:A2; destruct (b0 =? 141) eqn:A3;
    try (exfalso; lia);
  destruct (b1 =? 141) eqn:B1; destruct (b1 =? 139) eqn:B2; destruct (b1 =? 137) eqn:B3;
    try (exfalso; lia);
  destruct (b1 =? 57) eqn:B4; destruct (b1 =? 59) eqn:B5;
    try (exfalso; lia);
  cbn [andb orb mbind result_bind mret result_ret];
  repeat (rewrite rip_block_spec by lia; cbn [andb orb mbind result_bind mret result_ret]);
  rewrite ?G5, ?G7;
  repeat (match goal with
          | |- context [rip_relative ?m] => destruct (rip_relative m)
          | |- context [reference_target ?p ?j ?l ?d =? ?v] =>
              destruct (reference_target p j l d =? v)
          end; cbn [andb orb mbind result_bind mret result_ret]);
  rewrite ?G5, ?G7; cbn [andb]; rewrite ?app_nil_r; reflexivity.
Qed.

Lemma xref_loop_spec (pe : PEParser) (td : list byte) (va : Z) (n a : nat) (xs : list Z) :
  Z.of_nat a + Z.of_nat n <= len td - 7 ->
  for_each (xref_body pe td (len td - 7) va) (map Z.of_nat (seq a n)) xs
  = Ok (xs ++ flat_map (reported_at pe td va) (map Z.of_nat (seq a n))).
Proof.
  revert a xs. induction n as [|n IH]; intros a xs Hle; simpl.
  - by rewrite app_nil_r.
  - rewrite xref_body_spec by lia. simpl. rewrite IH by lia. by rewrite app_assoc.
Qed.

(** What [find_string_xrefs] returns for a mapped string offset. *)
Lemma find_string_xrefs_eq (pe : PEParser) (string_offset string_rva : Z) :
  offset_to_rva pe string_offset = Some string_rva ->
  find_string_xrefs pe string_offset
  = Ok (flat_map (reported_at pe (code_region pe) (base pe + string_rva))
                 (range (len (code_region pe) - 7))).
Proof.
  intros Hrva. unfold find_string_xrefs. rewrite Hrva. fold (code_region pe).
  unfold range.
  destruct (decide (0 <= len (code_region pe) - 7)) as [Hpos|Hneg].
  - by rewrite xref_loop_spec by lia.
  - by assert (Z.to_nat (len (code_region pe) - 7) = 0%nat) as -> by lia.
Qed.

(** Every reported position is the start of a recognized reference whose
    effective target is the queried virtual address. *)
Lemma find_string_xrefs_sound (pe : PEParser) (string_offset string_rva : Z)
    (xrefs : list Z) (x : Z) :
  offset_to_rva pe string_offset = Some string_rva ->
  find_string_xrefs pe string_offset = Ok xrefs ->
  x ∈ xrefs ->
  exists i ilen disp,
    x = text_start pe + i
    /\ recognized_reference (code_region pe) i = Some (ilen, disp)
    /\ reference_target pe i ilen disp = base pe + string_rva.
Proof.
  intros Hrva Hres Hx. rewrite (find_string_xrefs_eq _ _ _ Hrva) in Hres.
  injection Hres as <-.
  apply list_elem_of_In, in_flat_map in Hx as (i & _ & Hx).
  unfold reported_at in Hx.
  destruct (recognized_reference (code_region pe) i) as [[ilen disp]|] eqn:Hrec;
    [|by destruct Hx].
  destruct ((i + ilen - 1 <? len (code_region pe) - 7)
            && (reference_target pe i ilen disp =? base pe + string_rva)) eqn:E;
    [|by destruct Hx].
  destruct Hx as [<-|[]]. exists i, ilen, disp. split; [done|]. split; [done | lia].
Qed.

(** A recognized reference to the queried address is reported when at
    least 7 more bytes of the region follow its last byte. *)
Lemma find_string_xrefs_complete_interior (pe : PEParser)
    (string_offset string_rva i ilen disp : Z) :
  offset_to_rva pe string_offset = Some string_rva ->
  recognized_reference (code_region pe) i = Some (ilen, disp) ->
  reference_target pe i ilen disp = base pe + string_rva ->
  i + ilen + 6 < len (code_region pe) ->
  exists xrefs, find_string_xrefs pe string_offset = Ok xrefs
                /\ text_start pe + i ∈ xrefs.
Proof.
  intros Hrva Hrec Htarget Hroom. eexists. split; [by apply find_string_xrefs_eq|].
  apply list_elem_of_In, in_flat_map. exists i. split.
  - assert (0 <= i) as Hi.
    { unfold recognized_reference in Hrec. repeat case_match; try discriminate; lia. }
    assert (6 <= ilen) as Hilen.
    { unfold recognized_reference in Hrec. repeat case_match; simplify_eq; lia. }
    unfold range. apply in_map_iff. exists (Z.to_nat i). split; [lia|].
    apply in_seq. lia.
  - unfold reported_at. rewrite Hrec.
    assert ((i + ilen - 1 <? len (code_region pe) - 7)
            && (reference_target pe i ilen disp =? base pe + string_rva) = true) as ->
      by lia.
    by left.
Qed.

(** C1, evaluated where the code departs from it: the code region of a
    parsed image consists of one prefixed LEA whose effective target is the
    virtual address of the string at file offset 207, yet the scan returns
    no reference; with 13 bytes of padding after the same instruction the
    reference at its start is returned, together with the bare LEA that
    starts one byte later and has the same target. *)
Theorem find_string_xrefs_misses_tail :
  let pe := parsed image_tail_ref in
  let padded := parsed image_padded_ref in
  parse image_tail_ref = Ok pe
  /\ offset_to_rva pe 207 = Some 0x2000
  /\ recognized_reference (code_region pe) 0 = Some (7, 0xFF9)
  /\ reference_target pe 0 7 0xFF9 = base pe + 0x2000
  /\ find_string_xrefs pe 207 = Ok []
  /\ parse image_padded_ref = Ok padded
  /\ find_string_xrefs padded 220 = Ok [200; 201].
Proof.
  cbv zeta. repeat split; vm_compute; reflexivity.
Qed.

(** ** Signature generation *)

Lemma grows_refl (i : Z) (w : gset Z) : grows i w w.
Proof. split; [done | by left]. Qed.

Lemma grows_trans (i : Z) (w1 w2 w3 : gset Z) :
  grows i w1 w2 -> grows i w2 w3 -> grows i w1 w3.
Proof.
  intros [S12 H12] [S23 H23]. split; [by etrans|].
  intros j Hj. destruct (H23 j Hj) as [Hj2|?]; [|by right].
  destruct (H12 j Hj2); [by left | by right].
Qed.

Lemma grows_union (i : Z) (s w : gset Z) :
  (forall j, j ∈ s -> i < j) -> grows i w (s ∪ w).
Proof.
  intros Hs. split; [apply union_subseteq_r|].
  intros j [Hj|Hj]%elem_of_union; [right; by apply Hs | by left].
Qed.

Lemma grows_later (i i' : Z) (w w' : gset Z) : i <= i' -> grows i' w w' -> grows i w w'.
Proof. unfold grows. intros ? [? H]. split; [done|]. intros j [?|?]%H; [by left|right; lia]. Qed.

(** Reads of the two bytes after [i] succeed when three more bytes exist;
    otherwise every guard of the loop body is false. *)
Ltac after_index :=
  let j := fresh "j" in
  let Hj := fresh "Hj" in
  intros j Hj; rewrite ?elem_of_union, ?elem_of_singleton in Hj; lia.

Ltac pattern_reads data i :=
  let Hin := fresh "Hin" in
  destruct (decide (i + 3 < len data)) as [Hin|Hin];
  [ destruct (getitem_ok data (i + 1)) as (? & -> & ?); [lia|];
    destruct (getitem_ok data (i + 2)) as (? & -> & ?); [lia|]
  | repeat match goal with
           | |- context [?a <? len data] =>
               assert ((a <? len data) = false) as -> by lia
           end;
    rewrite ?andb_false_r ];
  unfold and_then; simpl.

Lemma mark_spill_ok (data : list byte) (i : Z) (w : gset Z) :
  0 <= i < len data ->
  exists w', mark_spill data i w = Ok w' /\ grows i w w'.
Proof.
  intros Hi. unfold mark_spill.
  destruct (getitem_ok data i) as (b0 & -> & Hb0); [lia|]. simpl.
  pattern_reads data i;
    repeat (case_match; simpl);
    (eexists; split; [reflexivity|]);
    first [apply grows_refl | apply grows_union; after_index].
Qed.

Lemma mark_sub_imm8_ok (data : list byte) (i : Z) (w : gset Z) :
  0 <= i < len data ->
  exists w', mark_sub_imm8 data i w = Ok w' /\ grows i w w'.
Proof.
  intros Hi. unfold mark_sub_imm8.
  destruct (getitem_ok data i) as (b0 & -> & Hb0); [lia|]. simpl.
  pattern_reads data i;
    repeat (case_match; simpl);
    (eexists; split; [reflexivity|]);
    first [apply grows_refl | apply grows_union; after_index].
Qed.

Lemma mark_sub_imm32_ok (data : list byte) (i : Z) (w : gset Z) :
  0 <= i < len data ->
  exists w', mark_sub_imm32 data i w = Ok w' /\ grows i w w'.
Proof.
  intros Hi. unfold mark_sub_imm32.
  destruct (getitem_ok data i) as (b0 & -> & Hb0); [lia|]. simpl.
  pattern_reads data i;
    repeat (case_match; simpl);
    (eexists; split; [reflexivity|]);
    first [apply grows_refl | apply grows_union; after_index].
Qed.

Lemma skip_rel32_ok (opcode : Z) (data : list byte) (i : Z) (w : gset Z) :
  0 <= i < len data ->
  exists r, skip_rel32 opcode data i w = Ok r
            /\ forall i' w', r = Some (i', w') -> i < i' /\ grows i w w'.
Proof.
  intros Hi. unfold skip_rel32.
  destruct (getitem_ok data i) as (b0 & -> & Hb0); [lia|]. simpl.
  eexists; split; [reflexivity|]. intros i' w'.
  case_match; [|discriminate]. intros [= <- <-]. split; [lia|].
  apply grows_union; after_index.
Qed.

Lemma skip_rip_ok (opcodes : list Z) (data : list byte) (i : Z) (w : gset Z) :
  0 <= i < len data ->
  exists r, skip_rip opcodes data i w = Ok r
            /\ forall i' w', r = Some (i', w') -> i < i' /\ grows i w w'.
Proof.
  intros Hi. unfold skip_rip.
  destruct (getitem_ok data i) as (b0 & -> & Hb0); [lia|]. simpl.
  pattern_reads data i;
    repeat (case_match; simpl);
    (eexists; split; [reflexivity|]); intros i' w'; try discriminate;
    intros [= <- <-]; (split; [lia|]);
    apply grows_union; after_index.
Qed.

Lemma pattern_step_ok (data : list byte) (i : Z) (w : gset Z) :
  0 <= i < len data ->
  exists i' w', pattern_step data i w = Ok (i', w') /\ i < i' /\ grows i w w'.
Proof.
  intros Hi. unfold pattern_step.
  destruct (mark_spill_ok data i w Hi) as (w1 & -> & G1). simpl.
  destruct (mark_sub_imm8_ok data i w1 Hi) as (w2 & -> & G2). simpl.
  destruct (mark_sub_imm32_ok data i w2 Hi) as (w3 & -> & G3). simpl.
  assert (grows i w w3) as G by eauto using grows_trans.
  destruct (skip_rel32_ok 0xE8 data i w3 Hi) as (r & -> & Hr). simpl.
  destruct r as [[i' w']|].
  { destruct (Hr _ _ eq_refl). eexists _, _. eauto using grows_trans. }
  clear Hr.
  destruct (skip_rel32_ok 0xE9 data i w3 Hi) as (r & -> & Hr). simpl.
  destruct r as [[i' w']|].
  { destruct (Hr _ _ eq_refl). eexists _, _. eauto using grows_trans. }
  clear Hr.
  destruct (skip_rip_ok [0x8D] data i w3 Hi) as (r & -> & Hr). simpl.
  destruct r as [[i' w']|].
  { destruct (Hr _ _ eq_refl). eexists _, _. eauto using grows_trans. }
  clear Hr.
  destruct (skip_rip_ok [0x8B; 0x89] data i w3 Hi) as (r & -> & Hr). simpl.
  destruct r as [[i' w']|].
  { destruct (Hr _ _ eq_refl). eexists _, _. eauto using grows_trans. }
  eexists _, _. split; [reflexivity|]. split; [lia | done].
Qed.

Lemma pattern_loop_ok (fuel : nat) (data : list byte) (i : Z) (w : gset Z) :
  0 <= i -> len data - i <= Z.of_nat fuel ->
  exists w', pattern_loop fuel data i w = Ok (Some w') /\ grows i w w'.
Proof.
  revert i w. induction fuel as [|fuel IH]; intros i w Hi Hfuel; simpl.
  - assert ((len data <=? i) = true) as -> by lia.
    exists w. split; [done | apply grows_refl].
  - destruct (len data <=? i) eqn:E.
    { exists w. split; [done | apply grows_refl]. }
    destruct (pattern_step_ok data i w) as (i' & w1 & -> & Hlt & G1); [lia|]. simpl.
    destruct (IH i' w1) as (w' & -> & G2); [lia..|].
    exists w'. split; [done|].
    eapply grows_trans; [exact G1|]. eapply grows_later; [|exact G2]. lia.
Qed.

Lemma string_app_assoc (a b c : string) : (a +:+ b) +:+ c = a +:+ (b +:+ c).
Proof.
  induction a as [|x a IH]; [done|].
  change (String x ((a +:+ b) +:+ c) = String x (a +:+ (b +:+ c))). by rewrite IH.
Qed.

Lemma string_app_nil_r (a : string) : a +:+ "" = a.
Proof.
  induction a as [|x a IH]; [done|].
  change (String x (a +:+ "") = String x a). by rewrite IH.
Qed.

Lemma tokens_go_app (p s cur : string) :
  no_space p = true -> tokens_go (p +:+ s) cur = tokens_go s (cur +:+ p).
Proof.
  revert cur. induction p as [|c p IH]; intros cur Hp.
  - change ("" +:+ s) with s. by rewrite string_app_nil_r.
  - change (String c p +:+ s) with (String c (p +:+ s)). simpl.
    simpl in Hp. apply andb_prop in Hp as [Hc Hp].
    apply negb_true_iff in Hc. rewrite Hc.
    rewrite IH by done. by rewrite string_app_assoc.
Qed.

Lemma tokens_go_join (p : string) (ps : list string) :
  Forall (fun q => no_space q = true) (p :: ps) ->
  tokens_go (join_space (p :: ps)) "" = p :: ps.
Proof.
  revert p. induction ps as [|q ps IH]; intros p Hall.
  - apply Forall_cons in Hall as [Hp _]. simpl.
    rewrite <- (string_app_nil_r p) at 1. by rewrite tokens_go_app.
  - apply Forall_cons in Hall as [Hp Hall].
    change (join_space (p :: q :: ps)) with (p +:+ " " +:+ join_space (q :: ps)).
    rewrite tokens_go_app by done. simpl. f_equal. by apply IH.
Qed.

(** Splitting the joined text gives the parts back. *)
Lemma tokens_join (ps : list string) :
  Forall (fun q => no_space q = true /\ q <> "") ps ->
  tokens (join_space ps) = ps.
Proof.
  destruct ps as [|p ps]; [done|]. intros Hall.
  assert (join_space (p :: ps) <> "") as Hne.
  { apply Forall_cons in Hall as [[_ Hp] _].
    destruct ps; simpl; [done|]. destruct p; [done | discriminate]. }
  unfold tokens. destruct (join_space (p :: ps)) eqn:E; [done|].
  rewrite <- E. apply tokens_go_join.
  eapply Forall_impl; [exact Hall|]. by intros ? [? _].
Qed.

Lemma format_02X_byte (b : byte) :
  literal_token (format_02X (byteZ b)) = Some (byteZ b)
  /\ no_space (format_02X (byteZ b)) = true
  /\ format_02X (byteZ b) <> wildcard_token.
Proof. destruct b; vm_compute; repeat split; discriminate. Qed.

Lemma pattern_parts_tokens (data : list byte) (w : gset Z) :
  tokens (join_space (pattern_parts data w)) = pattern_parts data w.
Proof.
  apply tokens_join. apply Forall_forall. intros tok Htok.
  apply list_elem_of_lookup in Htok as [j Hj].
  unfold pattern_parts in Hj. rewrite list_lookup_imap in Hj.
  destruct (data !! j) as [b|]; [simpl in Hj|discriminate].
  injection Hj as <-. case_match; [done|].
  destruct (format_02X_byte b) as (Hlit & Hsp & _). split; [done|].
  intros Heq. rewrite Heq in Hlit. discriminate.
Qed.

Lemma pattern_window_length (pe : PEParser) (func_offset length : Z) :
  0 <= func_offset /\ 0 <= length /\ func_offset + length <= len (data pe) ->
  len (pattern_window pe func_offset length) = length.
Proof.
  intros (Hoff & Hlen & Hfit). unfold pattern_window.
  assert ((len (data pe) <? func_offset + length) = false) as -> by lia.
  rewrite slice_len by done. lia.
Qed.

Lemma make_smart_pattern_len_eq (pe : PEParser) (func_offset length : Z) :
  exists w, pattern_loop (List.length (pattern_window pe func_offset length))
              (pattern_window pe func_offset length) 0 ∅ = Ok (Some w)
    /\ make_smart_pattern_len pe func_offset length
       = Ok (Some (join_space (pattern_parts (pattern_window pe func_offset length) w))).
Proof.
  destruct (pattern_loop_ok (List.length (pattern_window pe func_offset length))
              (pattern_window pe func_offset length) 0 ∅) as (w & Hw & _);
    [lia | unfold len; lia |].
  exists w. split; [done|]. unfold make_smart_pattern_len. by rewrite Hw.
Qed.

(** C5: [make_smart_pattern] always returns a pattern; the pattern is a
    function of the window bytes alone (two runs on identical bytes give
    identical text); split at its spaces it has one token per byte of the
    window, in order (as many as the requested length when the file holds
    that many bytes from the function offset on), each token being the
    wildcard marker or the two uppercase hexadecimal digits of the byte at
    that position. *)
Theorem make_smart_pattern_tokens (pe : PEParser) (func_offset length : Z) :
  exists text,
    make_smart_pattern_len pe func_offset length = Ok (Some text)
    /\ (forall pe' func_offset' length',
          pattern_window pe' func_offset' length' = pattern_window pe func_offset length ->
          make_smart_pattern_len pe' func_offset' length' = Ok (Some text))
    /\ List.length (tokens text) = List.length (pattern_window pe func_offset length)
    /\ (0 <= func_offset /\ 0 <= length /\ func_offset + length <= len (data pe) ->
        len (tokens text) = length)
    /\ (forall j b, pattern_window pe func_offset length !! j = Some b ->
          exists tok, tokens text !! j = Some tok
            /\ (tok = wildcard_token \/ literal_token tok = Some (byteZ b))).
Proof.
  destruct (make_smart_pattern_len_eq pe func_offset length) as (w & Hw & Hs).
  eexists. split; [exact Hs|]. split; [|split; [|split]].
  - intros pe' func_offset' length' Hwin.
    unfold make_smart_pattern_len. rewrite Hwin, Hw. reflexivity.
  - rewrite pattern_parts_tokens. unfold pattern_parts. apply length_imap.
  - intros Hfit. rewrite pattern_parts_tokens.
    rewrite <- (pattern_window_length pe func_offset length Hfit) at 2.
    unfold pattern_parts, len. by rewrite length_imap.
  - intros j b Hb. rewrite pattern_parts_tokens. unfold pattern_parts.
    rewrite list_lookup_imap, Hb. simpl. eexists. split; [reflexivity|].
    case_match; [by left | right]. apply format_02X_byte.
Qed.

(** The first iteration on a window that starts with a position-relative LEA. *)
Section LeaStep.
Variables (data : list byte) (i b0 b1 b2 : Z) (w : gset Z).
Hypothesis H0 : getitem data i = Ok b0.
Hypothesis H1 : getitem data (i + 1) = Ok b1.
Hypothesis H2 : getitem data (i + 2) = Ok b2.
Hypothesis Hlen : i + 6 < len data.
Hypothesis Hb0 : is_in b0 [0x48; 0x4C] = true.
Hypothesis Hb1 : b1 = 0x8D.
Hypothesis Hb2 : rip_relative b2 = true.

Lemma lea_mark_spill : mark_spill data i w = Ok w.
Proof using H0 H1 Hb1.
  unfold mark_spill, and_then. rewrite H0. simpl.
  destruct ((i + 4 <? len data) && _); simpl; [|reflexivity].
  rewrite H1. simpl. assert ((b1 =? 137) = false) as -> by lia. reflexivity.
Qed.

Lemma lea_mark_sub_imm8 : mark_sub_imm8 data i w = Ok w.
Proof using H0 H1 Hb1.
  unfold mark_sub_imm8, and_then. rewrite H0. simpl.
  destruct ((i + 3 <? len data) && _); simpl; [|reflexivity].
  rewrite H1. simpl. assert ((b1 =? 131) = false) as -> by lia. reflexivity.
Qed.

Lemma lea_mark_sub_imm32 : mark_sub_imm32 data i w = Ok w.
Proof using H0 H1 Hb1.
  unfold mark_sub_imm32, and_then. rewrite H0. simpl.
  destruct ((i + 6 <? len data) && _); simpl; [|reflexivity].
  rewrite H1. simpl. assert ((b1 =? 129) = false) as -> by lia. reflexivity.
Qed.

Lemma lea_skip_rel32 (opcode : Z) :
  opcode = 0xE8 \/ opcode = 0xE9 -> skip_rel32 opcode data i w = Ok None.
Proof using H0 Hb0.
  intros Hop. unfold skip_rel32. rewrite H0. simpl.
  unfold is_in in Hb0. simpl in Hb0.
  assert ((b0 =? opcode) = false) as -> by lia. reflexivity.
Qed.

Lemma lea_skip_rip :
  skip_rip [0x8D] data i w = Ok (Some (i + 7, {[i + 3; i + 4; i + 5; i + 6]} ∪ w)).
Proof using All.
  unfold skip_rip, and_then. rewrite H0. cbn [mbind result_bind].
  assert ((i + 6 <? len data) = true) as -> by lia.
  rewrite Hb0. cbn [andb mbind result_bind]. rewrite H1. cbn [mbind result_bind].
  unfold is_in. cbn [existsb].
  assert ((b1 =? 141) = true) as -> by lia. cbn [orb].
  rewrite H2. simpl. rewrite Hb2. reflexivity.
Qed.

Lemma pattern_step_lea :
  pattern_step data i w = Ok (i + 7, {[i + 3; i + 4; i + 5; i + 6]} ∪ w).
Proof using All.
  unfold pattern_step.
  rewrite lea_mark_spill. simpl.
  rewrite lea_mark_sub_imm8. simpl.
  rewrite lea_mark_sub_imm32. simpl.
  rewrite lea_skip_rel32 by auto. simpl.
  rewrite lea_skip_rel32 by auto. simpl.
  rewrite lea_skip_rip. reflexivity.
Qed.
End LeaStep.

(** C6: when the window starts with a 7-byte position-relative LEA (prefix
    0x48 or 0x4C, opcode 0x8D, ModRM with mod = 0 and rm = 5, 32-bit
    displacement), tokens 0 to 2 of the pattern are the literal bytes and
    tokens 3 to 6 are wildcards. *)
Theorem make_smart_pattern_lea_wildcards (pe : PEParser) (func_offset length : Z)
    (b0 b1 b2 : byte) (rest : list byte) :
  pattern_window pe func_offset length = b0 :: b1 :: b2 :: rest ->
  (4 <= List.length rest)%nat ->
  is_in (byteZ b0) [0x48; 0x4C] = true ->
  byteZ b1 = 0x8D ->
  rip_relative (byteZ b2) = true ->
  exists text,
    make_smart_pattern_len pe func_offset length = Ok (Some text)
    /\ (forall j b, [b0; b1; b2] !! j = Some b ->
          exists tok, tokens text !! j = Some tok
            /\ tok <> wildcard_token /\ literal_token tok = Some (byteZ b))
    /\ (forall j, (3 <= j < 7)%nat -> tokens text !! j = Some wildcard_token).
Proof.
  intros Hwin Hrest Hb0 Hb1 Hb2.
  destruct (make_smart_pattern_len_eq pe func_offset length) as (w & Hw & Hs).
  set (data := pattern_window pe func_offset length) in *.
  assert (7 <= len data) as Hlen by (rewrite Hwin; unfold len; simpl; lia).
  assert (pattern_step data 0 ∅ = Ok (7, {[3; 4; 5; 6]} ∪ ∅)) as Hstep.
  { apply (pattern_step_lea data 0 (byteZ b0) (byteZ b1) (byteZ b2)); try done;
      try (apply getitem_Some; [lia | by rewrite Hwin]). lia. }
  assert (grows 7 ({[3; 4; 5; 6]} ∪ ∅) w) as [Hsub Hnew].
  { destruct (List.length data) as [|fuel] eqn:Hfuel; [unfold len in Hlen; lia|].
    simpl in Hw. assert ((len data <=? 0) = false) as Hgo by lia.
    rewrite Hgo, Hstep in Hw. simpl in Hw.
    destruct (pattern_loop_ok fuel data 7 ({[3; 4; 5; 6]} ∪ ∅)) as (w' & Hw' & G);
      [lia | unfold len; lia |].
    rewrite Hw' in Hw. by injection Hw as <-. }
  exists (join_space (pattern_parts data w)). split; [exact Hs|].
  rewrite pattern_parts_tokens. split.
  - intros j b Hj.
    assert ((j < 3)%nat) as Hlt by (by apply lookup_lt_Some in Hj).
    assert (data !! j = Some b) as Hd.
    { rewrite Hwin. destruct j as [|[|[|j]]]; [done..|lia]. }
    unfold pattern_parts. rewrite list_lookup_imap, Hd. simpl.
    eexists. split; [reflexivity|].
    rewrite bool_decide_eq_false_2.
    + split; apply format_02X_byte.
    + intros [Hin|?]%Hnew; [|lia].
      rewrite !elem_of_union, !elem_of_singleton in Hin.
      destruct Hin as [[[[?|?]|?]|?]|Hin]; try lia. by apply elem_of_empty in Hin.
  - intros j Hj.
    destruct (data !! j) as [b|] eqn:Hd.
    2:{ apply lookup_ge_None in Hd. unfold len in Hlen. lia. }
    unfold pattern_parts. rewrite list_lookup_imap, Hd. simpl.
    rewrite bool_decide_eq_true_2; [done|].
    apply Hsub. rewrite !elem_of_union, !elem_of_singleton. lia.
Qed.

Lemma make_smart_pattern_lea_wildcards_witness :
  exists text,
    make_smart_pattern_len (init (lea_to_string ++ [xc3])) 0 32 = Ok (Some text)
    /\ (forall j b, [x48; x8d; x05] !! j = Some b ->
          exists tok, tokens text !! j = Some tok
            /\ tok <> wildcard_token /\ literal_token tok = Some (byteZ b))
    /\ (forall j, (3 <= j < 7)%nat -> tokens text !! j = Some wildcard_token).
Proof.
  apply (make_smart_pattern_lea_wildcards (init (lea_to_string ++ [xc3])) 0 32
           x48 x8d x05 [xf9; x0f; x00; x00; xc3]);
    [reflexivity | simpl; lia | reflexivity | reflexivity | reflexivity].
Defined.

(** ** Global pointer discovery *)

Lemma find_in_spec (d sub : list byte) (cands : list Z) :
  find_in d sub cands = -1
  \/ (find_in d sub cands ∈ cands
      /\ take (length sub) (drop (Z.to_nat (find_in d sub cands)) d) = sub).
Proof.
  induction cands as [|p cands IH]; simpl; [by left|].
  unfold bytes_eqb. case_bool_decide as Heq.
  - right. split; [left | done].
  - destruct IH as [?|[? ?]]; [by left | right]. split; [by right | done].
Qed.

Lemma find_spec (d sub : list byte) (start stop : Z) :
  0 < len sub -> 0 <= start -> 0 <= stop ->
  find d sub start stop = -1
  \/ (start <= find d sub start stop
      /\ find d sub start stop + len sub <= stop
      /\ find d sub start stop + len sub <= len d
      /\ take (length sub) (drop (Z.to_nat (find d sub start stop)) d) = sub).
Proof.
  intros Hsub Hstart Hstop. unfold find.
  pose proof (len_nonneg d) as Hd.
  match goal with |- context [find_in d sub ?c] =>
    destruct (find_in_spec d sub c) as [?|[Hin Hmatch]]; [by left | right] end.
  apply list_elem_of_In, in_map_iff in Hin as (k & Hk & Hin).
  apply in_seq in Hin. rewrite <- Hk in Hmatch |- *. clear Hk.
  unfold clamp in *.
  assert ((start <? 0) = false) as Es by lia.
  assert ((stop <? 0) = false) as Ee by lia.
  rewrite Es, Ee in *. split_and!; [lia..|done].
Qed.

Lemma global_pointer_loop_ok (fuel : nat) (d tb : list byte) (lo idx stop : Z)
    (results : list Z) :
  len tb = 8 -> 0 <= lo <= idx -> 0 <= stop -> stop - idx <= Z.of_nat fuel ->
  Forall (pointer_at d tb lo stop) results ->
  Forall (fun p => p + 8 <= idx) results ->
  (forall i p q, results !! i = Some p -> results !! S i = Some q -> p + 8 <= q) ->
  exists results',
    global_pointer_loop fuel d tb idx stop results = Some results'
    /\ Forall (pointer_at d tb lo stop) results'
    /\ (forall i p q, results' !! i = Some p -> results' !! S i = Some q -> p + 8 <= q).
Proof.
  intros Htb. revert idx results.
  induction fuel as [|fuel IH]; intros idx results Hidx Hstop Hfuel Hall Hbefore Hgap; simpl.
  - assert ((stop <=? idx) = true) as -> by lia. by exists results.
  - destruct (stop <=? idx) eqn:E; [by exists results|].
    destruct (find_spec d tb idx stop) as [Hnone|(Hge & Hle & Hled & Hmatch)]; [lia..| |].
    + rewrite Hnone. simpl. by exists results.
    + set (pos := find d tb idx stop) in *.
      assert ((pos =? -1) = false) as -> by lia.
      apply IH; [lia..| | |].
      * apply Forall_app. split; [done|]. constructor; [|done].
        split; [lia|]. split; [lia|].
        unfold slice, clamp. pose proof (len_nonneg d).
        assert ((pos <? 0) = false) as -> by lia.
        assert ((pos + 8 <? 0) = false) as -> by lia.
        replace (Z.min (pos + 8) (len d)) with (pos + 8) by lia.
        replace (Z.min pos (len d)) with pos by lia.
        replace (Z.to_nat (pos + 8 - pos)) with (length tb) by (unfold len in *; lia).
        exact Hmatch.
      * apply Forall_app. split; [|constructor; [lia|done]].
        eapply Forall_impl; [exact Hbefore|]. simpl. intros; lia.
      * intros i p q Hp Hq.
        destruct (decide (S i < length results)%nat) as [Hlt|Hge'].
        { rewrite lookup_app_l in Hp by lia. rewrite lookup_app_l in Hq by lia. eauto. }
        destruct (decide (S i = length results)) as [Heq|Hne].
        { rewrite lookup_app_l in Hp by lia.
          rewrite lookup_app_r in Hq by lia.
          replace (S i - length results)%nat with 0%nat in Hq by lia.
          injection Hq as <-.
          rewrite Forall_forall in Hbefore.
          assert (p + 8 <= idx); [|lia].
          apply Hbefore. by eapply list_elem_of_lookup_2. }
        apply lookup_lt_Some in Hq. rewrite length_app in Hq. simpl in Hq. lia.
Qed.

Lemma byteZ_byte_of_Z (v : Z) : byteZ (byte_of_Z v) = v mod 256.
Proof.
  unfold byteZ, byte_of_Z.
  pose proof (Z.mod_pos_bound v 256 ltac:(lia)) as Hr.
  destruct (Byte.of_N (Z.to_N (v mod 256))) as [b|] eqn:E.
  - apply Byte.to_of_N in E. rewrite E. lia.
  - apply Byte.of_N_None_iff in E. lia.
Qed.

Lemma le_to_Z_le_bytes (n : nat) (v : Z) :
  0 <= v < 256 ^ Z.of_nat n -> le_to_Z (le_bytes n v) = v.
Proof.
  revert v. induction n as [|n IH]; intros v Hv; simpl.
  - simpl in Hv. lia.
  - rewrite byteZ_byte_of_Z.
    rewrite Nat2Z.inj_succ, Z.pow_succ_r in Hv by lia.
    rewrite IH.
    + pose proof (Z.div_mod v 256). lia.
    + split; [apply Z.div_pos; lia|]. apply Z.div_lt_upper_bound; lia.
Qed.

Lemma length_le_bytes (n : nat) (v : Z) : length (le_bytes n v) = n.
Proof. revert v. induction n as [|n IH]; intros v; simpl; [done | by rewrite IH]. Qed.

(** C9, as the code has it: for a parsed image and a target whose virtual
    address fits in 64 bits, [find_global_pointer_to_rva] returns a list in
    which every position lies inside the mutable-data region together with
    its 8 bytes, holds exactly the 8-byte little-endian target virtual
    address, and lies at least 8 bytes after the previous position; the
    positions need not be 8-byte aligned. *)
Theorem find_global_pointer_positions (d : list byte) (pe : PEParser) (target_rva : Z) :
  parse d = Ok pe ->
  0 <= base pe + target_rva < 2 ^ 64 ->
  exists results,
    find_global_pointer_to_rva pe target_rva = Ok (Some results)
    /\ Forall (fun p => data_start pe <= p
                 /\ p + 8 <= data_start pe + data_size pe
                 /\ slice (data pe) p (p + 8) = le_bytes 8 (base pe + target_rva)
                 /\ unpack_Q (data pe) p = Ok (base pe + target_rva)) results
    /\ (forall i p q, results !! i = Some p -> results !! S i = Some q -> p + 8 <= q).
Proof.
  intros [Hwf _]%parse_well_formed Hva. destruct Hwf.
  unfold find_global_pointer_to_rva, pack_Q.
  assert ((0 <=? base pe + target_rva) && (base pe + target_rva <? 2 ^ 64) = true)
    as -> by lia.
  cbn [mbind result_bind mret result_ret].
  destruct (global_pointer_loop_ok
              (Z.to_nat (data_start pe + data_size pe - data_start pe)) (data pe)
              (le_bytes 8 (base pe + target_rva)) (data_start pe) (data_start pe)
              (data_start pe + data_size pe) [])
    as (results & -> & Hall & Hgap); [done | lia.. | constructor | constructor | |].
  { intros i p q Hp. by rewrite lookup_nil in Hp. }
  exists results. split; [done|]. split; [|done].
  eapply Forall_impl; [exact Hall|]. cbv beta.
  intros p (Hlo & Hhi & Hslice). split_and!; [done..|].
  pose proof (len_nonneg (data pe)).
  assert (p + 8 <= len (data pe)) as Hin.
  { destruct (decide (p + 8 <= len (data pe))) as [|Hout]; [done|].
    apply (f_equal length) in Hslice. revert Hslice.
    unfold slice, clamp. rewrite length_le_bytes.
    assert ((p <? 0) = false) as -> by lia.
    assert ((p + 8 <? 0) = false) as -> by lia.
    rewrite length_take, length_drop. unfold len in *. lia. }
  unfold unpack_Q, unpack_bytes.
  assert ((p <? 0) = false) as -> by lia.
  assert ((len (data pe) - p <? 8) = false) as -> by lia.
  cbn [mbind result_bind mret result_ret]. f_equal.
  assert (take (Z.to_nat 8) (drop (Z.to_nat p) (data pe)) = slice (data pe) p (p + 8)) as ->.
  { unfold slice, clamp.
    assert ((p <? 0) = false) as -> by lia.
    assert ((p + 8 <? 0) = false) as -> by lia.
    replace (Z.min (p + 8) (len (data pe))) with (p + 8) by lia.
    replace (Z.min p (len (data pe))) with p by lia.
    f_equal. lia. }
  rewrite Hslice. apply (le_to_Z_le_bytes 8). lia.
Qed.

Lemma find_global_pointer_positions_witness :
  exists results,
    find_global_pointer_to_rva (parsed image_unaligned_global) 0x1000 = Ok (Some results)
    /\ Forall (fun p => data_start (parsed image_unaligned_global) <= p
                 /\ p + 8 <= data_start (parsed image_unaligned_global)
                             + data_size (parsed image_unaligned_global)
                 /\ slice (data (parsed image_unaligned_global)) p (p + 8)
                    = le_bytes 8 (base (parsed image_unaligned_global) + 0x1000)
                 /\ unpack_Q (data (parsed image_unaligned_global)) p
                    = Ok (base (parsed image_unaligned_global) + 0x1000)) results
    /\ (forall i p q, results !! i = Some p -> results !! S i = Some q -> p + 8 <= q).
Proof.
  apply (find_global_pointer_positions image_unaligned_global);
    [vm_compute; reflexivity | vm_compute; split; [discriminate | reflexivity]].
Defined.

(** C9 as stated fails: the only position returned for this parsed image
    is file offset 161, one byte after the start of the mutable-data region
    at 160, so it is 8-byte aligned neither in the region nor in the file. *)
Lemma find_global_pointer_unaligned_counterexample :
  let pe := parsed image_unaligned_global in
  parse image_unaligned_global = Ok pe
  /\ data_start pe = 160
  /\ find_global_pointer_to_rva pe 0x1000 = Ok (Some [161])
  /\ (161 - data_start pe) mod 8 <> 0
  /\ 161 mod 8 <> 0.
Proof.
  cbv zeta. split_and!; [vm_compute; reflexivity.. | vm_compute; discriminate
                        | vm_compute; discriminate].
Qed.

(** ** Structure offset discovery *)












(** On a body whose first and last recognized instructions both use
    displacement 0x10, the returned mapping holds the tag of the last. *)
Lemma extract_struct_offsets_collision :
  exists m,
    extract_struct_offsets_from_function (init body_collision) 0 = Ok (Some m)
    /\ m !! 0x10 = Some "LEA r6, [r7+0x10]"
    /\ m !! 0x120 = Some "MOV_STORE r3, [r2+0x120]".
Proof. eexists. split; [vm_compute; reflexivity|]. split; reflexivity. Qed.

(** ** Function boundary recovery *)

Lemma range_down_cons (hi lo : Z) :
  lo < hi -> range_down hi lo = hi :: range_down (hi - 1) lo.
Proof.
  intros Hlt. unfold range_down.
  replace (Z.to_nat (hi - lo)) with (S (Z.to_nat (hi - 1 - lo))) by lia.
  simpl. f_equal; [lia|].
  rewrite <- seq_shift, map_map. apply map_ext. intros k. lia.
Qed.

(** A backward scan returns at the first position whose body returns. *)
Lemma first_return_down (body : Z -> result (option Z)) (n : nat) (hi lo m v : Z) :
  Z.to_nat (hi - m) = n -> lo < m <= hi ->
  (forall j, m < j <= hi -> body j = Ok None) ->
  body m = Ok (Some v) ->
  first_return body (range_down hi lo) = Ok (Some v).
Proof.
  revert hi. induction n as [|n IH]; intros hi Hn Hm Hnone Hsome.
  - assert (hi = m) as -> by lia.
    rewrite range_down_cons by lia. simpl. by rewrite Hsome.
  - rewrite range_down_cons by lia. simpl. rewrite Hnone by lia. simpl.
    apply IH; [lia..| |done]. intros j Hj. apply Hnone. lia.
Qed.

(** C4, as the code has it: when a RET is followed by two trap (0xCC)
    padding bytes and a prologue, all inside the search window, and no byte
    of the function up to the queried interior offset is a 0xCC or 0xC3,
    the first strategy resolves the query to the prologue start, and so
    does [find_function_start]. *)
Theorem find_function_start_tier1 (pe : PEParser) (r offset : Z) :
  getitem (data pe) r = Ok 0xC3 ->
  getitem (data pe) (r + 1) = Ok 0xCC ->
  getitem (data pe) (r + 2) = Ok 0xCC ->
  _is_prologue pe (r + 3) = Ok true ->
  text_start pe <= r ->
  r + 3 < offset <= r + 2048 ->
  (forall j, r + 3 <= j < offset ->
     exists b, getitem (data pe) j = Ok b /\ b <> 0xCC /\ b <> 0xC3) ->
  strategy strategy1_body pe offset 2048 = Ok (Some (r + 3))
  /\ find_function_start pe offset = Ok (Some (r + 3)).
Proof.
  intros Hret Hpad1 Hpad2 Hpro Htext Hoff Hbody.
  assert (strategy strategy1_body pe offset 2048 = Ok (Some (r + 3))) as H1.
  { unfold strategy.
    apply (first_return_down _ (Z.to_nat (offset - 1 - (r + 2))) _ _ (r + 2));
      [done | lia | |].
    - intros j Hj. unfold strategy1_body.
      destruct (Hbody j) as (b & -> & Hcc & Hc3); [lia|]. simpl.
      unfold is_in. simpl.
      assert ((b =? 204) = false) as -> by lia.
      assert ((b =? 195) = false) as -> by lia. reflexivity.
    - unfold strategy1_body. rewrite Hpad2. simpl.
      replace (r + 2 + 1) with (r + 3) by lia.
      destruct (Hbody (r + 3)) as (b & Hb & Hcc & _); [lia|].
      destruct (Z.to_nat (offset - (r + 3))) as [|n] eqn:En; [lia|]. simpl.
      rewrite Hb. simpl. assert ((b =? 204) = false) as -> by lia. simpl.
      assert ((r + 3 <? offset) = true) as -> by lia.
      rewrite Hpro. reflexivity. }
  split; [done|]. unfold find_function_start, find_function_start_max.
  rewrite H1. reflexivity.
Qed.

Lemma find_function_start_tier1_witness :
  strategy strategy1_body (parsed image_trap_padding) 180 2048 = Ok (Some 164)
  /\ find_function_start (parsed image_trap_padding) 180 = Ok (Some 164).
Proof.
  apply (find_function_start_tier1 (parsed image_trap_padding) 161 180);
    [reflexivity | reflexivity | reflexivity | reflexivity
    | vm_compute; discriminate | lia |].
  intros j Hj.
  assert (exists k, (k < 16)%nat /\ j = 164 + Z.of_nat k) as (k & Hk & ->).
  { exists (Z.to_nat (j - 164)). lia. }
  do 16 (destruct k as [|k];
         [eexists; split; [vm_compute; reflexivity | split; discriminate]|]).
  lia.
Defined.

(** C4 as stated fails: with NOP (0x90) bytes between the RET and the
    prologue, the first strategy resolves nothing for an interior offset
    (it skips only 0xCC after a terminator); a query 19 bytes into the
    function is answered by the third strategy, and a query 280 bytes into
    it is not resolved at all. *)
Lemma find_function_start_nop_counterexample :
  let pe := parsed image_nop_padding in
  parse image_nop_padding = Ok pe
  /\ slice (data pe) 161 168 = [xc3; x90; x90; x48; x83; xec; x28]
  /\ _is_prologue pe 164 = Ok true
  /\ strategy strategy1_body pe 183 2048 = Ok None
  /\ strategy strategy2_body pe 183 2048 = Ok None
  /\ strategy strategy3_body pe 183 2048 = Ok (Some 164)
  /\ strategy strategy1_body pe 444 2048 = Ok None
  /\ find_function_start pe 444 = Ok None.
Proof.
  cbv zeta. split_and!; vm_compute; reflexivity.
Qed.

(** ** Vtable scanning *)

Lemma range_step_24 : range_step 0 (32 - 8) 8 = [0; 8; 16].
Proof. reflexivity. Qed.

(** C8, as the code has it: for a read-only-data region laid out as
    [non-code word][funcA][funcB][funcC], scanning for the three function
    addresses raises nothing; every match returned has the funcA slot as its
    table start and carries the index and the RVA of the slot it was found
    at; the match for funcA (index 0) and the match for funcB (index 1) are
    returned. A match has no run-length field. *)
Theorem scan_vtable_table_start (pe : PEParser) (nc a b c : Z) :
  len (rdata_region pe) = 32 ->
  unpack_Q (rdata_region pe) 0 = Ok nc ->
  unpack_Q (rdata_region pe) 8 = Ok (base pe + a) ->
  unpack_Q (rdata_region pe) 16 = Ok (base pe + b) ->
  unpack_Q (rdata_region pe) 24 = Ok (base pe + c) ->
  0 <= text_rva pe ->
  in_text pe a -> in_text pe b -> in_text pe c ->
  ~ in_text pe (word_rva pe nc) ->
  exists results,
    scan_vtable_in_rdata pe [a; b; c] = Ok results
    /\ mk_vtable_match (rdata_rva pe + 8) (rdata_start pe + 8) 0 a ∈ results
    /\ mk_vtable_match (rdata_rva pe + 8) (rdata_start pe + 8) 1 b ∈ results
    /\ (forall m, m ∈ results ->
          vtable_rva m = rdata_rva pe + 8
          /\ vtable_offset m = rdata_start pe + 8
          /\ ((matched_at_index m = 0 /\ matched_rva m = a)
              \/ (matched_at_index m = 1 /\ matched_rva m = b)
              \/ (matched_at_index m = 2 /\ matched_rva m = c))).
Proof.
  unfold rdata_region, in_text, word_rva.
  intros Hlen H0 H8 H16 H24 Htext Ha Hb Hc Hnc.
  assert (forall x, text_rva pe <= x < text_rva pe + text_size pe ->
                    (if base pe <? base pe + x then base pe + x - base pe else 0) = x)
    as Hrva.
  { intros x Hx. destruct (base pe <? base pe + x) eqn:?; lia. }
  assert (forall x, text_rva pe <= x < text_rva pe + text_size pe ->
                    (text_rva pe <=? x) && (x <? text_rva pe + text_size pe) = true)
    as Hin by (intros; lia).
  assert (nc <> base pe + a /\ nc <> base pe + b /\ nc <> base pe + c) as (Na & Nb & Nc).
  { split_and!; intros ->; rewrite Hrva in Hnc by done; done. }
  exists [mk_vtable_match (rdata_rva pe + 8) (rdata_start pe + 8) 0 a;
          mk_vtable_match (rdata_rva pe + 8) (rdata_start pe + 8) 1 b].
  split.
  - unfold scan_vtable_in_rdata. rewrite Hlen, range_step_24.
    unfold for_each, vtable_body, _find_vtable_start.
    rewrite H0. cbn [mbind result_bind].
    rewrite bool_decide_eq_false_2.
    2:{ rewrite elem_of_list_to_set. simpl.
        rewrite !elem_of_cons, elem_of_nil. intros [?|[?|[?|[]]]]; done. }
    cbn [mbind result_bind mret result_ret]. rewrite H8. cbn [mbind result_bind].
    rewrite bool_decide_eq_true_2.
    2:{ rewrite elem_of_list_to_set. simpl. rewrite !elem_of_cons. by left. }
    change (Z.to_nat (8 / 8)) with 1%nat. cbn [vtable_start_loop].
    replace (8 - 8) with 0 by lia. rewrite H0. cbn [mbind result_bind].
    destruct ((text_rva pe <=? (if base pe <? nc then nc - base pe else 0))
              && ((if base pe <? nc then nc - base pe else 0)
                  <? text_rva pe + text_size pe)) eqn:E; [lia|].
    cbn [mbind result_bind mret result_ret]. rewrite H16. cbn [mbind result_bind].
    rewrite bool_decide_eq_true_2.
    2:{ rewrite elem_of_list_to_set. simpl. rewrite !elem_of_cons. right. by left. }
    change (Z.to_nat (16 / 8)) with 2%nat. cbn [vtable_start_loop].
    replace (16 - 8) with 8 by lia. rewrite H8. cbn [mbind result_bind].
    rewrite (Hrva a Ha), (Hin a Ha).
    replace (8 - 8) with 0 by lia. rewrite H0. cbn [mbind result_bind]. rewrite E.
    cbn [mbind result_bind mret result_ret app].
    change ((8 - 8) / 8) with 0. change ((16 - 8) / 8) with 1.
    replace (base pe + a - base pe) with a by lia.
    replace (base pe + b - base pe) with b by lia. reflexivity.
  - split; [left|]. split; [right; left|].
    intros m Hm. rewrite !elem_of_cons, elem_of_nil in Hm.
    destruct Hm as [->|[->|[]]]; simpl; (split; [done|]; split; [done|]);
      [left | right; left]; done.
Qed.

Lemma scan_vtable_table_start_witness :
  exists results,
    scan_vtable_in_rdata (parsed image_vtable) [0x1000; 0x1010; 0x1020] = Ok results
    /\ mk_vtable_match (rdata_rva (parsed image_vtable) + 8)
         (rdata_start (parsed image_vtable) + 8) 0 0x1000 ∈ results
    /\ mk_vtable_match (rdata_rva (parsed image_vtable) + 8)
         (rdata_start (parsed image_vtable) + 8) 1 0x1010 ∈ results
    /\ (forall m, m ∈ results ->
          vtable_rva m = rdata_rva (parsed image_vtable) + 8
          /\ vtable_offset m = rdata_start (parsed image_vtable) + 8
          /\ ((matched_at_index m = 0 /\ matched_rva m = 0x1000)
              \/ (matched_at_index m = 1 /\ matched_rva m = 0x1010)
              \/ (matched_at_index m = 2 /\ matched_rva m = 0x1020))).
Proof.
  assert (text_rva (parsed image_vtable) = 0x1000) as Hrva by (vm_compute; reflexivity).
  assert (text_size (parsed image_vtable) = 64) as Hsize by (vm_compute; reflexivity).
  apply (scan_vtable_table_start (parsed image_vtable) 0 0x1000 0x1010 0x1020);
    try (vm_compute; reflexivity);
    unfold in_text; rewrite ?Hrva, ?Hsize; try lia.
  change (word_rva (parsed image_vtable) 0) with 0. lia.
Defined.

(** C8 as stated fails: scanning the parsed image whose read-only data is
    [null][funcA][funcB][funcC] for the three functions returns two matches,
    both starting at the funcA slot (file offset 272), with indices 0 and 1;
    a match has the four fields shown and none of them carries a run length
    of 3. *)
Lemma scan_vtable_run_length_counterexample :
  let pe := parsed image_vtable in
  parse image_vtable = Ok pe
  /\ scan_vtable_in_rdata pe [0x1000; 0x1010; 0x1020]
     = Ok [mk_vtable_match 0x2008 272 0 0x1000; mk_vtable_match 0x2008 272 1 0x1010]
  /\ (forall results m,
        scan_vtable_in_rdata pe [0x1000; 0x1010; 0x1020] = Ok results ->
        m ∈ results ->
        vtable_rva m <> 3 /\ vtable_offset m <> 3
        /\ matched_at_index m <> 3 /\ matched_rva m <> 3).
Proof.
  cbv zeta. split; [vm_compute; reflexivity|].
  assert (scan_vtable_in_rdata (parsed image_vtable) [0x1000; 0x1010; 0x1020]
          = Ok [mk_vtable_match 0x2008 272 0 0x1000; mk_vtable_match 0x2008 272 1 0x1010])
    as Hscan by (vm_compute; reflexivity).
  split; [exact Hscan|].
  intros results m Hres Hm. rewrite Hscan in Hres. injection Hres as <-.
  rewrite !elem_of_cons, elem_of_nil in Hm.
  destruct Hm as [->|[->|[]]]; simpl; lia.
Qed.

(** ** String search *)

Lemma slice_take_drop {A : Type} (d : list A) (p n : Z) :
  0 <= p -> 0 <= n -> p + n <= len d ->
  slice d p (p + n) = take (Z.to_nat n) (drop (Z.to_nat p) d).
Proof.
  intros Hp Hn Hle. unfold slice, clamp.
  assert ((p <? 0) = false) as -> by lia.
  assert ((p + n <? 0) = false) as -> by lia.
  replace (Z.min (p + n) (len d)) with (p + n) by lia.
  replace (Z.min p (len d)) with p by lia.
  f_equal. lia.
Qed.

Lemma occurs_at_take (d sub : list byte) (p : Z) :
  occurs_at d sub p <->
  0 <= p /\ p + len sub <= len d
  /\ take (length sub) (drop (Z.to_nat p) d) = sub.
Proof.
  unfold occurs_at. split; intros (Hp & Hle & Heq); (split; [done|]; split; [done|]).
  - rewrite slice_take_drop in Heq by (try done; apply len_nonneg).
    by replace (Z.to_nat (len sub)) with (length sub) in Heq by (unfold len; lia).
  - rewrite slice_take_drop by (try done; apply len_nonneg).
    by replace (Z.to_nat (len sub)) with (length sub) by (unfold len; lia).
Qed.

(** [find_in] over consecutive candidates returns the first match. *)
Lemma find_in_seq (d sub : list byte) (a : Z) (N s : nat) :
  0 <= a ->
  let r := find_in d sub (map (fun k => a + Z.of_nat k) (seq s N)) in
  (r = -1
   /\ forall k, (s <= k < s + N)%nat ->
        take (length sub) (drop (Z.to_nat (a + Z.of_nat k)) d) <> sub)
  \/ (exists k, (s <= k < s + N)%nat /\ r = a + Z.of_nat k
        /\ take (length sub) (drop (Z.to_nat r) d) = sub
        /\ forall k', (s <= k' < k)%nat ->
             take (length sub) (drop (Z.to_nat (a + Z.of_nat k')) d) <> sub).
Proof.
  intros Ha. revert s. induction N as [|N IH]; intros s; simpl.
  - left. split; [done|]. intros k Hk. lia.
  - unfold bytes_eqb. case_bool_decide as Heq.
    + right. exists s. split; [lia|]. split; [done|]. split; [done|]. intros k' Hk'. lia.
    + destruct (IH (S s)) as [[Hr Hnone]|(k & Hk & Hr & Hm & Hfirst)].
      * left. split; [done|]. intros k Hk.
        destruct (decide (k = s)) as [->|Hne]; [done|]. apply Hnone. lia.
      * right. exists k. split; [lia|]. split; [done|]. split; [done|].
        intros k' Hk'. destruct (decide (k' = s)) as [->|Hne]; [done|]. apply Hfirst. lia.
Qed.

Lemma find_from_spec (d sub : list byte) (start : Z) :
  0 <= start ->
  (find_from d sub start = -1 /\ forall p, start <= p -> ~ occurs_at d sub p)
  \/ (start <= find_from d sub start
      /\ occurs_at d sub (find_from d sub start)
      /\ forall p, start <= p < find_from d sub start -> ~ occurs_at d sub p).
Proof.
  intros Hstart. unfold find_from.
  assert ((start <? 0) = false) as -> by lia.
  pose proof (len_nonneg sub) as Hsub.
  destruct (len d - start <? len sub) eqn:Hroom.
  { left. split; [done|]. intros p Hp (_ & Hle & _). lia. }
  set (N := Z.to_nat (len d - len sub - start + 1)).
  destruct (find_in_seq d sub start N 0 Hstart) as [[Hr Hnone]|(k & Hk & Hr & Hm & Hfirst)].
  - left. split; [done|]. intros p Hp Hocc. apply occurs_at_take in Hocc as (_ & Hle & Hocc).
    apply (Hnone (Z.to_nat (p - start))); [lia|].
    by replace (start + Z.of_nat (Z.to_nat (p - start))) with p by lia.
  - right. rewrite Hr in *. split; [lia|]. split.
    + apply occurs_at_take. split; [lia|]. split; [lia | done].
    + intros p Hp Hocc. apply occurs_at_take in Hocc as (_ & Hle & Hocc).
      apply (Hfirst (Z.to_nat (p - start))); [lia|].
      by replace (start + Z.of_nat (Z.to_nat (p - start))) with p by lia.
Qed.

Lemma find_all_loop_spec (fuel : nat) (d target : list byte) (start : Z) (rs : list Z) :
  0 <= start -> 1 <= Z.of_nat fuel -> len d - start + 2 <= Z.of_nat fuel ->
  exists rs',
    find_all_loop fuel d target start rs = Some (rs ++ rs')
    /\ StronglySorted Z.lt rs'
    /\ forall p, p ∈ rs' <-> start <= p /\ occurs_at d target p.
Proof.
  revert start rs. induction fuel as [|fuel IH]; intros start rs Hstart Hone Hfuel; [lia|].
  simpl.
  destruct (find_from_spec d target start Hstart) as [[Hr Hnone]|(Hge & Hocc & Hfirst)].
  - rewrite Hr. simpl. exists []. rewrite app_nil_r. split; [done|]. split; [constructor|].
    intros p. split; [by intros ?%elem_of_nil|]. intros [Hp Hoccp]. by apply Hnone in Hoccp.
  - set (idx := find_from d target start) in *.
    assert ((idx =? -1) = false) as -> by lia.
    assert (idx <= len d) as Hidx.
    { destruct Hocc as (_ & Hle & _). pose proof (len_nonneg target). lia. }
    destruct (IH (idx + 1) (rs ++ [idx])) as (rs' & -> & Hsorted & Hmem); [lia..|].
    exists (idx :: rs'). split; [by rewrite <- app_assoc|]. split.
    + constructor; [done|]. apply list.Forall_forall. intros p Hp.
      apply Hmem in Hp. lia.
    + intros p. rewrite elem_of_cons, Hmem. split.
      * intros [->|[Hp Hoccp]]; [done|]. split; [lia | done].
      * intros [Hp Hoccp]. destruct (decide (p = idx)) as [|Hne]; [by left | right].
        split; [|done]. destruct (decide (idx + 1 <= p)) as [|Hlt]; [done|].
        exfalso. apply (Hfirst p); [lia | done].
Qed.

(** X1: [find_string] returns, in increasing order and each exactly once, the
    offsets at which the target occurs in the file (overlapping occurrences
    included); for the empty target that is every offset from 0 to the file
    length. *)
Theorem find_string_occurrences (pe : PEParser) (target : list byte) :
  exists results,
    find_string pe target = Some results
    /\ StronglySorted Z.lt results
    /\ (forall p, p ∈ results <-> occurs_at (data pe) target p)
    /\ (target = [] -> forall p, p ∈ results <-> 0 <= p <= len (data pe)).
Proof.
  unfold find_string.
  destruct (find_all_loop_spec (length (data pe) + 2) (data pe) target 0 [])
    as (rs & Hrs & Hsorted & Hmem); [lia | lia | unfold len; lia |].
  exists rs. split; [done|]. split; [done|].
  assert (forall p, p ∈ rs <-> occurs_at (data pe) target p) as Hiff.
  { intros p. rewrite Hmem. split; [by intros [_ ?] | intros Hocc; split; [|done]].
    by destruct Hocc. }
  split; [done|]. intros -> p. rewrite Hiff. unfold occurs_at.
  change (len []) with 0. rewrite Z.add_0_r. split.
  - intros (? & ? & _). lia.
  - intros [Hp Hle]. split; [done|]. split; [done|].
    rewrite <- (Z.add_0_r p) at 2. rewrite slice_take_drop by lia. done.
Qed.

(** ** Bounds-checked reads *)

Lemma byte_of_Z_byteZ (b : byte) : byte_of_Z (byteZ b) = b.
Proof.
  unfold byte_of_Z. pose proof (byteZ_range b) as Hr.
  rewrite Z.mod_small by done. unfold byteZ. rewrite N2Z.id.
  by rewrite Byte.of_to_N.
Qed.

Lemma le_bytes_le_to_Z (bs : list byte) : le_bytes (length bs) (le_to_Z bs) = bs.
Proof.
  induction bs as [|b bs IH]; simpl; [done|].
  pose proof (byteZ_range b) as Hr.
  assert ((byteZ b + 256 * le_to_Z bs) / 256 = le_to_Z bs) as ->.
  { rewrite Z.add_comm, Z.mul_comm, Z.div_add_l by lia. rewrite Z.div_small by lia. lia. }
  rewrite IH. f_equal.
  assert ((byteZ b + 256 * le_to_Z bs) mod 256 = byteZ b) as Hmod.
  { rewrite Z.mul_comm, Z.mod_add by lia. apply Z.mod_small. lia. }
  unfold byte_of_Z. rewrite Hmod. unfold byteZ. rewrite N2Z.id.
  by rewrite Byte.of_to_N.
Qed.

(** X2: For a non-negative offset [read_u32] and [read_i32] never raise: they
    return [None] exactly when fewer than four bytes remain, and otherwise
    the same 32-bit word, unsigned in [0, 2^32) and in two's complement. *)
Theorem read_u32_i32 (pe : PEParser) (offset : Z) :
  0 <= offset ->
  (len (data pe) < offset + 4 ->
   read_u32 pe offset = Ok None /\ read_i32 pe offset = Ok None)
  /\ (offset + 4 <= len (data pe) ->
      exists u, read_u32 pe offset = Ok (Some u)
        /\ 0 <= u < 2 ^ 32
        /\ read_i32 pe offset = Ok (Some (if u <? 2 ^ 31 then u else u - 2 ^ 32))).
Proof.
  intros Hoff. unfold read_u32, read_i32. split.
  - intros Hshort. by assert ((offset + 4 <=? len (data pe)) = false) as -> by lia.
  - intros Hfits. assert ((offset + 4 <=? len (data pe)) = true) as -> by lia.
    unfold unpack_I, unpack_i.
    destruct (unpack_bytes_ok 4 (data pe) offset) as (bs & -> & Hbs); [lia..|].
    pose proof (le_to_Z_range bs) as Hr. rewrite Hbs in Hr.
    exists (le_to_Z bs). simpl. split; [reflexivity|]. split; [lia | reflexivity].
Qed.

Lemma read_u32_i32_witness :
  read_u32 (parsed image_pe64) 0x3C = Ok (Some 0x40)
  /\ read_i32 (parsed image_pe64) 0x3C = Ok (Some 0x40).
Proof.
  destruct (read_u32_i32 (parsed image_pe64) 0x3C) as [_ H]; [lia|].
  destruct H as (u & Hu & _ & Hi); [vm_compute; discriminate|].
  rewrite Hi, Hu. vm_compute in Hu. injection Hu as <-. split; reflexivity.
Defined.

(** X3: [read_pointer] gives back a value that [struct.pack('<Q', v)] wrote:
    when the 8 packed bytes lie in the file at a non-negative offset, the
    read at that offset returns [v]. *)
Theorem read_pointer_pack_Q (pe : PEParser) (offset v : Z) (bs : list byte) :
  0 <= offset ->
  pack_Q v = Ok bs ->
  slice (data pe) offset (offset + 8) = bs ->
  read_pointer pe offset = Ok (Some v)
  /\ 0 <= v < 2 ^ 64.
Proof.
  intros Hoff Hpack Hslice. unfold pack_Q in Hpack.
  destruct ((0 <=? v) && (v <? 2 ^ 64)) eqn:Hv; [|discriminate].
  assert (bs = le_bytes 8 v) as -> by congruence. clear Hpack. split; [|lia].
  assert (offset + 8 <= len (data pe)) as Hfits.
  { pose proof (f_equal length Hslice) as Hl. rewrite length_le_bytes in Hl.
    revert Hl. unfold slice, clamp. pose proof (len_nonneg (data pe)).
    assert ((offset <? 0) = false) as -> by lia.
    assert ((offset + 8 <? 0) = false) as -> by lia.
    rewrite length_take, length_drop. unfold len in *. lia. }
  unfold read_pointer, unpack_Q, unpack_bytes.
  assert ((offset + 8 <=? len (data pe)) = true) as -> by lia.
  assert ((offset <? 0) = false) as -> by lia.
  assert ((len (data pe) - offset <? 8) = false) as -> by lia.
  cbn [mbind result_bind mret result_ret]. do 2 f_equal.
  rewrite slice_take_drop in Hslice by lia. rewrite Hslice.
  apply (le_to_Z_le_bytes 8). lia.
Qed.

Lemma read_pointer_pack_Q_witness :
  read_pointer (parsed image_vtable) 272 = Ok (Some 0x140001000)
  /\ 0 <= 0x140001000 < 2 ^ 64.
Proof.
  apply (read_pointer_pack_Q (parsed image_vtable) 272 0x140001000
           (le_bytes 8 0x140001000)); [lia | reflexivity | vm_compute; reflexivity].
Defined.

(** X4: The bounds test of the readers does not cover negative offsets: for an
    offset between -7 and -1 the test [offset + 8 <= len(data)] passes on
    any file of at least 7 bytes and [struct.unpack_from] then raises
    struct.error; from -len(data) to -8 the read succeeds and takes the 8
    bytes that start that far before the end of the file. *)
Theorem read_pointer_negative_offset (pe : PEParser) (offset : Z) :
  (-8 < offset < 0 -> offset + 8 <= len (data pe) ->
   read_pointer pe offset = Raise StructError)
  /\ (- len (data pe) <= offset <= -8 ->
      read_pointer pe offset = read_pointer pe (offset + len (data pe))
      /\ exists v, read_pointer pe offset = Ok (Some v)).
Proof.
  unfold read_pointer, unpack_Q, unpack_bytes. split.
  - intros Hoff Hfits.
    assert ((offset + 8 <=? len (data pe)) = true) as -> by lia.
    assert ((offset <? 0) = true) as -> by lia.
    by assert ((0 <? offset + 8) = true) as -> by lia.
  - intros Hoff. pose proof (len_nonneg (data pe)).
    assert ((offset + 8 <=? len (data pe)) = true) as -> by lia.
    assert ((offset + len (data pe) + 8 <=? len (data pe)) = true) as -> by lia.
    assert ((offset <? 0) = true) as -> by lia.
    assert ((0 <? offset + 8) = false) as -> by lia.
    assert ((offset + len (data pe) <? 0) = false) as -> by lia.
    assert ((len (data pe) - (offset + len (data pe)) <? 8) = false) as -> by lia.
    simpl. split; [done | by eexists].
Qed.

Lemma read_pointer_negative_offset_witness :
  read_pointer (parsed image_pe64) (-4) = Raise StructError
  /\ read_pointer (parsed image_pe64) (-8) = read_pointer (parsed image_pe64) 168.
Proof.
  destruct (read_pointer_negative_offset (parsed image_pe64) (-4)) as [H1 _].
  destruct (read_pointer_negative_offset (parsed image_pe64) (-8)) as [_ H2].
  split.
  - apply H1; [lia | vm_compute; discriminate].
  - apply H2. vm_compute. split; discriminate.
Defined.

(** ** Runs of packed addresses *)

Lemma occurs_at_app (d a b : list byte) (p : Z) :
  occurs_at d (a ++ b) p <-> occurs_at d a p /\ occurs_at d b (p + len a).
Proof.
  rewrite !occurs_at_take. unfold len. rewrite length_app.
  pose proof (len_nonneg a). pose proof (len_nonneg b). unfold len in *.
  split.
  - intros (Hp & Hle & Heq).
    rewrite <- take_take_drop, drop_drop in Heq.
    apply app_inj_1 in Heq as [Ha Hb].
    2:{ rewrite length_take, length_drop. lia. }
    split; [split; [done|]; split; [lia | done]|].
    split; [lia|]. split; [lia|].
    by replace (Z.to_nat (p + Z.of_nat (length a))) with (Z.to_nat p + length a)%nat by lia.
  - intros [(Hp & Hle & Ha) (_ & Hle' & Hb)].
    split; [done|]. split; [lia|].
    rewrite <- take_take_drop, drop_drop, Ha.
    replace (Z.to_nat (p + Z.of_nat (length a))) with (Z.to_nat p + length a)%nat in Hb
      by lia.
    by rewrite Hb.
Qed.

(** An 8-byte word occurs at [p] exactly when [unpack_from('<Q')] reads it there. *)
Lemma occurs_at_word (d : list byte) (v p : Z) :
  0 <= v < 2 ^ 64 ->
  occurs_at d (le_bytes 8 v) p <-> 0 <= p /\ unpack_Q d p = Ok v.
Proof.
  intros Hv. rewrite occurs_at_take.
  replace (len (le_bytes 8 v)) with 8 by (unfold len; by rewrite length_le_bytes).
  rewrite length_le_bytes.
  unfold unpack_Q, unpack_bytes. change (Z.to_nat 8) with 8%nat. split.
  - intros (Hp & Hle & Heq). split; [done|].
    assert ((p <? 0) = false) as -> by lia.
    assert ((len d - p <? 8) = false) as -> by lia.
    cbn [mbind result_bind mret result_ret]. f_equal.
    rewrite Heq. apply (le_to_Z_le_bytes 8). lia.
  - intros [Hp Hread]. assert ((p <? 0) = false) as Hneg by lia. rewrite Hneg in Hread.
    destruct (len d - p <? 8) eqn:Hroom; [discriminate|].
    cbn [mbind result_bind mret result_ret] in Hread.
    split; [done|]. split; [lia|].
    assert (length (take 8 (drop (Z.to_nat p) d)) = 8%nat) as Hlen.
    { rewrite length_take, length_drop. unfold len in *. lia. }
    assert (le_to_Z (take 8 (drop (Z.to_nat p) d)) = v) as Hval
      by (simpl in Hread; by injection Hread).
    rewrite <- Hval. rewrite <- Hlen at 2. symmetry. apply le_bytes_le_to_Z.
Qed.

Lemma pack_rvas_ok (pe : PEParser) (rva_list : list Z) (target : list byte) :
  Forall (fun r => 0 <= base pe + r < 2 ^ 64) rva_list ->
  pack_rvas pe rva_list target
  = Ok (target ++ concat (map (fun r => le_bytes 8 (base pe + r)) rva_list)).
Proof.
  revert target. induction rva_list as [|r rest IH]; intros target Hall; simpl.
  - by rewrite app_nil_r.
  - apply Forall_cons in Hall as [Hr Hall]. unfold pack_Q.
    assert ((0 <=? base pe + r) && (base pe + r <? 2 ^ 64) = true) as -> by lia.
    cbn [mbind result_bind]. rewrite IH by done. by rewrite <- app_assoc.
Qed.

Lemma occurs_at_words (d : list byte) (vs : list Z) (p : Z) :
  Forall (fun v => 0 <= v < 2 ^ 64) vs ->
  occurs_at d (concat (map (le_bytes 8) vs)) p <->
  0 <= p /\ p + 8 * len vs <= len d
  /\ forall k v, vs !! k = Some v -> unpack_Q d (p + 8 * Z.of_nat k) = Ok v.
Proof.
  revert p. induction vs as [|v vs IH]; intros p Hall.
  - simpl. unfold occurs_at. change (len []) with 0. rewrite Z.add_0_r, Z.mul_0_r.
    split.
    + intros (Hp & Hle & _). split; [done|]. split; [lia|].
      intros k v Hk. by rewrite lookup_nil in Hk.
    + intros (Hp & Hle & _). split; [done|]. split; [lia|].
      rewrite <- (Z.add_0_r p) at 2. by rewrite slice_take_drop by lia.
  - apply Forall_cons in Hall as [Hv Hall].
    change (concat (map (le_bytes 8) (v :: vs)))
      with (le_bytes 8 v ++ concat (map (le_bytes 8) vs)).
    rewrite occurs_at_app, occurs_at_word, IH by done.
    replace (len (le_bytes 8 v)) with 8 by (unfold len; by rewrite length_le_bytes).
    replace (len (v :: vs)) with (len vs + 1) by (unfold len; simpl; lia).
    split.
    + intros [[Hp Hread] (_ & Hle & Hrest)]. split; [done|]. split; [lia|].
      intros [|k] w Hk; simpl in Hk.
      * injection Hk as <-. by rewrite Z.mul_0_r, Z.add_0_r.
      * rewrite <- (Hrest k w Hk). f_equal. lia.
    + intros (Hp & Hle & Hall'). split.
      * split; [done|]. rewrite <- (Hall' 0%nat v eq_refl). f_equal. lia.
      * split; [lia|]. split; [lia|]. intros k w Hk.
        rewrite <- (Hall' (S k) w Hk). f_equal. lia.
Qed.

(** X5: [scan_for_vtable_pattern] returns nothing for fewer than two RVAs;
    otherwise, when every address fits in 64 bits, it returns in increasing
    order exactly the file offsets at which the given addresses stand as
    consecutive little-endian 8-byte words, at any byte alignment and in any
    section. *)
Theorem scan_for_vtable_pattern_runs (pe : PEParser) (rva_list : list Z) :
  ((length rva_list < 2)%nat -> scan_for_vtable_pattern pe rva_list = Ok (Some []))
  /\ ((2 <= length rva_list)%nat ->
      Forall (fun r => 0 <= base pe + r < 2 ^ 64) rva_list ->
      exists results,
        scan_for_vtable_pattern pe rva_list = Ok (Some results)
        /\ StronglySorted Z.lt results
        /\ forall p, p ∈ results <->
             0 <= p
             /\ forall k r, rva_list !! k = Some r ->
                  unpack_Q (data pe) (p + 8 * Z.of_nat k) = Ok (base pe + r)).
Proof.
  unfold scan_for_vtable_pattern. split.
  - intros Hshort. by assert ((len rva_list <? 2) = true) as -> by (unfold len; lia).
  - intros Hlong Hall.
    assert ((len rva_list <? 2) = false) as -> by (unfold len; lia).
    rewrite pack_rvas_ok by done. cbn [mbind result_bind mret result_ret app].
    set (target := concat (map (fun r => le_bytes 8 (base pe + r)) rva_list)).
    destruct (find_all_loop_spec (length (data pe) + 2) (data pe) target 0 [])
      as (rs & Hrs & Hsorted & Hmem); [lia | lia | unfold len; lia |].
    exists rs. split; [by rewrite Hrs|]. split; [done|].
    intros p. rewrite Hmem. unfold target.
    rewrite <- (map_map (fun r => base pe + r) (le_bytes 8)).
    rewrite occurs_at_words.
    2:{ apply Forall_map. eapply Forall_impl; [exact Hall|]. done. }
    split.
    + intros (_ & Hp & _ & Hwords). split; [done|]. intros k r Hk.
      apply Hwords. by rewrite list_lookup_fmap, Hk.
    + intros [Hp Hwords]. split; [done|]. split; [done|]. split.
      * destruct (rva_list !! (length rva_list - 1)%nat) as [r|] eqn:Hlast.
        2:{ apply lookup_ge_None in Hlast. lia. }
        specialize (Hwords _ _ Hlast). unfold unpack_Q, unpack_bytes in Hwords.
        assert ((p + 8 * Z.of_nat (length rva_list - 1) <? 0) = false) as Hn
          by (apply Z.ltb_ge; lia).
        rewrite Hn in Hwords.
        destruct (len (data pe) - (p + 8 * Z.of_nat (length rva_list - 1)) <? 8) eqn:E;
          [discriminate|].
        apply Z.ltb_ge in E. clear Hwords. unfold len in *. rewrite length_map. lia.
      * intros k v Hk. rewrite list_lookup_fmap in Hk.
        destruct (rva_list !! k) as [r|] eqn:Hr; [|discriminate].
        injection Hk as <-. by apply Hwords.
Qed.

Lemma scan_for_vtable_pattern_runs_witness :
  scan_for_vtable_pattern (parsed image_vtable) [0x1000] = Ok (Some [])
  /\ exists results,
       scan_for_vtable_pattern (parsed image_vtable) [0x1000; 0x1010] = Ok (Some results)
       /\ StronglySorted Z.lt results
       /\ forall p, p ∈ results <->
            0 <= p
            /\ forall k r, [0x1000; 0x1010] !! k = Some r ->
                 unpack_Q (data (parsed image_vtable)) (p + 8 * Z.of_nat k)
                 = Ok (base (parsed image_vtable) + r).
Proof.
  split.
  - apply (proj1 (scan_for_vtable_pattern_runs (parsed image_vtable) [0x1000])).
    simpl. lia.
  - apply (proj2 (scan_for_vtable_pattern_runs (parsed image_vtable) [0x1000; 0x1010])).
    + simpl. lia.
    + repeat constructor; vm_compute; discriminate || reflexivity.
Defined.

(** ** Function boundary recovery: what a result means *)

Lemma is_prologue_ok (pe : PEParser) (offset : Z) :
  0 <= offset -> exists b, _is_prologue pe offset = Ok b.
Proof.
  intros Hoff. unfold _is_prologue.
  destruct (len (data pe) <? offset + 5) eqn:E; [by eexists|].
  destruct (getitem_ok (data pe) offset) as (? & -> & _); [lia|].
  destruct (getitem_ok (data pe) (offset + 1)) as (? & -> & _); [lia|].
  destruct (getitem_ok (data pe) (offset + 2)) as (? & -> & _); [lia|].
  destruct (getitem_ok (data pe) (offset + 3)) as (? & -> & _); [lia|].
  by eexists.
Qed.

Lemma skip_trap_ok (d : list byte) (n : nat) (candidate : Z) :
  0 <= candidate -> candidate + Z.of_nat n <= len d ->
  exists c, skip_trap d n candidate = Ok c /\ candidate <= c <= candidate + Z.of_nat n.
Proof.
  revert candidate. induction n as [|n IH]; intros candidate Hc Hle; simpl.
  - exists candidate. split; [done | lia].
  - destruct (getitem_ok d candidate) as (b & -> & _); [lia|]. simpl.
    destruct (b =? 204).
    + destruct (IH (candidate + 1)) as (c & -> & Hrange); [lia..|].
      exists c. split; [done | lia].
    + exists candidate. split; [done | lia].
Qed.

Ltac no_boundary :=
  exists None; split; [reflexivity | intros ? ?; discriminate].

Lemma strategy1_body_ok (pe : PEParser) (offset i : Z) :
  0 <= i < offset -> offset <= len (data pe) ->
  exists r, strategy1_body pe offset i = Ok r /\ boundary_ok pe offset i r.
Proof.
  intros Hi Hlen. unfold strategy1_body, boundary_ok.
  destruct (getitem_ok (data pe) i) as (b & -> & _); [lia|]. cbn [mbind result_bind].
  destruct (is_in b [204; 195]); [|no_boundary].
  destruct (skip_trap_ok (data pe) (Z.to_nat (offset - (i + 1))) (i + 1))
    as (c & -> & Hc); [lia..|]. simpl.
  destruct (c <? offset) eqn:E; [|no_boundary].
  destruct (is_prologue_ok pe c) as ([|] & Hp); [lia| |]; rewrite Hp; simpl.
  - exists (Some c). split; [done|]. intros f [= <-]. split; [lia | done].
  - no_boundary.
Qed.

Lemma strategy2_body_ok (pe : PEParser) (offset i : Z) :
  0 <= i < offset -> offset <= len (data pe) ->
  exists r, strategy2_body pe offset i = Ok r /\ boundary_ok pe offset i r.
Proof.
  intros Hi Hlen. unfold strategy2_body, boundary_ok.
  destruct (is_prologue_ok pe i) as ([|] & Hp); [lia| |]; rewrite Hp; simpl;
    [|no_boundary].
  destruct (offset - i <? 512); [|no_boundary].
  destruct (0 <? i) eqn:E; [|no_boundary].
  destruct (getitem_ok (data pe) (i - 1)) as (b & -> & _); [lia|].
  cbn [mbind result_bind mret result_ret].
  destruct ((b =? 204) || _); [|no_boundary].
  exists (Some i). split; [done|]. intros f [= <-]. split; [lia | done].
Qed.

Lemma strategy3_body_ok (pe : PEParser) (offset i : Z) :
  0 <= i < offset -> offset <= len (data pe) ->
  exists r, strategy3_body pe offset i = Ok r /\ boundary_ok pe offset i r.
Proof.
  intros Hi Hlen. unfold strategy3_body, boundary_ok.
  destruct (is_prologue_ok pe i) as ([|] & Hp); [lia| |]; rewrite Hp; simpl;
    [|no_boundary].
  destruct (offset - i <? 256); [|no_boundary].
  exists (Some i). split; [done|]. intros f [= <-]. split; [lia | done].
Qed.

Lemma first_return_post (body : Z -> result (option Z)) (P : option Z -> Prop)
    (xs : list Z) :
  P None ->
  Forall (fun i => exists r, body i = Ok r /\ P r) xs ->
  exists r, first_return body xs = Ok r /\ P r.
Proof.
  intros Hnone. induction xs as [|i xs IH]; intros Hall; simpl; [by exists None|].
  apply Forall_cons in Hall as [(r & -> & Hr) Hall]. simpl.
  destruct r as [v|]; [by exists (Some v) | by apply IH].
Qed.

Lemma range_down_bounds (hi lo i : Z) : i ∈ range_down hi lo -> lo < i <= hi.
Proof.
  unfold range_down. intros Hi. apply list_elem_of_In, in_map_iff in Hi as (k & <- & Hk).
  apply in_seq in Hk. lia.
Qed.

Lemma strategy_ok (body : PEParser -> Z -> Z -> result (option Z))
    (pe : PEParser) (offset max_search : Z) :
  0 <= text_start pe -> offset <= len (data pe) ->
  (forall i, 0 <= i < offset ->
     exists r, body pe offset i = Ok r /\ boundary_ok pe offset i r) ->
  exists r, strategy body pe offset max_search = Ok r
    /\ forall f, r = Some f ->
         Z.max (text_start pe) (offset - max_search) < f < offset
         /\ _is_prologue pe f = Ok true.
Proof.
  intros Htext Hlen Hbody. unfold strategy.
  apply first_return_post; [done|].
  apply list.Forall_forall. intros i Hi%range_down_bounds.
  destruct (Hbody i) as (r & Hr & Hok); [lia|].
  exists r. split; [done|]. intros f Hf. destruct (Hok f Hf). split; [lia | done].
Qed.

Lemma find_function_start_max_post (pe : PEParser) (offset max_search : Z) :
  0 <= text_start pe -> offset <= len (data pe) ->
  exists r,
    find_function_start_max pe offset max_search = Ok r
    /\ forall f, r = Some f ->
         text_start pe < f < offset
         /\ 0 < offset - f < max_search
         /\ _is_prologue pe f = Ok true.
Proof.
  intros Htext Hlen. unfold find_function_start_max.
  assert (forall r : option Z,
            (forall f, r = Some f ->
               Z.max (text_start pe) (offset - max_search) < f < offset
               /\ _is_prologue pe f = Ok true) ->
            forall f, r = Some f ->
              text_start pe < f < offset /\ 0 < offset - f < max_search
              /\ _is_prologue pe f = Ok true) as Hpost.
  { intros r Hr f Hf. destruct (Hr f Hf). split; [lia|]. split; [lia | done]. }
  destruct (strategy_ok strategy1_body pe offset max_search Htext Hlen)
    as (r1 & -> & H1); [intros; by apply strategy1_body_ok|]. simpl.
  destruct r1 as [f1|]; [exists (Some f1); split; [done | by apply Hpost]|].
  destruct (strategy_ok strategy2_body pe offset max_search Htext Hlen)
    as (r2 & -> & H2); [intros; by apply strategy2_body_ok|]. simpl.
  destruct r2 as [f2|]; [exists (Some f2); split; [done | by apply Hpost]|].
  destruct (strategy_ok strategy3_body pe offset max_search Htext Hlen)
    as (r3 & -> & H3); [intros; by apply strategy3_body_ok|].
  exists r3. split; [done | by apply Hpost].
Qed.

(** X6: For an offset inside the file, [find_function_start] raises nothing,
    and a function start it returns passes [_is_prologue], lies strictly
    before the queried offset, after the start of the code section and less
    than [max_search] bytes back. *)
Theorem find_function_start_result (pe : PEParser) (offset max_search : Z) :
  0 <= text_start pe -> offset <= len (data pe) ->
  exists r,
    find_function_start_max pe offset max_search = Ok r
    /\ forall f, r = Some f ->
         text_start pe < f < offset
         /\ 0 < offset - f < max_search
         /\ _is_prologue pe f = Ok true.
Proof. apply find_function_start_max_post. Qed.

Lemma find_function_start_result_witness :
  exists r,
    find_function_start_max (parsed image_end_to_end) 208 2048 = Ok r
    /\ forall f, r = Some f ->
         text_start (parsed image_end_to_end) < f < 208
         /\ 0 < 208 - f < 2048
         /\ _is_prologue (parsed image_end_to_end) f = Ok true.
Proof.
  apply (find_function_start_result (parsed image_end_to_end) 208 2048);
    vm_compute; discriminate.
Defined.

(** X7: A query past the end of the file raises IndexError: the first byte the
    backward scan reads is [d[offset - 1]]. *)
Theorem find_function_start_past_end (pe : PEParser) (offset max_search : Z) :
  len (data pe) < offset ->
  Z.max (text_start pe) (offset - max_search) < offset - 1 ->
  find_function_start_max pe offset max_search = Raise IndexError.
Proof.
  intros Hpast Hrange. pose proof (len_nonneg (data pe)).
  unfold find_function_start_max, strategy.
  rewrite range_down_cons by done. simpl. unfold strategy1_body, getitem.
  assert ((offset - 1 <? 0) = false) as -> by lia.
  by assert ((0 <=? offset - 1) && (offset - 1 <? len (data pe)) = false) as -> by lia.
Qed.

Lemma find_function_start_past_end_witness :
  find_function_start_max (parsed image_end_to_end) 400 2048 = Raise IndexError.
Proof.
  apply find_function_start_past_end; vm_compute; reflexivity.
Defined.


(** ** Container parsing: the section table *)

Lemma parse_section_count (section_offset : Z) (pe pe' : PEParser) (i : Z) :
  parse_section section_offset pe i = Ok pe' ->
  length (sections pe') = S (length (sections pe)).
Proof.
  unfold parse_section.
  destruct (unpack_I _ (_ + 8)); [simpl|discriminate].
  destruct (unpack_I _ (_ + 12)); [simpl|discriminate].
  destruct (unpack_I _ (_ + 16)); [simpl|discriminate].
  destruct (unpack_I _ (_ + 20)); [simpl|discriminate].
  intros [= <-]. repeat case_match; simpl; rewrite length_app; simpl; lia.
Qed.

Lemma parse_sections_count (section_offset : Z) (xs : list Z) (pe pe' : PEParser) :
  for_each (parse_section section_offset) xs pe = Ok pe' ->
  length (sections pe') = (length (sections pe) + length xs)%nat.
Proof.
  revert pe. induction xs as [|x xs IH]; intros pe; simpl.
  - intros [= <-]. lia.
  - destruct (parse_section section_offset pe x) as [pe1|] eqn:E; [simpl|discriminate].
    intros Hrest. apply IH in Hrest. apply parse_section_count in E. lia.
Qed.

Lemma unpack_H_range (d : list byte) (off v : Z) :
  unpack_H d off = Ok v -> 0 <= v < 2 ^ 16.
Proof.
  unfold unpack_H. destruct (unpack_bytes 2 d off) as [bs|] eqn:E; [|discriminate].
  intros [= <-]. apply unpack_bytes_len in E; [|lia].
  pose proof (le_to_Z_range bs) as H. rewrite E in H. exact H.
Qed.

(** X8: A parsed image has exactly as many section entries as the 16-bit
    section count of the COFF header says, and its buffer is the file. *)
Theorem parse_section_table_size (d : list byte) (pe : PEParser) :
  parse d = Ok pe ->
  exists e_lfanew num_sections,
    unpack_I d 0x3C = Ok e_lfanew
    /\ unpack_H d (e_lfanew + 6) = Ok num_sections
    /\ len (sections pe) = num_sections
    /\ data pe = d.
Proof.
  intros Hparse. pose proof (parse_well_formed d pe Hparse) as [_ Hdata].
  revert Hparse. unfold parse, _parse_pe. simpl data.
  destruct (negb (bytes_eqb (slice_to d 2) MZ)); [discriminate|].
  destruct (unpack_I d 60) as [e|]; [simpl|discriminate].
  destruct (negb (bytes_eqb (slice d e (e + 4)) PE00)); [discriminate|].
  replace (e + 4 + 2) with (e + 6) by lia.
  destruct (unpack_H d (e + 6)) as [n|] eqn:Hn; [simpl|discriminate].
  destruct (unpack_H d (e + 4 + 16)) as [ohs|]; [simpl|discriminate].
  destruct (unpack_H d (e + 4 + 20)) as [m|]; [simpl|discriminate].
  apply unpack_H_range in Hn as Hrange.
  assert (forall pe0, sections pe0 = [] ->
            for_each (parse_section (e + 4 + 20 + ohs)) (range n) pe0 = Ok pe ->
            len (sections pe) = n) as Hloop.
  { intros pe0 Hnil Hrun. apply parse_sections_count in Hrun.
    unfold len. rewrite Hrun, Hnil. unfold range. rewrite length_map, length_seq.
    simpl. lia. }
  destruct (m =? 523).
  - destruct (unpack_Q d (e + 4 + 20 + 24)); [simpl|discriminate].
    intros Hrun. exists e, n. split; [done|]. split; [done|]. split; [|done].
    exact (Hloop (set_base (init d) a) eq_refl Hrun).
  - simpl. intros Hrun. exists e, n. split; [done|]. split; [done|]. split; [|done].
    exact (Hloop (init d) eq_refl Hrun).
Qed.

Lemma parse_section_table_size_witness :
  exists e_lfanew num_sections,
    unpack_I image_two_text 0x3C = Ok e_lfanew
    /\ unpack_H image_two_text (e_lfanew + 6) = Ok num_sections
    /\ len (sections (parsed image_two_text)) = num_sections
    /\ data (parsed image_two_text) = image_two_text.
Proof.
  apply (parse_section_table_size image_two_text). vm_compute. reflexivity.
Defined.

(** X9: A file that starts with the MZ signature but is shorter than the 64
    bytes of the DOS header fails with struct.error, not with the format
    error. *)
Theorem parse_truncated_header (d : list byte) :
  slice_to d 2 = MZ -> len d < 64 -> parse d = Raise StructError.
Proof.
  intros Hmz Hshort. unfold parse, _parse_pe. simpl data. rewrite Hmz.
  unfold bytes_eqb. rewrite bool_decide_eq_true_2 by done. simpl.
  unfold unpack_I, unpack_bytes. simpl.
  by assert ((len d - 60 <? 4) = true) as -> by lia.
Qed.

Lemma parse_truncated_header_witness :
  parse (MZ ++ zeros 40) = Raise StructError.
Proof.
  apply parse_truncated_header; [reflexivity | vm_compute; reflexivity].
Defined.

(** ** Container parsing: the cached section fields *)

Lemma last_named_snoc (nm : string) (ss : list section) (s : section) :
  last_named nm (ss ++ [s]) = if decide (name s = nm) then Some s else last_named nm ss.
Proof.
  unfold last_named. rewrite filter_app.
  destruct (decide (name s = nm)) as [E|E].
  - rewrite filter_cons_True by exact E. rewrite filter_nil. by rewrite last_snoc.
  - rewrite filter_cons_False by exact E. rewrite filter_nil. by rewrite app_nil_r.
Qed.

Lemma tracks_snoc_same (nm : string) (ss : list section) (s : section) :
  name s = nm -> tracks nm (ss ++ [s]) (raw_offset s) (raw_size s) (rva s).
Proof.
  intros E. unfold tracks. rewrite last_named_snoc.
  by destruct (decide (name s = nm)).
Qed.

Lemma tracks_snoc_other (nm : string) (ss : list section) (s : section) (a b c : Z) :
  name s <> nm -> tracks nm ss a b c -> tracks nm (ss ++ [s]) a b c.
Proof.
  intros E. unfold tracks. rewrite last_named_snoc.
  by destruct (decide (name s = nm)).
Qed.

Lemma parse_section_cached (section_offset : Z) (pe pe' : PEParser) (i : Z) :
  cached_fields pe -> parse_section section_offset pe i = Ok pe' -> cached_fields pe'.
Proof.
  intros (Ht & Hr & Hd). unfold parse_section.
  destruct (unpack_I _ (_ + 8)) as [vsz|]; [simpl|discriminate].
  destruct (unpack_I _ (_ + 12)) as [r|]; [simpl|discriminate].
  destruct (unpack_I _ (_ + 16)) as [rsz|]; [simpl|discriminate].
  destruct (unpack_I _ (_ + 20)) as [roff|]; [simpl|discriminate].
  set (nm := decode_ascii_ignore _).
  set (s := mk_section nm vsz r rsz roff).
  intros [= <-].
  destruct (String.eqb nm ".text") eqn:E1.
  { apply String.eqb_eq in E1. repeat split; simpl.
    - by apply (tracks_snoc_same ".text" (sections pe) s).
    - apply tracks_snoc_other; [|done]. simpl. by rewrite E1.
    - apply tracks_snoc_other; [|done]. simpl. by rewrite E1. }
  apply String.eqb_neq in E1.
  destruct (String.eqb nm ".rdata") eqn:E2.
  { apply String.eqb_eq in E2. repeat split; simpl.
    - by apply tracks_snoc_other.
    - by apply (tracks_snoc_same ".rdata" (sections pe) s).
    - apply tracks_snoc_other; [|done]. simpl. by rewrite E2. }
  apply String.eqb_neq in E2.
  destruct (String.eqb nm ".data") eqn:E3.
  { apply String.eqb_eq in E3. repeat split; simpl.
    - by apply tracks_snoc_other.
    - by apply tracks_snoc_other.
    - by apply (tracks_snoc_same ".data" (sections pe) s). }
  apply String.eqb_neq in E3.
  repeat split; simpl; by apply tracks_snoc_other.
Qed.

(** X10: After a successful parse the cached start, size and RVA of [.text],
    [.rdata] and [.data] are those of the LAST section-table entry of that
    name, and all three are zero when no entry has the name. *)
Theorem parse_last_named_section (d : list byte) (pe : PEParser) :
  parse d = Ok pe ->
  tracks ".text" (sections pe) (text_start pe) (text_size pe) (text_rva pe)
  /\ tracks ".rdata" (sections pe) (rdata_start pe) (rdata_size pe) (rdata_rva pe)
  /\ tracks ".data" (sections pe) (data_start pe) (data_size pe) (data_rva pe).
Proof.
  unfold parse, _parse_pe. simpl data.
  destruct (negb (bytes_eqb (slice_to d 2) MZ)); [discriminate|].
  destruct (unpack_I d 60) as [e|]; [simpl|discriminate].
  destruct (negb (bytes_eqb (slice d e (e + 4)) PE00)); [discriminate|].
  destruct (unpack_H d (e + 4 + 2)) as [n|]; [simpl|discriminate].
  destruct (unpack_H d (e + 4 + 16)) as [ohs|]; [simpl|discriminate].
  destruct (unpack_H d (e + 4 + 20)) as [m|]; [simpl|discriminate].
  assert (cached_fields (init d)) as Hinit by (by repeat split).
  destruct (m =? 523).
  - destruct (unpack_Q d (e + 4 + 20 + 24)) as [b|]; [simpl|discriminate].
    apply (for_each_invariant cached_fields); [|exact Hinit].
    intros ? ? ?. apply parse_section_cached.
  - simpl. apply (for_each_invariant cached_fields); [|exact Hinit].
    intros ? ? ?. apply parse_section_cached.
Qed.

Lemma parse_last_named_section_witness :
  tracks ".text" (sections (parsed image_two_text)) 216 8 0x2000.
Proof.
  apply (parse_last_named_section image_two_text). vm_compute. reflexivity.
Defined.

(** ** Address translation: the first covering entry *)

Lemma rva_to_offset_in_first (ss : list section) (r off : Z) :
  rva_to_offset_in ss r = Some off <->
  exists k s, first_cover rva ss r k s /\ off = r - rva s + raw_offset s.
Proof.
  induction ss as [|t ss IH]; simpl.
  - split; [discriminate|]. by intros (k & s & (Hk & _) & _).
  - destruct ((rva t <=? r) && (r <? rva t + raw_size t)) eqn:E.
    + split.
      * intros [= <-]. exists 0%nat, t. split; [|done].
        split; [done|]. split; [lia|]. intros j u Hj. lia.
      * intros (k & s & (Hk & Hr & Hfirst) & ->). destruct k as [|k].
        -- by injection Hk as ->.
        -- exfalso. apply (Hfirst 0%nat t); [lia | done | lia].
    + rewrite IH. split.
      * intros (k & s & (Hk & Hr & Hfirst) & ->). exists (S k), s. split; [|done].
        split; [done|]. split; [done|]. intros [|j] u Hj Hu.
        -- injection Hu as <-. lia.
        -- apply (Hfirst j u); [lia | done].
      * intros (k & s & (Hk & Hr & Hfirst) & ->). destruct k as [|k].
        -- injection Hk as ->. lia.
        -- exists k, s. split; [|done]. split; [done|]. split; [done|].
           intros j u Hj Hu. apply (Hfirst (S j) u); [lia | done].
Qed.

Lemma offset_to_rva_in_first (ss : list section) (off r : Z) :
  offset_to_rva_in ss off = Some r <->
  exists k s, first_cover raw_offset ss off k s /\ r = off - raw_offset s + rva s.
Proof.
  induction ss as [|t ss IH]; simpl.
  - split; [discriminate|]. by intros (k & s & (Hk & _) & _).
  - destruct ((raw_offset t <=? off) && (off <? raw_offset t + raw_size t)) eqn:E.
    + split.
      * intros [= <-]. exists 0%nat, t. split; [|done].
        split; [done|]. split; [lia|]. intros j u Hj. lia.
      * intros (k & s & (Hk & Hr & Hfirst) & ->). destruct k as [|k].
        -- by injection Hk as ->.
        -- exfalso. apply (Hfirst 0%nat t); [lia | done | lia].
    + rewrite IH. split.
      * intros (k & s & (Hk & Hr & Hfirst) & ->). exists (S k), s. split; [|done].
        split; [done|]. split; [done|]. intros [|j] u Hj Hu.
        -- injection Hu as <-. lia.
        -- apply (Hfirst j u); [lia | done].
      * intros (k & s & (Hk & Hr & Hfirst) & ->). destruct k as [|k].
        -- injection Hk as ->. lia.
        -- exists k, s. split; [|done]. split; [done|]. split; [done|].
           intros j u Hj Hu. apply (Hfirst (S j) u); [lia | done].
Qed.

(** X11: Both translations answer from the first table entry whose range holds
    the address, measured with the raw size in both directions, and answer
    [None] exactly when no entry does. *)
Theorem address_translation_first_cover (pe : PEParser) (x y : Z) :
  (rva_to_offset pe x = Some y <->
     exists k s, first_cover rva (sections pe) x k s /\ y = x - rva s + raw_offset s)
  /\ (offset_to_rva pe x = Some y <->
        exists k s, first_cover raw_offset (sections pe) x k s
                    /\ y = x - raw_offset s + rva s).
Proof.
  split; [apply rva_to_offset_in_first | apply offset_to_rva_in_first].
Qed.

(** ** Reference scanning: what is reported *)

Lemma reported_at_elem (pe : PEParser) (td : list byte) (va i x : Z) :
  x ∈ reported_at pe td va i <->
  exists ilen disp,
    x = text_start pe + i
    /\ recognized_reference td i = Some (ilen, disp)
    /\ reference_target pe i ilen disp = va
    /\ i + ilen + 6 < len td.
Proof.
  unfold reported_at.
  destruct (recognized_reference td i) as [[ilen disp]|] eqn:Hrec.
  - destruct ((i + ilen - 1 <? len td - 7) && (reference_target pe i ilen disp =? va)) eqn:E.
    + apply andb_prop in E as [E1 E2]. split.
      * intros ->%list_elem_of_singleton. exists ilen, disp.
        split; [done|]. split; [done|]. split; lia.
      * intros (? & ? & -> & _). by apply list_elem_of_singleton.
    + split; [by intros ?%elem_of_nil|].
      intros (ilen' & disp' & _ & [= <- <-] & Ht & Hb). exfalso.
      apply andb_false_iff in E as [E|E]; lia.
  - split; [by intros ?%elem_of_nil|]. by intros (? & ? & _ & ? & _).
Qed.

Lemma recognized_reference_bounds (td : list byte) (i ilen disp : Z) :
  recognized_reference td i = Some (ilen, disp) -> 0 <= i /\ 6 <= ilen <= 7.
Proof.
  unfold recognized_reference. intros H.
  destruct ((0 <=? i) && (i + 7 <=? len td) && _ && _) eqn:E1.
  - injection H as <- <-. apply andb_prop in E1 as [E1 _].
    apply andb_prop in E1 as [E1 _]. apply andb_prop in E1 as [E1 _]. lia.
  - destruct ((0 <=? i) && (i + 6 <=? len td) && _ && _) eqn:E2; [|discriminate].
    injection H as <- <-. apply andb_prop in E2 as [E2 _].
    apply andb_prop in E2 as [E2 _]. apply andb_prop in E2 as [E2 _]. lia.
Qed.

Lemma find_string_xrefs_iff (pe : PEParser) (string_offset string_rva : Z) :
  offset_to_rva pe string_offset = Some string_rva ->
  exists xrefs,
    find_string_xrefs pe string_offset = Ok xrefs
    /\ forall x, x ∈ xrefs <->
         exists i ilen disp,
           x = text_start pe + i
           /\ recognized_reference (code_region pe) i = Some (ilen, disp)
           /\ reference_target pe i ilen disp = base pe + string_rva
           /\ i + ilen + 6 < len (code_region pe).
Proof.
  intros Hrva. eexists. split; [by apply find_string_xrefs_eq|].
  intros x. rewrite list_elem_of_In, in_flat_map. split.
  - intros (i & _ & Hx). apply list_elem_of_In, reported_at_elem in Hx
      as (ilen & disp & H). by exists i, ilen, disp.
  - intros (i & ilen & disp & -> & Hrec & Ht & Hb). exists i. split.
    + apply recognized_reference_bounds in Hrec as Hi.
      unfold range. apply in_map_iff. exists (Z.to_nat i). split; [lia|].
      apply in_seq. lia.
    + apply list_elem_of_In, reported_at_elem. by exists ilen, disp.
Qed.

(** X12: For a string offset that lies in a section, [find_string_xrefs] returns
    normally, and a file offset is in its result exactly when a recognized
    position-relative instruction starts there in the code region, its
    effective target is the virtual address of the string, and at least
    seven more bytes of the region follow the instruction. *)
Theorem find_string_xrefs_exact (pe : PEParser) (string_offset string_rva : Z) :
  offset_to_rva pe string_offset = Some string_rva ->
  exists xrefs,
    find_string_xrefs pe string_offset = Ok xrefs
    /\ forall x, x ∈ xrefs <->
         exists i ilen disp,
           x = text_start pe + i
           /\ recognized_reference (code_region pe) i = Some (ilen, disp)
           /\ reference_target pe i ilen disp = base pe + string_rva
           /\ i + ilen + 6 < len (code_region pe).
Proof. apply find_string_xrefs_iff. Qed.

Lemma find_string_xrefs_exact_witness :
  exists xrefs,
    find_string_xrefs (parsed image_padded_ref) 220 = Ok xrefs
    /\ forall x, x ∈ xrefs <->
         exists i ilen disp,
           x = text_start (parsed image_padded_ref) + i
           /\ recognized_reference (code_region (parsed image_padded_ref)) i
              = Some (ilen, disp)
           /\ reference_target (parsed image_padded_ref) i ilen disp
              = base (parsed image_padded_ref) + 0x2000
           /\ i + ilen + 6 < len (code_region (parsed image_padded_ref)).
Proof.
  apply (find_string_xrefs_exact (parsed image_padded_ref) 220 0x2000).
  vm_compute. reflexivity.
Defined.

(** X13: A prefixed LEA is reported twice: whenever the start of a [48 8D] or
    [4C 8D] instruction is in the result, so is the offset one byte later,
    where the same bytes read as the bare six-byte LEA with the same
    target. *)
Theorem find_string_xrefs_lea_twice (pe : PEParser)
    (string_offset string_rva : Z) (xrefs : list Z) (x : Z) :
  offset_to_rva pe string_offset = Some string_rva ->
  find_string_xrefs pe string_offset = Ok xrefs ->
  x ∈ xrefs ->
  peek (code_region pe) (x - text_start pe + 1) = 0x8D ->
  x + 1 ∈ xrefs.
Proof.
  intros Hrva Hres Hx Hlea.
  destruct (find_string_xrefs_iff pe string_offset string_rva Hrva)
    as (xs & Hxs & Hiff).
  assert (xs = xrefs) as -> by congruence.
  apply Hiff in Hx as (i & ilen & disp & -> & Hrec & Ht & Hb).
  replace (text_start pe + i - text_start pe + 1) with (i + 1) in Hlea by lia.
  apply Hiff. exists (i + 1).
  unfold recognized_reference in Hrec.
  destruct ((0 <=? i) && (i + 7 <=? len (code_region pe)) && _ && _) eqn:E1.
  - injection Hrec as <- <-. exists 6, (disp32_at (code_region pe) (i + 3)).
    split; [lia|]. split; [|split; [unfold reference_target in *; lia | lia]].
    apply andb_prop in E1 as [E1 Hrip]. apply andb_prop in E1 as [E1 _].
    apply andb_prop in E1 as [E1 E1'].
    unfold recognized_reference.
    replace (i + 1 + 1) with (i + 2) by lia.
    replace (i + 1 + 2) with (i + 3) by lia.
    rewrite Hlea, Hrip.
    assert ((0 <=? i + 1) = true) as -> by lia.
    assert ((i + 1 + 6 <=? len (code_region pe)) = true) as -> by lia.
    assert ((i + 1 + 7 <=? len (code_region pe)) = true) as -> by lia.
    reflexivity.
  - destruct ((0 <=? i) && (i + 6 <=? len (code_region pe)) && _ && _) eqn:E2;
      [|discriminate].
    exfalso. apply andb_prop in E2 as [E2 Hrip]. apply andb_prop in E2 as [_ Hb0].
    rewrite Hlea in Hrip. vm_compute in Hrip. discriminate.
Qed.

Lemma find_string_xrefs_lea_twice_witness :
  find_string_xrefs (parsed image_padded_ref) 220 = Ok [200; 201]
  /\ 201 ∈ [200; 201].
Proof.
  split; [vm_compute; reflexivity|].
  apply (find_string_xrefs_lea_twice (parsed image_padded_ref) 220 0x2000 [200; 201] 200);
    [vm_compute; reflexivity | vm_compute; reflexivity
    | apply list_elem_of_here | vm_compute; reflexivity].
Defined.

(** ** Signature generation: where wildcards can be *)

Lemma near_refl (i : Z) (w : gset Z) : near i w w.
Proof. intros j Hj. by left. Qed.

Lemma near_trans (i : Z) (w1 w2 w3 : gset Z) :
  near i w1 w2 -> near i w2 w3 -> near i w1 w3.
Proof.
  intros H12 H23 j Hj. destruct (H23 j Hj) as [Hj2|?]; [|by right].
  by apply H12.
Qed.

Lemma near_union (i : Z) (s w : gset Z) :
  (forall j, j ∈ s -> i < j <= i + 6) -> near i w (s ∪ w).
Proof.
  intros Hs j [Hj|Hj]%elem_of_union; [right; by apply Hs | by left].
Qed.

Lemma mark_spill_near (data : list byte) (i : Z) (w : gset Z) :
  0 <= i < len data ->
  exists w', mark_spill data i w = Ok w' /\ near i w w'.
Proof.
  intros Hi. unfold mark_spill.
  destruct (getitem_ok data i) as (b0 & -> & Hb0); [lia|]. simpl.
  pattern_reads data i;
    repeat (case_match; simpl);
    (eexists; split; [reflexivity|]);
    first [apply near_refl | apply near_union; after_index].
Qed.

Lemma mark_sub_imm8_near (data : list byte) (i : Z) (w : gset Z) :
  0 <= i < len data ->
  exists w', mark_sub_imm8 data i w = Ok w' /\ near i w w'.
Proof.
  intros Hi. unfold mark_sub_imm8.
  destruct (getitem_ok data i) as (b0 & -> & Hb0); [lia|]. simpl.
  pattern_reads data i;
    repeat (case_match; simpl);
    (eexists; split; [reflexivity|]);
    first [apply near_refl | apply near_union; after_index].
Qed.

Lemma mark_sub_imm32_near (data : list byte) (i : Z) (w : gset Z) :
  0 <= i < len data ->
  exists w', mark_sub_imm32 data i w = Ok w' /\ near i w w'.
Proof.
  intros Hi. unfold mark_sub_imm32.
  destruct (getitem_ok data i) as (b0 & -> & Hb0); [lia|]. simpl.
  pattern_reads data i;
    repeat (case_match; simpl);
    (eexists; split; [reflexivity|]);
    first [apply near_refl | apply near_union; after_index].
Qed.

Lemma skip_rel32_near (opcode : Z) (data : list byte) (i : Z) (w : gset Z) :
  0 <= i < len data ->
  exists r, skip_rel32 opcode data i w = Ok r
            /\ forall i' w', r = Some (i', w') -> near i w w'.
Proof.
  intros Hi. unfold skip_rel32.
  destruct (getitem_ok data i) as (b0 & -> & Hb0); [lia|]. simpl.
  eexists; split; [reflexivity|]. intros i' w'.
  case_match; [|discriminate]. intros [= <- <-].
  apply near_union; after_index.
Qed.

Lemma skip_rip_near (opcodes : list Z) (data : list byte) (i : Z) (w : gset Z) :
  0 <= i < len data ->
  exists r, skip_rip opcodes data i w = Ok r
            /\ forall i' w', r = Some (i', w') -> near i w w'.
Proof.
  intros Hi. unfold skip_rip.
  destruct (getitem_ok data i) as (b0 & -> & Hb0); [lia|]. simpl.
  pattern_reads data i;
    repeat (case_match; simpl);
    (eexists; split; [reflexivity|]); intros i' w'; try discriminate;
    intros [= <- <-];
    apply near_union; after_index.
Qed.

Lemma pattern_step_near (data : list byte) (i : Z) (w : gset Z) :
  0 <= i < len data ->
  exists i' w', pattern_step data i w = Ok (i', w') /\ near i w w'.
Proof.
  intros Hi. unfold pattern_step.
  destruct (mark_spill_near data i w Hi) as (w1 & -> & G1). simpl.
  destruct (mark_sub_imm8_near data i w1 Hi) as (w2 & -> & G2). simpl.
  destruct (mark_sub_imm32_near data i w2 Hi) as (w3 & -> & G3). simpl.
  assert (near i w w3) as G by eauto using near_trans.
  destruct (skip_rel32_near 0xE8 data i w3 Hi) as (r & -> & Hr). simpl.
  destruct r as [[i' w']|].
  { eexists _, _. eauto using near_trans. }
  clear Hr.
  destruct (skip_rel32_near 0xE9 data i w3 Hi) as (r & -> & Hr). simpl.
  destruct r as [[i' w']|].
  { eexists _, _. eauto using near_trans. }
  clear Hr.
  destruct (skip_rip_near [0x8D] data i w3 Hi) as (r & -> & Hr). simpl.
  destruct r as [[i' w']|].
  { eexists _, _. eauto using near_trans. }
  clear Hr.
  destruct (skip_rip_near [0x8B; 0x89] data i w3 Hi) as (r & -> & Hr). simpl.
  destruct r as [[i' w']|].
  { eexists _, _. eauto using near_trans. }
  eexists _, _. split; [reflexivity | done].
Qed.

(** At a byte that opens no block the step only advances by one. *)
Lemma pattern_step_plain (data : list byte) (i b0 : Z) (w : gset Z) :
  getitem data i = Ok b0 -> trigger_byte b0 = false ->
  pattern_step data i w = Ok (i + 1, w).
Proof.
  intros Hget Htrig. unfold trigger_byte, is_in in Htrig. simpl in Htrig.
  apply orb_false_elim in Htrig as [H48 Htrig].
  apply orb_false_elim in Htrig as [H4C Htrig].
  apply orb_false_elim in Htrig as [HE8 Htrig].
  apply orb_false_elim in Htrig as [HE9 _].
  unfold pattern_step, mark_spill, mark_sub_imm8, mark_sub_imm32, skip_rel32, skip_rip.
  rewrite Hget. cbn [mbind result_bind mret result_ret].
  unfold is_in. cbn [existsb]. rewrite H48, H4C, HE8, HE9.
  cbn [orb andb]. rewrite !andb_false_r. reflexivity.
Qed.

Lemma pattern_loop_displaced (fuel : nat) (data : list byte) (i : Z) (w w' : gset Z) :
  0 <= i ->
  pattern_loop fuel data i w = Ok (Some w') ->
  (forall j, j ∈ w -> displaced data j) ->
  forall j, j ∈ w' -> displaced data j.
Proof.
  revert i w. induction fuel as [|fuel IH]; intros i w Hi; simpl.
  - destruct (len data <=? i); [|discriminate]. by intros [= <-].
  - destruct (len data <=? i) eqn:E; [by intros [= <-]|].
    assert (0 <= i < len data) as Hin by lia.
    destruct (pattern_step_ok data i w Hin) as (i' & w1 & Hstep & Hlt & _).
    rewrite Hstep. simpl. intros Hloop Hw. apply (IH i' w1); [lia | done |].
    intros j Hj.
    destruct (data !! Z.to_nat i) as [b|] eqn:Hb;
      [|apply lookup_ge_None in Hb; unfold len in Hin; lia].
    pose proof (getitem_Some data i b (proj1 Hin) Hb) as Hget.
    destruct (trigger_byte (byteZ b)) eqn:Htrig.
    + destruct (pattern_step_near data i w Hin) as (i2 & w2 & Hstep2 & Hnear).
      assert (w2 = w1) as -> by congruence.
      destruct (Hnear j Hj) as [Hold|Hnew]; [by apply Hw|].
      exists i, b. split; [lia|]. split; [lia|]. split; done.
    + rewrite (pattern_step_plain data i (byteZ b) w Hget Htrig) in Hstep.
      injection Hstep as _ <-. by apply Hw.
Qed.

(** X14: Every wildcard token has a cause: if token [j] of the pattern is the
    wildcard marker, one of the six window bytes before position [j] is a
    width-extension prefix (0x48, 0x4C), CALL rel32 (0xE8) or JMP rel32
    (0xE9). Hence the first token is never a wildcard, and a window without
    those four byte values is rendered as plain hexadecimal. *)
Theorem make_smart_pattern_wildcard_cause (pe : PEParser) (func_offset length : Z)
    (text : string) (j : nat) :
  make_smart_pattern_len pe func_offset length = Ok (Some text) ->
  tokens text !! j = Some wildcard_token ->
  exists (i : nat) (b : byte),
    (i < j <= i + 6)%nat
    /\ pattern_window pe func_offset length !! i = Some b
    /\ is_in (byteZ b) [0x48; 0x4C; 0xE8; 0xE9] = true.
Proof.
  intros Hres Htok.
  destruct (make_smart_pattern_len_eq pe func_offset length) as (w & Hw & Hs).
  rewrite Hs in Hres. injection Hres as <-.
  rewrite pattern_parts_tokens in Htok. unfold pattern_parts in Htok.
  rewrite list_lookup_imap in Htok.
  destruct (pattern_window pe func_offset length !! j) as [bj|] eqn:Hbj;
    [simpl in Htok|discriminate].
  destruct (bool_decide (Z.of_nat j ∈ w)) eqn:Hin.
  - apply bool_decide_eq_true in Hin.
    destruct (pattern_loop_displaced _ _ 0 ∅ w (Z.le_refl 0) Hw) with (j := Z.of_nat j)
      as (i & b & Hi & Hij & Hb & Htrig); [by intros ? ?%elem_of_empty | done |].
    exists (Z.to_nat i), b. split; [lia|]. split; done.
  - destruct (format_02X_byte bj) as (_ & _ & Hne). by injection Htok.
Qed.

Lemma make_smart_pattern_wildcard_cause_witness :
  exists (i : nat) (b : byte),
    (i < 3 <= i + 6)%nat
    /\ pattern_window (parsed image_padded_ref) 200 32 !! i = Some b
    /\ is_in (byteZ b) [0x48; 0x4C; 0xE8; 0xE9] = true.
Proof.
  apply (make_smart_pattern_wildcard_cause (parsed image_padded_ref) 200 32
           "48 8D 05 ? ? ? ? CC CC CC CC CC CC CC CC CC CC CC CC CC 4B 65 6E 73 68 69 00 00");
    vm_compute; reflexivity.
Defined.

(** ** Global pointer discovery: what the search cannot miss *)

Lemma find_first (d sub : list byte) (start stop : Z) :
  0 < len sub -> 0 <= start -> 0 <= stop ->
  (find d sub start stop = -1
   /\ forall p, start <= p -> p + len sub <= stop -> ~ occurs_at d sub p)
  \/ (start <= find d sub start stop
      /\ find d sub start stop + len sub <= stop
      /\ occurs_at d sub (find d sub start stop)
      /\ forall p, start <= p < find d sub start stop -> ~ occurs_at d sub p).
Proof.
  intros Hsub Hstart Hstop. unfold find, clamp.
  pose proof (len_nonneg d) as Hd.
  assert ((start <? 0) = false) as -> by lia.
  assert ((stop <? 0) = false) as -> by lia.
  set (a := Z.min start (len d)). set (b := Z.min stop (len d)).
  set (N := Z.to_nat (b - len sub - a + 1)).
  assert (0 <= a) as Ha by lia.
  destruct (find_in_seq d sub a N 0 Ha) as [[Hr Hnone]|(k & Hk & Hr & Hm & Hfirst)].
  - left. split; [exact Hr|]. intros p Hp Hfit [_ [Hle Heq]]%occurs_at_take.
    apply (Hnone (Z.to_nat (p - a))); [lia|].
    by replace (a + Z.of_nat (Z.to_nat (p - a))) with p by lia.
  - right. rewrite Hr. split; [lia|]. split; [lia|]. split.
    + apply occurs_at_take. split; [lia|]. split; [lia|]. by rewrite <- Hr.
    + intros p Hp [_ [Hle Heq]]%occurs_at_take.
      apply (Hfirst (Z.to_nat (p - a))); [lia|].
      by replace (a + Z.of_nat (Z.to_nat (p - a))) with p by lia.
Qed.

Lemma global_pointer_loop_covering (fuel : nat) (d tb : list byte) (idx stop : Z)
    (results results' : list Z) (lo : Z) :
  0 < len tb -> 0 <= idx -> 0 <= stop ->
  global_pointer_loop fuel d tb idx stop results = Some results' ->
  (forall p, lo <= p < idx -> p + len tb <= stop -> occurs_at d tb p ->
     exists q, q ∈ results /\ q <= p < q + 8) ->
  forall p, lo <= p -> p + len tb <= stop -> occurs_at d tb p ->
    exists q, q ∈ results' /\ q <= p < q + 8.
Proof.
  intros Htb. revert idx results.
  induction fuel as [|fuel IH]; intros idx results Hidx Hstop; simpl.
  - destruct (stop <=? idx) eqn:E; [|discriminate].
    intros [= <-] Hcov p Hlo Hfit Hocc. apply Hcov; [lia | done..].
  - destruct (stop <=? idx) eqn:E.
    { intros [= <-] Hcov p Hlo Hfit Hocc. apply Hcov; [lia | done..]. }
    destruct (find_first d tb idx stop Htb Hidx Hstop)
      as [[Hnone Hno]|(Hge & Hle & Hocc & Hfirst)].
    + rewrite Hnone. simpl. intros [= <-] Hcov p Hlo Hfit Hp.
      destruct (decide (p < idx)) as [Hlt|Hnlt]; [by apply Hcov|].
      exfalso. apply (Hno p); [lia | done..].
    + set (pos := find d tb idx stop) in *.
      assert ((pos =? -1) = false) as -> by lia.
      intros Hloop Hcov. apply (IH (pos + 8) (results ++ [pos])); [lia | done.. |].
      intros p Hp Hfit Hpocc.
      destruct (decide (p < idx)) as [Hlt|Hnlt].
      * destruct (Hcov p) as (q & Hq & Hqp); [lia | done..|].
        exists q. split; [|done]. apply elem_of_app. by left.
      * destruct (decide (p < pos)) as [Hlt'|Hnlt'].
        { exfalso. apply (Hfirst p); [lia | done]. }
        exists pos. split; [|lia]. apply elem_of_app. right. by apply list_elem_of_singleton.
Qed.

(** X15: No pointer to the target escapes [find_global_pointer_to_rva]: every
    position of the mutable-data region that holds the 8-byte little-endian
    target address, with its 8 bytes inside the region, is a returned
    position or lies fewer than 8 bytes after one. *)
Theorem find_global_pointer_covering (d : list byte) (pe : PEParser)
    (target_rva : Z) (results : list Z) (p : Z) :
  parse d = Ok pe ->
  find_global_pointer_to_rva pe target_rva = Ok (Some results) ->
  data_start pe <= p -> p + 8 <= data_start pe + data_size pe ->
  occurs_at (data pe) (le_bytes 8 (base pe + target_rva)) p ->
  exists q, q ∈ results /\ q <= p < q + 8.
Proof.
  intros [Hwf _]%parse_well_formed. destruct Hwf.
  unfold find_global_pointer_to_rva, pack_Q.
  destruct ((0 <=? base pe + target_rva) && (base pe + target_rva <? 2 ^ 64));
    [|discriminate].
  cbn [mbind result_bind mret result_ret]. intros [= Hloop] Hlo Hhi Hocc.
  assert (len (le_bytes 8 (base pe + target_rva)) = 8) as Hlen.
  { unfold len. by rewrite length_le_bytes. }
  pose proof (len_nonneg (data pe)) as Hd.
  assert (0 < len (le_bytes 8 (base pe + target_rva))) as Htb by lia.
  refine (global_pointer_loop_covering _ (data pe) _ (data_start pe)
            (data_start pe + data_size pe) [] results (data_start pe)
            Htb _ _ Hloop _ p Hlo _ Hocc); [lia | lia | | lia].
  intros p' Hp'. lia.
Qed.

Lemma find_global_pointer_covering_witness :
  exists q, q ∈ [161] /\ q <= 161 < q + 8.
Proof.
  apply (find_global_pointer_covering image_unaligned_global
           (parsed image_unaligned_global) 0x1000 [161] 161);
    [vm_compute; reflexivity | vm_compute; reflexivity | vm_compute; discriminate
    | vm_compute; discriminate |].
  unfold occurs_at. split; [lia|]. split; vm_compute; [discriminate | reflexivity].
Defined.

(** ** Vtable scanning: the table start and the matches *)

Lemma vtable_start_loop_run (pe : PEParser) (rdata : list byte) (n : nat) (i : Z) :
  0 <= i <= len rdata -> n = Z.to_nat (i / 8) ->
  exists s,
    vtable_start_loop pe rdata n i = Ok s
    /\ 0 <= s <= i /\ (i - s) mod 8 = 0
    /\ (forall k, s <= k < i -> (k - s) mod 8 = 0 ->
          exists val, unpack_Q rdata k = Ok val /\ in_text pe (word_rva pe val))
    /\ (s < 8 \/ exists val, unpack_Q rdata (s - 8) = Ok val
                             /\ ~ in_text pe (word_rva pe val)).
Proof.
  revert i. induction n as [|n IH]; intros i Hi Hn; simpl.
  - exists i. split; [done|]. split; [lia|]. split; [by rewrite Z.sub_diag|].
    split; [intros k Hk; lia|]. left.
    destruct (decide (i < 8)) as [|Hge]; [done|].
    assert (1 <= i / 8) by (apply Z.div_le_lower_bound; lia). lia.
  - assert (8 <= i) as Hi8.
    { destruct (decide (8 <= i)) as [|Hlt]; [done|].
      rewrite Z.div_small in Hn by lia. discriminate. }
    destruct (unpack_Q_ok rdata (i - 8)) as (val & Hval & _); [lia..|].
    rewrite Hval. simpl.
    destruct ((text_rva pe <=? (if base pe <? val then val - base pe else 0))
              && ((if base pe <? val then val - base pe else 0)
                  <? text_rva pe + text_size pe)) eqn:E.
    + destruct (IH (i - 8)) as (s & Hs & Hrange & Hmod & Hrun & Hstop); [lia| |].
      { replace (i - 8) with (i + (-1) * 8) by lia.
        rewrite Z.div_add by lia. lia. }
      exists s. split; [done|]. split; [lia|].
      assert ((i - s) mod 8 = 0) as Hmod'.
      { replace (i - s) with (i - 8 - s + 1 * 8) by lia.
        by rewrite Z.mod_add by lia. }
      split; [done|]. split; [|done].
      intros k Hk Hkm.
      destruct (decide (k < i - 8)) as [Hlt|Hnlt]; [apply Hrun; [lia | done]|].
      assert (k = i - 8) as ->.
      { clear -Hk Hkm Hmod' Hnlt. Z.div_mod_to_equations. lia. }
      exists val. split; [done|]. unfold in_text, word_rva. lia.
    + exists i. split; [done|]. split; [lia|]. split; [by rewrite Z.sub_diag|].
      split; [intros k Hk; lia|]. right. exists val. split; [done|].
      unfold in_text, word_rva. intros Hin.
      apply andb_false_iff in E as [E|E]; lia.
Qed.

(** X16: [_find_vtable_start] walks back over the maximal run of code pointers:
    for an index inside the region it returns an index [s] a whole number
    of 8-byte words before the given one; every word from [s] up to (not
    including) the given index points into the code section; and the word
    before [s] does not, unless [s] is within the first 8 bytes. *)
Theorem find_vtable_start_maximal_run (pe : PEParser) (rdata : list byte)
    (ptr_offset : Z) :
  0 <= ptr_offset <= len rdata ->
  exists s,
    _find_vtable_start pe rdata ptr_offset = Ok s
    /\ 0 <= s <= ptr_offset /\ (ptr_offset - s) mod 8 = 0
    /\ (forall k, s <= k < ptr_offset -> (k - s) mod 8 = 0 ->
          exists val, unpack_Q rdata k = Ok val /\ in_text pe (word_rva pe val))
    /\ (s < 8 \/ exists val, unpack_Q rdata (s - 8) = Ok val
                             /\ ~ in_text pe (word_rva pe val)).
Proof.
  intros Hp. unfold _find_vtable_start. by apply vtable_start_loop_run.
Qed.

Lemma find_vtable_start_maximal_run_witness :
  exists s,
    _find_vtable_start (parsed image_vtable) (rdata_region (parsed image_vtable)) 24
    = Ok s
    /\ 0 <= s <= 24 /\ (24 - s) mod 8 = 0
    /\ (forall k, s <= k < 24 -> (k - s) mod 8 = 0 ->
          exists val, unpack_Q (rdata_region (parsed image_vtable)) k = Ok val
                      /\ in_text (parsed image_vtable) (word_rva (parsed image_vtable) val))
    /\ (s < 8 \/ exists val, unpack_Q (rdata_region (parsed image_vtable)) (s - 8) = Ok val
                             /\ ~ in_text (parsed image_vtable)
                                    (word_rva (parsed image_vtable) val)).
Proof.
  apply (find_vtable_start_maximal_run (parsed image_vtable)).
  vm_compute. split; discriminate.
Defined.

Lemma for_each_flat_map {A B : Type} (body : list B -> A -> result (list B))
    (f : A -> list B) (xs : list A) (acc : list B) :
  (forall acc x, x ∈ xs -> body acc x = Ok (acc ++ f x)) ->
  for_each body xs acc = Ok (acc ++ flat_map f xs).
Proof.
  revert acc. induction xs as [|x xs IH]; intros acc Hbody; simpl.
  - by rewrite app_nil_r.
  - rewrite Hbody by left. simpl. rewrite IH.
    + by rewrite <- app_assoc.
    + intros acc' y Hy. apply Hbody. by right.
Qed.

Lemma range_step_8_elem (n i : Z) :
  i ∈ range_step 0 n 8 <-> 0 <= i < n /\ i mod 8 = 0.
Proof.
  unfold range_step. rewrite list_elem_of_In, in_map_iff. split.
  - intros (k & <- & Hk%in_seq). Z.div_mod_to_equations. lia.
  - intros [Hi Hmod]. exists (Z.to_nat (i / 8)). split.
    + Z.div_mod_to_equations. lia.
    + apply in_seq. Z.div_mod_to_equations. lia.
Qed.

(** X17: For a non-empty list of function RVAs, [scan_vtable_in_rdata] returns
    normally, and its matches are exactly these: for every 8-aligned index
    [i] of the read-only-data region with more than 8 bytes after it whose
    word is the virtual address of a listed RVA [r], one match carrying [r],
    the table start [_find_vtable_start] computes from [i] (as RVA and as
    file offset) and the slot number of [i] in that table. *)
Theorem scan_vtable_in_rdata_matches (pe : PEParser) (known_func_rvas : list Z) :
  known_func_rvas <> [] ->
  exists results,
    scan_vtable_in_rdata pe known_func_rvas = Ok results
    /\ forall m, m ∈ results <->
         exists i r s,
           0 <= i /\ i mod 8 = 0 /\ i + 8 < len (rdata_region pe)
           /\ r ∈ known_func_rvas
           /\ unpack_Q (rdata_region pe) i = Ok (base pe + r)
           /\ _find_vtable_start pe (rdata_region pe) i = Ok s
           /\ m = mk_vtable_match (rdata_rva pe + s) (rdata_start pe + s)
                    ((i - s) / 8) r.
Proof.
  intros Hne. unfold scan_vtable_in_rdata. fold (rdata_region pe).
  destruct known_func_rvas as [|r0 rs] eqn:Hk; [done|]. rewrite <- Hk. clear Hne.
  set (tv := list_to_set (map (fun r => base pe + r) known_func_rvas) : gset Z).
  assert (forall val, val ∈ tv <-> exists r, r ∈ known_func_rvas /\ val = base pe + r)
    as Htv.
  { intros val. unfold tv. rewrite elem_of_list_to_set, list_elem_of_fmap.
    split; intros (r & H1 & H2); by exists r. }
  assert (forall i, i ∈ range_step 0 (len (rdata_region pe) - 8) 8 ->
            exists val s, unpack_Q (rdata_region pe) i = Ok val
                          /\ _find_vtable_start pe (rdata_region pe) i = Ok s) as Hok.
  { intros i [Hi _]%range_step_8_elem.
    destruct (unpack_Q_ok (rdata_region pe) i) as (val & Hval & _); [lia..|].
    destruct (vtable_start_loop_run pe (rdata_region pe) (Z.to_nat (i / 8)) i)
      as (s & Hs & _); [lia | done |].
    by exists val, s. }
  exists (flat_map (vtable_reported pe (rdata_region pe) tv)
            (range_step 0 (len (rdata_region pe) - 8) 8)).
  split.
  - rewrite (for_each_flat_map _ (vtable_reported pe (rdata_region pe) tv)); [done|].
    intros acc i Hi. destruct (Hok i Hi) as (val & s & Hval & Hs).
    unfold vtable_body, vtable_reported. rewrite Hval, Hs.
    cbn [mbind result_bind mret result_ret].
    destruct (bool_decide (val ∈ tv)); [reflexivity | by rewrite app_nil_r].
  - intros m. rewrite list_elem_of_In, in_flat_map. split.
    + intros (i & Hi%list_elem_of_In & Hm). destruct (Hok i Hi) as (val & s & Hval & Hs).
      apply range_step_8_elem in Hi as [Hi Hmod].
      unfold vtable_reported in Hm. rewrite Hval, Hs in Hm.
      destruct (bool_decide (val ∈ tv)) eqn:Hin; [|by destruct Hm].
      apply bool_decide_eq_true, Htv in Hin as (r & Hr & ->).
      destruct Hm as [<-|[]]. exists i, r, s.
      split_and!; [lia | done | lia | done | done | done |].
      f_equal. lia.
    + intros (i & r & s & Hi & Hmod & Hlt & Hr & Hval & Hs & ->). exists i. split.
      * apply list_elem_of_In, range_step_8_elem. lia.
      * unfold vtable_reported. rewrite Hval, Hs.
        rewrite bool_decide_eq_true_2 by (apply Htv; by exists r).
        left. f_equal. lia.
Qed.

Lemma scan_vtable_in_rdata_matches_witness :
  exists results,
    scan_vtable_in_rdata (parsed image_vtable) [0x1010] = Ok results
    /\ forall m, m ∈ results <->
         exists i r s,
           0 <= i /\ i mod 8 = 0 /\ i + 8 < len (rdata_region (parsed image_vtable))
           /\ r ∈ [0x1010]
           /\ unpack_Q (rdata_region (parsed image_vtable)) i
              = Ok (base (parsed image_vtable) + r)
           /\ _find_vtable_start (parsed image_vtable)
                (rdata_region (parsed image_vtable)) i = Ok s
           /\ m = mk_vtable_match (rdata_rva (parsed image_vtable) + s)
                    (rdata_start (parsed image_vtable) + s) ((i - s) / 8) r.
Proof.
  apply (scan_vtable_in_rdata_matches (parsed image_vtable) [0x1010]). discriminate.
Defined.

(** ** Data globals near a code reference *)

Lemma globals_body_spec (pe : PEParser) (gs : list global_ref) (i : Z) :
  0 <= i -> i + 7 <= len (data pe) ->
  globals_body pe gs i = Ok (gs ++ global_reported pe i).
Proof.
  intros Hi Hlen. unfold globals_body, global_reported, rip_relative.
  rewrite (getitem_peek (data pe) i) by lia.
  rewrite (getitem_peek (data pe) (i + 1)) by lia.
  cbn [mbind result_bind mret result_ret].
  destruct (is_in (peek (data pe) i) [72; 76] && is_in (peek (data pe) (i + 1)) [139; 141]);
    [|by rewrite app_nil_r].
  rewrite (getitem_peek (data pe) (i + 2)) by lia.
  cbn [mbind result_bind mret result_ret andb].
  destruct ((Z.land (Z.shiftr (peek (data pe) (i + 2)) 6) 3 =? 0)
            && (Z.land (peek (data pe) (i + 2)) 7 =? 5));
    [|by rewrite app_nil_r].
  rewrite (unpack_i_disp32 (data pe) (i + 3)) by lia.
  cbn [mbind result_bind mret result_ret].
  destruct (offset_to_rva pe i) as [irva|]; [|by rewrite app_nil_r].
  destruct ((data_rva pe <=? irva + 7 + disp32_at (data pe) (i + 3))
            && (irva + 7 + disp32_at (data pe) (i + 3) <? data_rva pe + data_size pe));
    [reflexivity | by rewrite app_nil_r].
Qed.

Lemma range_from_elem (a b i : Z) : i ∈ range_from a b <-> a <= i < b.
Proof.
  unfold range_from. rewrite list_elem_of_In, in_map_iff. split.
  - intros (k & <- & Hk%in_seq). lia.
  - intros Hi. exists (Z.to_nat (i - a)). split; [lia|]. apply in_seq. lia.
Qed.

(** X18: When the code section lies inside the file,
    [find_data_globals_near_xref] returns normally and its entries are
    exactly the prefixed MOV loads and LEAs with a position-relative operand
    that lie in full inside the scan window, whose file offset translates to
    an RVA, and whose target (that RVA + 7 + displacement) falls in the RVA
    range of the mutable-data section. *)
Theorem find_data_globals_exact (pe : PEParser) (xref search_range : Z) :
  0 <= text_start pe -> text_start pe + text_size pe <= len (data pe) ->
  exists gs,
    find_data_globals_near_xref_range pe xref search_range = Ok gs
    /\ forall g, g ∈ gs <->
         Z.max (text_start pe) (xref - search_range) <= instr_offset g
         /\ instr_offset g + 7
            <= Z.min (text_start pe + text_size pe) (xref + search_range)
         /\ is_in (peek (data pe) (instr_offset g)) [0x48; 0x4C] = true
         /\ is_in (peek (data pe) (instr_offset g + 1)) [0x8B; 0x8D] = true
         /\ rip_relative (peek (data pe) (instr_offset g + 2)) = true
         /\ offset_to_rva pe (instr_offset g) = Some (instr_rva g)
         /\ target_rva g
            = instr_rva g + 7 + disp32_at (data pe) (instr_offset g + 3)
         /\ data_rva pe <= target_rva g < data_rva pe + data_size pe
         /\ instr_type g
            = (if peek (data pe) (instr_offset g + 1) =? 0x8D then "LEA" else "MOV").
Proof.
  intros Htext Hfit. unfold find_data_globals_near_xref_range.
  set (scan_start := Z.max (text_start pe) (xref - search_range)).
  set (scan_end := Z.min (text_start pe + text_size pe) (xref + search_range)).
  exists (flat_map (global_reported pe) (range_from scan_start (scan_end - 6))).
  split.
  - rewrite (for_each_flat_map _ (global_reported pe)); [done|].
    intros acc i Hi%range_from_elem. apply globals_body_spec; lia.
  - intros g. rewrite list_elem_of_In, in_flat_map. split.
    + intros (i & Hi%list_elem_of_In%range_from_elem & Hg).
      unfold global_reported in Hg.
      destruct (is_in (peek (data pe) i) [72; 76]) eqn:E0; [|by destruct Hg].
      destruct (is_in (peek (data pe) (i + 1)) [139; 141]) eqn:E1; [|by destruct Hg].
      destruct (rip_relative (peek (data pe) (i + 2))) eqn:E2; [|by destruct Hg].
      cbn [andb] in Hg.
      destruct (offset_to_rva pe i) as [irva|] eqn:E3; [|by destruct Hg].
      destruct ((data_rva pe <=? irva + 7 + disp32_at (data pe) (i + 3))
                && (irva + 7 + disp32_at (data pe) (i + 3) <? data_rva pe + data_size pe))
        eqn:E4; [|by destruct Hg].
      destruct Hg as [<-|[]]. cbn [instr_offset instr_rva target_rva instr_type].
      split_and!; first [done | lia].
    + intros (Hlo & Hhi & E0 & E1 & E2 & E3 & Ht & Hin & Hty).
      exists (instr_offset g). split.
      * apply list_elem_of_In, range_from_elem. lia.
      * unfold global_reported. rewrite E0, E1, E2, E3. cbn [andb].
        rewrite <- Ht.
        assert ((data_rva pe <=? target_rva g)
                && (target_rva g <? data_rva pe + data_size pe) = true) as -> by lia.
        left. rewrite <- Hty. by destruct g.
Qed.

Lemma find_data_globals_exact_witness :
  find_data_globals_near_xref (parsed image_global_ref) 200
  = Ok [mk_global_ref 200 0x1000 0x3000 "MOV"]
  /\ exists gs,
       find_data_globals_near_xref_range (parsed image_global_ref) 200 128 = Ok gs
       /\ forall g, g ∈ gs <->
            Z.max (text_start (parsed image_global_ref)) (200 - 128) <= instr_offset g
            /\ instr_offset g + 7
               <= Z.min (text_start (parsed image_global_ref)
                         + text_size (parsed image_global_ref)) (200 + 128)
            /\ is_in (peek (data (parsed image_global_ref)) (instr_offset g)) [0x48; 0x4C]
               = true
            /\ is_in (peek (data (parsed image_global_ref)) (instr_offset g + 1))
                 [0x8B; 0x8D] = true
            /\ rip_relative (peek (data (parsed image_global_ref)) (instr_offset g + 2))
               = true
            /\ offset_to_rva (parsed image_global_ref) (instr_offset g)
               = Some (instr_rva g)
            /\ target_rva g
               = instr_rva g + 7
                 + disp32_at (data (parsed image_global_ref)) (instr_offset g + 3)
            /\ data_rva (parsed image_global_ref) <= target_rva g
               < data_rva (parsed image_global_ref) + data_size (parsed image_global_ref)
            /\ instr_type g
               = (if peek (data (parsed image_global_ref)) (instr_offset g + 1) =? 0x8D
                  then "LEA" else "MOV").
Proof.
  split; [vm_compute; reflexivity|].
  apply (find_data_globals_exact (parsed image_global_ref) 200 128);
    vm_compute; discriminate.
Defined.

(** ** Functions that reference a string: the composition *)

Lemma find_string_xrefs_total (pe : PEParser) (string_offset : Z) :
  exists xrefs, find_string_xrefs pe string_offset = Ok xrefs.
Proof.
  destruct (offset_to_rva pe string_offset) as [string_rva|] eqn:E.
  - eexists. by apply find_string_xrefs_eq.
  - exists []. unfold find_string_xrefs. by rewrite E.
Qed.

Lemma find_string_xrefs_inside (pe : PEParser) (string_offset : Z) (xrefs : list Z) (x : Z) :
  0 <= text_start pe -> 0 <= text_size pe ->
  find_string_xrefs pe string_offset = Ok xrefs -> x ∈ xrefs ->
  x <= len (data pe).
Proof.
  intros Hts Hsz Hres Hx.
  destruct (offset_to_rva pe string_offset) as [string_rva|] eqn:E.
  - destruct (find_string_xrefs_sound pe string_offset string_rva xrefs x E Hres Hx)
      as (i & ilen & disp & -> & Hrec & _).
    assert (0 <= i /\ i + 6 <= len (code_region pe)) as [Hi Hfit].
    { unfold recognized_reference in Hrec.
      destruct ((0 <=? i) && (i + 7 <=? len (code_region pe)) && _ && _) eqn:E1.
      - apply andb_prop in E1 as [E1 _]. apply andb_prop in E1 as [E1 _]. lia.
      - destruct ((0 <=? i) && (i + 6 <=? len (code_region pe)) && _ && _) eqn:E2;
          [|discriminate].
        apply andb_prop in E2 as [E2 _]. apply andb_prop in E2 as [E2 _]. lia. }
    unfold code_region in Hfit. rewrite slice_len in Hfit by done. lia.
  - unfold find_string_xrefs in Hres. rewrite E in Hres. injection Hres as <-.
    by apply elem_of_nil in Hx.
Qed.

Lemma function_ref_loop (pe : PEParser) (offsets : list Z) (so : Z)
    (all xs : list Z) (results : list function_ref) (seen : gset Z) :
  0 <= text_start pe -> 0 <= text_size pe ->
  so ∈ offsets -> find_string_xrefs pe so = Ok all -> (forall x, x ∈ xs -> x ∈ all) ->
  refs_state_ok pe offsets results seen ->
  exists results' seen',
    for_each (function_ref_body pe so) xs (Some (results, seen))
    = Ok (Some (results', seen'))
    /\ refs_state_ok pe offsets results' seen'
    /\ seen ⊆ seen'
    /\ forall x f, x ∈ xs -> find_function_start pe x = Ok (Some f) -> f ∈ seen'.
Proof.
  intros Hts Hsz Hso Hall. revert results seen.
  induction xs as [|x xs IH]; intros results seen Hsub Hst.
  - exists results, seen. split; [done|]. split; [done|]. split; [done|].
    intros x f Hx. by apply elem_of_nil in Hx.
  - assert (x ∈ all) as Hx by (apply Hsub; left).
    assert (x <= len (data pe)) as Hxlen by (by eapply find_string_xrefs_inside).
    destruct (find_function_start_max_post pe x 2048 Hts Hxlen) as (r & Hr & Hpost).
    assert (forall results1 seen1,
              function_ref_body pe so (Some (results, seen)) x = Ok (Some (results1, seen1)) ->
              refs_state_ok pe offsets results1 seen1 -> seen ⊆ seen1 ->
              (forall f, r = Some f -> f ∈ seen1) ->
              exists results' seen',
                for_each (function_ref_body pe so) (x :: xs) (Some (results, seen))
                = Ok (Some (results', seen'))
                /\ refs_state_ok pe offsets results' seen'
                /\ seen ⊆ seen'
                /\ forall y f, y ∈ x :: xs -> find_function_start pe y = Ok (Some f) ->
                     f ∈ seen') as Hnext.
    { intros results1 seen1 Hbody Hst1 Hsub1 Hcov1.
      destruct (IH results1 seen1) as (results' & seen' & Hloop & Hst' & Hsub' & Hcov');
        [intros y Hy; apply Hsub; by right | done |].
      exists results', seen'. cbn [for_each]. rewrite Hbody.
      cbn [mbind result_bind]. split; [done|]. split; [done|].
      split; [by etransitivity|].
      intros y f [->|Hy]%elem_of_cons Hf; [|by eapply Hcov'].
      apply Hsub', Hcov1. unfold find_function_start in Hf. congruence. }
    unfold function_ref_body in Hnext. unfold find_function_start in Hnext.
    rewrite Hr in Hnext. cbn [mbind result_bind mret result_ret] in Hnext.
    destruct r as [f|]; [|eapply Hnext; [reflexivity | done | done | by intros ? [=]]].
    destruct (Hpost f eq_refl) as (Hf & Hdist & Hpro).
    assert ((f =? 0) = false) as Hnz by lia. rewrite Hnz in Hnext.
    destruct (bool_decide (f ∈ seen)) eqn:Hseen; cbn [negb andb] in Hnext.
    { apply bool_decide_eq_true in Hseen.
      eapply Hnext; [reflexivity | done | done |]. by intros ? [= <-]. }
    apply bool_decide_eq_false in Hseen.
    destruct (make_smart_pattern_len_eq pe f 32) as (w & _ & Hpat).
    rewrite Hpat in Hnext. cbn [mbind result_bind mret result_ret option_bind] in Hnext.
    eapply Hnext; [reflexivity | | apply union_subseteq_r |].
    + destruct Hst as (Hseen_iff & Hnodup & Hok). split; [|split].
      * intros g. rewrite map_app, elem_of_app, elem_of_union, elem_of_singleton.
        cbn [map func_offset]. rewrite list_elem_of_singleton, Hseen_iff. tauto.
      * rewrite map_app. apply NoDup_app. split; [done|]. split.
        -- intros g Hg. cbn [map func_offset]. rewrite list_elem_of_singleton.
           intros ->. by apply Hseen, Hseen_iff.
        -- cbn [map func_offset]. apply NoDup_singleton.
      * intros r [Hr'|Hr']%elem_of_app; [by apply Hok|].
        apply list_elem_of_singleton in Hr' as ->.
        unfold function_ref_ok. cbn [string_offset xref_offset func_offset distance
                                      func_rva pattern raw].
        split; [done|]. split; [by exists all|].
        split; [exact Hr|]. split; [done|]. split; [lia|]. split; [done|].
        split; [exact Hpat | done].
    + intros ? [= <-]. apply elem_of_union. left. by apply elem_of_singleton.
Qed.

Lemma string_ref_loop (pe : PEParser) (offsets sos : list Z)
    (results : list function_ref) (seen : gset Z) :
  0 <= text_start pe -> 0 <= text_size pe ->
  (forall so, so ∈ sos -> so ∈ offsets) ->
  refs_state_ok pe offsets results seen ->
  exists results' seen',
    for_each (string_ref_body pe) sos (Some (results, seen))
    = Ok (Some (results', seen'))
    /\ refs_state_ok pe offsets results' seen'
    /\ seen ⊆ seen'
    /\ forall so xrefs x f,
         so ∈ sos -> find_string_xrefs pe so = Ok xrefs -> x ∈ xrefs ->
         find_function_start pe x = Ok (Some f) -> f ∈ seen'.
Proof.
  intros Hts Hsz. revert results seen.
  induction sos as [|so sos IH]; intros results seen Hsub Hst.
  - exists results, seen. split; [done|]. split; [done|]. split; [done|].
    intros so xrefs x f Hso. by apply elem_of_nil in Hso.
  - destruct (find_string_xrefs_total pe so) as (xrefs & Hxrefs).
    destruct (function_ref_loop pe offsets so xrefs xrefs results seen)
      as (results1 & seen1 & Hloop1 & Hst1 & Hsub1 & Hcov1);
      [done | done | apply Hsub; left | done | done | done |].
    destruct (IH results1 seen1) as (results' & seen' & Hloop & Hst' & Hsub' & Hcov');
      [intros y Hy; apply Hsub; by right | done |].
    assert (string_ref_body pe (Some (results, seen)) so = Ok (Some (results1, seen1)))
      as Hbody.
    { unfold string_ref_body. rewrite Hxrefs. exact Hloop1. }
    exists results', seen'. cbn [for_each]. rewrite Hbody. cbn [mbind result_bind].
    split; [done|]. split; [done|]. split; [by etransitivity|].
    intros so' xrefs' x f [->|Hso']%elem_of_cons Hx' Hx Hf; [|by eapply Hcov'].
    apply Hsub'. apply (Hcov1 x f); [congruence | done].
Qed.

(** X19: [find_all_functions_referencing_string] composes the four scans: on a
    parsed image it returns normally; no two entries have the same function
    offset; every entry records an occurrence of the string, a reference to
    that occurrence, the function start found for the reference (between 1
    and 2047 bytes before it), the RVA, pattern and raw bytes of that start;
    and the function start of every reference to every occurrence is the
    function offset of some entry. *)
Theorem find_all_functions_composition (d : list byte) (pe : PEParser)
    (string_bytes : list byte) :
  parse d = Ok pe ->
  exists offsets results,
    find_string pe string_bytes = Some offsets
    /\ find_all_functions_referencing_string pe string_bytes = Ok (Some results)
    /\ NoDup (map func_offset results)
    /\ (forall r, r ∈ results -> function_ref_ok pe offsets r)
    /\ (forall so xrefs x f,
          so ∈ offsets -> find_string_xrefs pe so = Ok xrefs -> x ∈ xrefs ->
          find_function_start pe x = Ok (Some f) ->
          exists r, r ∈ results /\ func_offset r = f).
Proof.
  intros [Hwf _]%parse_well_formed. destruct Hwf.
  unfold find_all_functions_referencing_string.
  destruct (find_all_loop_spec (length (data pe) + 2) (data pe) string_bytes 0 [])
    as (offsets & Hoffsets & _); [lia | lia | unfold len; lia |].
  cbn [app] in Hoffsets. fold (find_string pe string_bytes) in Hoffsets.
  exists offsets. rewrite Hoffsets.
  destruct (string_ref_loop pe offsets offsets [] ∅)
    as (results & seen & Hloop & (Hseen & Hnodup & Hok) & _ & Hcov); [done.. | |].
  { split; [|split; [constructor|]].
    - intros f. cbn [map]. split; [by intros ?%elem_of_empty | by intros ?%elem_of_nil].
    - intros r Hr. by apply elem_of_nil in Hr. }
  assert (forall so xrefs x f,
            so ∈ offsets -> find_string_xrefs pe so = Ok xrefs -> x ∈ xrefs ->
            find_function_start pe x = Ok (Some f) ->
            exists r, r ∈ results /\ func_offset r = f) as Hcomplete.
  { intros so xrefs x f Hso Hx Hin Hf.
    apply (Hcov so xrefs x f Hso Hx Hin), Hseen, list_elem_of_fmap in Hf
      as (r & -> & Hr).
    by exists r. }
  destruct offsets as [|o os] eqn:Ho.
  - exists []. split; [done|]. split; [done|]. split; [constructor|].
    split; [by intros r ?%elem_of_nil|].
    intros so xrefs x f Hso. by apply elem_of_nil in Hso.
  - exists results. split; [done|]. rewrite Hloop. by cbn.
Qed.

Lemma find_all_functions_composition_witness :
  find_all_functions_referencing_string (parsed image_end_to_end) (ascii_bytes "Kenshi")
  = Ok (Some [mk_function_ref 204 (Some 0x1004) 208 264 4
                "48 83 EC ? 48 8D 05 ? ? ? ? 90 90 90 90 90 90 90 90 90 90 90 90 90 90 90 90 90 90 90 90 90"
                "48 83 EC 28 48 8D 05 F1 0F 00 00 90 90 90 90 90 90 90 90 90 90 90 90 90 90 90 90 90 90 90 90 90"])
  /\ exists offsets results,
       find_string (parsed image_end_to_end) (ascii_bytes "Kenshi") = Some offsets
       /\ find_all_functions_referencing_string (parsed image_end_to_end)
            (ascii_bytes "Kenshi") = Ok (Some results)
       /\ NoDup (map func_offset results)
       /\ (forall r, r ∈ results -> function_ref_ok (parsed image_end_to_end) offsets r)
       /\ (forall so xrefs x f,
             so ∈ offsets -> find_string_xrefs (parsed image_end_to_end) so = Ok xrefs ->
             x ∈ xrefs ->
             find_function_start (parsed image_end_to_end) x = Ok (Some f) ->
             exists r, r ∈ results /\ func_offset r = f).
Proof.
  split; [vm_compute; reflexivity|].
  apply (find_all_functions_composition image_end_to_end). vm_compute. reflexivity.
Defined.
